(** * Scrappie matrix engine: a shallow embedding of [scrappie_matrix.c]
      and of the sequence encoder of [scrappie_squiggle.c].

    Single precision values are IEEE binary32 numbers, taken from the
    Standard Library's executable specification of floating point
    ([SpecFloat], precision 24, exponent bound 128).  C [int]s are 32 bit
    two's complement integers carried by [Z] with the wrap-around written
    out; [size_t] is [size_bits] wide.  Nullable pointers are [option]s. *)

From Stdlib Require Import ZArith List Bool Lia Ascii String.
From Stdlib Require Import QArith Qabs.
From Stdlib Require Import Floats.SpecFloat.
Import ListNotations.

Local Open Scope Z_scope.

(* ================================================================== *)
(** * Part I: the model *)
(* ================================================================== *)

(** ** Machine integers *)

Definition INT_MAX : Z := 2147483647.

(** Reduction of an integer to the 32 bit two's complement range. *)
Definition wrap32 (z : Z) : Z := (z + 2147483648) mod 4294967296 - 2147483648.

(** [int * int]. *)
Definition int_mul (a b : Z) : Z := wrap32 (a * b).

(** [int - int]. *)
Definition int_sub (a b : Z) : Z := wrap32 (a - b).

(** Conversion to a [size_t] of [bits] bits. *)
Definition to_size (bits z : Z) : Z := z mod 2 ^ bits.

(** [(int)ceil(n / 4.0)]: the quotient is exact in double precision. *)
Definition ceil_quarter (n : Z) : Z := - ((- n) / 4).

(** ** Single precision floats *)

Definition f32 : Type := spec_float.

Definition prec32 : Z := 24.
Definition emax32 : Z := 128.

Definition f32_add : f32 -> f32 -> f32 := SFadd prec32 emax32.
Definition f32_sub : f32 -> f32 -> f32 := SFsub prec32 emax32.
Definition f32_mul : f32 -> f32 -> f32 := SFmul prec32 emax32.
Definition f32_div : f32 -> f32 -> f32 := SFdiv prec32 emax32.

(** C's [a < b] and [a > b] on floats; both are false when an operand
    is NaN. *)
Definition f32_lt (a b : f32) : bool := SFltb a b.
Definition f32_gt (a b : f32) : bool := SFltb b a.
Definition f32_le (a b : f32) : bool := SFleb a b.
Definition f32_ne (a b : f32) : bool := negb (SFeqb a b).

Definition fabsf : f32 -> f32 := SFabs.

Definition isnan (a : f32) : bool :=
  match a with S754_nan => true | _ => false end.

Definition isfinite (a : f32) : bool :=
  match a with S754_nan | S754_infinity _ => false | _ => true end.

(** Conversion of an integer to single precision (round to nearest even). *)
Definition f32_of_Z (z : Z) : f32 := binary_normalize prec32 emax32 z 0 false.

Definition NAN : f32 := S754_nan.
Definition fzero : f32 := S754_zero false.
Definition fone : f32 := Eval vm_compute in f32_of_Z 1.
(** [FLT_EPSILON] is 2^-23. *)
Definition FLT_EPSILON : f32 := S754_finite false 8388608 (-46).
(** [FLT_MAX] is (2^24 - 1) * 2^104. *)
Definition FLT_MAX : f32 := S754_finite false 16777215 104.

(** ** Outcomes of a call

    [Abort] is a failed [assert] (debug builds only); [Undef] is a step
    with no defined behaviour in C, such as a null dereference. *)

Inductive outcome (A : Type) : Type :=
| Ret (a : A)
| Abort
| Undef.

Arguments Ret {A} a.
Arguments Abort {A}.
Arguments Undef {A}.

Definition bind {A B : Type} (m : outcome A) (k : A -> outcome B) : outcome B :=
  match m with
  | Ret a => k a
  | Abort => Abort
  | Undef => Undef
  end.

Notation "x <- m ;; k" := (bind m (fun x => k))
  (at level 61, m at next level, right associativity).
Notation "m ;;; k" := (bind m (fun _ => k))
  (at level 61, right associativity).

(** ** Loops *)

(** [for (i = lo; i < lo + n; i++) s = body i s]. *)
Fixpoint for_count {S : Type} (n : nat) (lo : Z) (body : Z -> S -> S) (s : S) : S :=
  match n with
  | O => s
  | Datatypes.S n' => for_count n' (lo + 1) body (body lo s)
  end.

Definition for_range {S : Type} (lo hi : Z) (body : Z -> S -> S) (s : S) : S :=
  for_count (Z.to_nat (hi - lo)) lo body s.

(** A loop whose body may [return r]: [Some r] leaves the loop. *)
Fixpoint for_count_ret {R : Type} (n : nat) (lo : Z) (body : Z -> option R) : option R :=
  match n with
  | O => None
  | Datatypes.S n' =>
      match body lo with
      | Some r => Some r
      | None => for_count_ret n' (lo + 1) body
      end
  end.

Definition for_range_ret {R : Type} (lo hi : Z) (body : Z -> option R) : option R :=
  for_count_ret (Z.to_nat (hi - lo)) lo body.

(** ** Buffers *)

(** [buf[i]]; a read outside the buffer has no defined value in C and
    yields [fzero] here. *)
Definition getf (buf : list f32) (i : Z) : f32 :=
  if (0 <=? i) then nth (Z.to_nat i) buf fzero else fzero.

(** [buf[i] = v]; a write outside the buffer is dropped here. *)
Fixpoint set_nth {A : Type} (n : nat) (v : A) (l : list A) : list A :=
  match l, n with
  | [], _ => []
  | _ :: t, O => v :: t
  | h :: t, Datatypes.S n' => h :: set_nth n' v t
  end.

Definition setf (buf : list f32) (i : Z) (v : f32) : list f32 :=
  if (0 <=? i) then set_nth (Z.to_nat i) v buf else buf.

Definition zeros (n : Z) : list f32 := repeat fzero (Z.to_nat n).

Definition len {A : Type} (l : list A) : Z := Z.of_nat (List.length l).

(** ** The padded matrix *)

(** [struct _Mat]: [nr] logical rows, [nrq] lane groups of four per
    column, [nc] columns and the lane buffer seen through its scalar view
    [data.f]; lane group [g] of the vector view [data.v] is the four
    scalars from [4 * g]. *)
Record scrappie_mat : Type := mkMat {
  nr : Z;
  nrq : Z;
  nc : Z;
  data : list f32
}.

(** A [scrappie_matrix] is a pointer to the structure, possibly null. *)
Definition scrappie_matrix : Type := option scrappie_mat.

(** [col * x->nrq * 4], computed in [int]. *)
Definition col_offset (col nrq_ : Z) : Z := int_mul (int_mul col nrq_) 4.

Section Engine.

(** Build configuration and environment. *)
Variable NDEBUG : bool.                 (* asserts and validators compiled out *)
Variable size_bits : Z.                 (* width of [size_t] *)
Variable malloc_ok : bool.              (* [malloc] of the header succeeds *)
Variable aligned_alloc_ok : Z -> bool.  (* [aligned_alloc(16, bytes)] succeeds *)
Variable calloc_ok : Z -> bool.         (* [calloc(n, 4)] succeeds *)

Definition assert (b : bool) : outcome unit :=
  if NDEBUG then Ret tt else if b then Ret tt else Abort.

(** ** Lifecycle *)

Definition make_scrappie_matrix (nr_ nc_ : Z) : outcome scrappie_matrix :=
  assert (0 <? nr_) ;;;
  assert (0 <? nc_) ;;;
  let nrq_ := ceil_quarter nr_ in
  if negb malloc_ok then Ret None else
  let tmp1 := to_size size_bits (to_size size_bits nrq_ * 16) in
  let tmp2 := to_size size_bits (tmp1 * to_size size_bits nc_) in
  if negb (tmp1 =? 0) && negb (tmp2 / tmp1 =? to_size size_bits nc_) then Ret None else
  let bytes := to_size size_bits (to_size size_bits (int_mul nrq_ nc_) * 16) in
  if negb (aligned_alloc_ok bytes) then Ret None else
  Ret (Some (mkMat nr_ nrq_ nc_ (zeros (bytes / 4)))).

(** [free_scrappie_matrix] returns the null handle; the second component
    lists the structures it released. *)
Definition free_scrappie_matrix (mat : scrappie_matrix)
  : scrappie_matrix * list scrappie_mat :=
  match mat with
  | Some m => (None, [m])
  | None => (None, [])
  end.

Definition shape_differs (M : scrappie_matrix) (nr_ nc_ : Z) : bool :=
  match M with
  | None => true
  | Some m => negb (nr m =? nr_) || negb (nc m =? nc_)
  end.

Definition remake_scrappie_matrix (M : scrappie_matrix) (nr_ nc_ : Z)
  : outcome (scrappie_matrix * list scrappie_mat) :=
  if shape_differs M nr_ nc_ then
    let '(_, released) := free_scrappie_matrix M in
    M' <- make_scrappie_matrix nr_ nc_ ;;
    Ret (M', released)
  else Ret (M, []).

(** [size_t + int]. *)
Definition size_add (a b : Z) : Z := to_size size_bits (a + b).

(** [size_t * int]. *)
Definition size_mul (a b : Z) : Z := to_size size_bits (a * b).

(** [const size_t offset = col * x->nrq * 4]: an [int] product stored in
    a [size_t]. *)
Definition size_col_offset (col nrq_ : Z) : Z := to_size size_bits (col_offset col nrq_).

(** ** Extrema *)

Definition max_scrappie_matrix (x : scrappie_matrix) : f32 :=
  match x with
  | None => NAN
  | Some x =>
      for_range 0 (nc x) (fun col amax =>
        let offset := size_col_offset col (nrq x) in
        for_range 0 (nr x) (fun r amax =>
          if f32_lt amax (getf (data x) (size_add offset r))
          then getf (data x) (size_add offset r) else amax) amax)
        (getf (data x) 0)
  end.

Definition min_scrappie_matrix (x : scrappie_matrix) : f32 :=
  match x with
  | None => NAN
  | Some x =>
      for_range 0 (nc x) (fun col amin =>
        let offset := size_col_offset col (nrq x) in
        for_range 0 (nr x) (fun r amin =>
          if f32_lt amin (getf (data x) (size_add offset r))
          then getf (data x) (size_add offset r) else amin) amin)
        (getf (data x) 0)
  end.

Definition argmax_scrappie_matrix (x : scrappie_matrix) : Z :=
  match x with
  | None => -1
  | Some x =>
      snd (for_range 0 (nc x) (fun col st =>
        let offset := size_col_offset col (nrq x) in
        for_range 0 (nr x) (fun r '(amax, imax) =>
          if f32_lt amax (getf (data x) (size_add offset r))
          then (getf (data x) (size_add offset r), wrap32 (size_add offset r))
          else (amax, imax)) st)
        (getf (data x) 0, 0))
  end.

Definition argmin_scrappie_matrix (x : scrappie_matrix) : Z :=
  match x with
  | None => -1
  | Some x =>
      snd (for_range 0 (nc x) (fun col st =>
        let offset := size_col_offset col (nrq x) in
        for_range 0 (nr x) (fun r '(amin, imin) =>
          if f32_lt amin (getf (data x) (size_add offset r))
          then (getf (data x) (size_add offset r), wrap32 (size_add offset r))
          else (amin, imin)) st)
        (getf (data x) 0, 0))
  end.

(** ** Conversion between flat arrays and padded matrices *)

(** [memcpy(dst + doff, src + soff, n * sizeof(float))] between two
    distinct buffers. *)
Definition memcpy_f (dst : list f32) (doff : Z) (src : list f32) (soff n : Z) : list f32 :=
  for_range 0 n (fun k d => setf d (doff + k) (getf src (soff + k))) dst.

(** The copy loop of [mat_from_array]: column [col] of [x] goes to
    offset [col * nrq * 4] of the lane buffer [d]. *)
Definition copy_columns (x : list f32) (nr_ nc_ nrq_ : Z) (d : list f32) : list f32 :=
  for_range 0 nc_ (fun col d =>
    memcpy_f d (col_offset col nrq_) x (int_mul col nr_)
             (to_size size_bits (to_size size_bits nr_ * 4) / 4)) d.

Definition mat_from_array (x : list f32) (nr_ nc_ : Z) : outcome scrappie_matrix :=
  res <- make_scrappie_matrix nr_ nc_ ;;
  match res with
  | None => Ret None
  | Some res =>
      Ret (Some (mkMat (nr res) (nrq res) (nc res)
                       (copy_columns x nr_ nc_ (nrq res) (data res))))
  end.

Definition array_from_scrappie_matrix (mat : scrappie_matrix) : option (list f32) :=
  match mat with
  | None => None
  | Some mat =>
      let nelt := to_size size_bits (int_mul (nr mat) (nc mat)) in
      if negb (calloc_ok nelt) then None else
      Some (for_range 0 (to_size size_bits (nc mat)) (fun c res =>
        let offset_out := size_mul c (nr mat) in
        let offset_in := size_mul (size_mul c (nrq mat)) 4 in
        for_range 0 (to_size size_bits (nr mat)) (fun r res =>
          setf res (to_size size_bits (offset_out + r))
                   (getf (data mat) (to_size size_bits (offset_in + r)))) res)
        (zeros nelt))
  end.

(** ** Contract validators *)

(** The four scans of [validate_scrappie_matrix] share their loop nest:
    rows [rlo, rhi) of every column, leaving with [false] at the first
    element on which [bad] holds. *)
Definition scan_matrix (mat : scrappie_mat) (ld rlo rhi : Z) (bad : f32 -> bool)
  : option bool :=
  for_range_ret 0 (nc mat) (fun c =>
    let offset := to_size size_bits (int_mul c ld) in
    for_range_ret rlo rhi (fun r =>
      if bad (getf (data mat) (size_add offset r)) then Some false else None)).

Definition passes (scan : option bool) : bool :=
  match scan with
  | Some r => r
  | None => true
  end.

Definition validate_scrappie_matrix (mat : scrappie_matrix)
    (lower upper maskval : f32) (only_finite : bool) : outcome bool :=
  if NDEBUG then Ret true else
  match mat with
  | None => Ret false
  | Some mat =>
      assert (0 <? nc mat) ;;;
      assert (0 <? nr mat) ;;;
      assert ((0 <? nrq mat) && (nr mat <=? int_mul 4 (nrq mat))) ;;;
      let nc_ := nc mat in
      let nr_ := nr mat in
      let ld := int_mul (nrq mat) 4 in
      if negb (isnan maskval)
         && negb (passes (scan_matrix mat ld nr_ ld (fun v => f32_ne maskval v)))
      then Ret false else
      if only_finite
         && negb (passes (scan_matrix mat ld 0 nr_ (fun v => negb (isfinite v))))
      then Ret false else
      if negb (isnan lower)
         && negb (passes (scan_matrix mat ld 0 nr_
                    (fun v => f32_lt (f32_add v FLT_EPSILON) lower)))
      then Ret false else
      if negb (isnan upper)
         && negb (passes (scan_matrix mat ld 0 nr_
                    (fun v => f32_gt v (f32_add upper FLT_EPSILON))))
      then Ret false else
      Ret true
  end.

(** One bound loop of [validate_vector]: [for (int i = 0; i < n; ++i)]
    with [n] a float, so the loop test compares the converted counter.
    The recursion consumes the buffer; a read past its end is [Undef].
    The result is [false] when the loop returned [false]. *)
Fixpoint scan_vector (bad : f32 -> bool) (n : f32) (i : Z) (vec : list f32)
  : outcome bool :=
  if f32_lt (f32_of_Z i) n then
    match vec with
    | [] => Undef
    | v :: rest => if bad v then Ret false else scan_vector bad n (i + 1) rest
    end
  else Ret true.

Definition validate_vector (vec : option (list f32)) (n lower upper : f32)
  : outcome bool :=
  if NDEBUG then Ret true else
  match vec with
  | None => Ret false
  | Some vec =>
      ok <- (if negb (isnan lower)
             then scan_vector (fun v => f32_gt lower v) n 0 vec else Ret true) ;;
      if negb ok then Ret false else
      ok <- (if negb (isnan upper)
             then scan_vector (fun v => f32_lt upper v) n 0 vec else Ret true) ;;
      if negb ok then Ret false else Ret true
  end.

(** One bound loop of [validate_ivector]. *)
Fixpoint scan_ivector (bad : Z -> bool) (n : Z) (i : Z) (vec : list Z)
  : outcome bool :=
  if i <? n then
    match vec with
    | [] => Undef
    | v :: rest => if bad v then Ret false else scan_ivector bad n (i + 1) rest
    end
  else Ret true.

Definition validate_ivector (vec : option (list Z)) (n lower upper : Z)
  : outcome bool :=
  if NDEBUG then Ret true else
  match vec with
  | None => Ret false
  | Some vec =>
      ok <- scan_ivector (fun v => lower >? v) n 0 vec ;;
      if negb ok then Ret false else
      ok <- scan_ivector (fun v => upper <? v) n 0 vec ;;
      if negb ok then Ret false else Ret true
  end.

(** ** Equality within a tolerance *)

Definition equality_scrappie_matrix (mat1 mat2 : scrappie_matrix) (tol : f32)
  : outcome bool :=
  match mat1, mat2 with
  | None, None => Ret true
  | None, Some _ | Some _, None => Ret false
  | Some mat1, Some mat2 =>
      if negb (nc mat1 =? nc mat2) || negb (nr mat1 =? nr mat2) then Ret false else
      assert (nrq mat1 =? nrq mat2) ;;;
      Ret (passes (for_range_ret 0 (nc mat1) (fun c =>
        let offset := int_mul (int_mul c 4) (nrq mat1) in
        for_range_ret 0 (nr mat1) (fun r =>
          if f32_gt (fabsf (f32_sub (getf (data mat1) (wrap32 (offset + r)))
                                    (getf (data mat2) (wrap32 (offset + r))))) tol
          then Some false else None))))
  end.

(** ** Affine maps *)

(** [cblas_sgemm(CblasColMajor, CblasTrans, CblasNoTrans, M, N, K, 1.0,
    A, lda, B, ldb, 1.0, C, ldc)]: the external matrix multiply, which
    returns the updated contents of [C]. *)
Variable cblas_sgemm :
  Z -> Z -> Z -> list f32 -> Z -> list f32 -> Z -> list f32 -> Z -> list f32.

(** The bias broadcast shared by both affine maps:
    [memcpy(C->data.v + c * C->nrq, b->data.v, C->nrq * sizeof(__m128))]
    for every column.  Reading through a null [b] is [Undef]. *)
Definition copy_bias (b : scrappie_matrix) (C : scrappie_mat) : outcome (list f32) :=
  match b with
  | Some b =>
      Ret (for_range 0 (nc C) (fun c d =>
        memcpy_f d (4 * int_mul c (nrq C)) (data b) 0
                 (to_size size_bits (to_size size_bits (nrq C) * 16) / 4)) (data C))
  | None => if 0 <? nc C then Undef else Ret (data C)
  end.

Definition is_some {A : Type} (o : option A) : bool :=
  match o with Some _ => true | None => false end.

Definition affine_map (X W b C : scrappie_matrix) : outcome scrappie_matrix :=
  match X with
  | None => Ret None
  | Some X =>
      assert (is_some W) ;;;
      assert (is_some b) ;;;
      match W with
      | None => Undef
      | Some W =>
          assert (nr W =? nr X) ;;;
          C' <- remake_scrappie_matrix C (nc W) (nc X) ;;
          match fst C' with
          | None => Ret None
          | Some C =>
              d <- copy_bias b C ;;
              Ret (Some (mkMat (nr C) (nrq C) (nc C)
                (cblas_sgemm (nc W) (nc X) (nr W)
                   (data W) (int_mul (nrq W) 4) (data X) (int_mul (nrq X) 4)
                   d (int_mul (nrq C) 4))))
          end
      end
  end.

Definition affine_map2 (Xf Xb Wf Wb b C : scrappie_matrix) : outcome scrappie_matrix :=
  match Xf with
  | None => Ret None
  | Some Xf =>
  match Xb with
  | None => Ret None
  | Some Xb =>
      assert (is_some Wf) ;;;
      assert (is_some Wb) ;;;
      assert (is_some b) ;;;
      match Wf with
      | None => Undef
      | Some Wf =>
          assert (nr Wf =? nr Xf) ;;;
          match Wb with
          | None => Undef
          | Some Wb =>
              assert (nr Wb =? nr Xb) ;;;
              assert (nc Xf =? nc Xb) ;;;
              assert (nc Wf =? nc Wb) ;;;
              C' <- remake_scrappie_matrix C (nc Wf) (nc Xf) ;;
              match fst C' with
              | None => Ret None
              | Some C =>
                  d <- copy_bias b C ;;
                  let d1 := cblas_sgemm (nc Wf) (nc Xf) (nr Wf)
                              (data Wf) (int_mul (nrq Wf) 4) (data Xf) (int_mul (nrq Xf) 4)
                              d (int_mul (nrq C) 4) in
                  let d2 := cblas_sgemm (nc Wb) (nc Xb) (nr Wb)
                              (data Wb) (int_mul (nrq Wb) 4) (data Xb) (int_mul (nrq Xb) 4)
                              d1 (int_mul (nrq C) 4) in
                  Ret (Some (mkMat (nr C) (nrq C) (nc C) d2))
              end
          end
      end
  end
  end.

(** ** Row normalisation *)

(** A lane group [__m128]: lanes 0 to 3. *)
Definition m128 : Type := (f32 * f32 * f32 * f32)%type.

(** The result of a lane comparison: all ones ([true]) or all zeros. *)
Definition lane_mask : Type := (bool * bool * bool * bool)%type.

Definition lanewise (op : f32 -> f32 -> f32) (a b : m128) : m128 :=
  let '(a0, a1, a2, a3) := a in
  let '(b0, b1, b2, b3) := b in
  (op a0 b0, op a1 b1, op a2 b2, op a3 b3).

(** [_mm_set_ps(e3, e2, e1, e0)]: the first argument is the highest lane. *)
Definition _mm_set_ps (e3 e2 e1 e0 : f32) : m128 := (e0, e1, e2, e3).
Definition _mm_set1_ps (a : f32) : m128 := (a, a, a, a).

Definition _mm_cmpgt_ps (a b : m128) : lane_mask :=
  let '(a0, a1, a2, a3) := a in
  let '(b0, b1, b2, b3) := b in
  (f32_gt a0 b0, f32_gt a1 b1, f32_gt a2 b2, f32_gt a3 b3).

(** [_mm_and_ps] with a comparison mask keeps a lane or clears it to +0. *)
Definition _mm_and_ps (a : m128) (m : lane_mask) : m128 :=
  let '(a0, a1, a2, a3) := a in
  let '(m0, m1, m2, m3) := m in
  (if m0 then a0 else fzero, if m1 then a1 else fzero,
   if m2 then a2 else fzero, if m3 then a3 else fzero).

Definition _mm_hadd_ps (a b : m128) : m128 :=
  let '(a0, a1, a2, a3) := a in
  let '(b0, b1, b2, b3) := b in
  (f32_add a0 a1, f32_add a2 a3, f32_add b0 b1, f32_add b2 b3).

(** [data.v[g]] and [data.v[g] = v] on the scalar buffer. *)
Definition getv (buf : list f32) (g : Z) : m128 :=
  (getf buf (4 * g), getf buf (4 * g + 1), getf buf (4 * g + 2), getf buf (4 * g + 3)).

Definition setv (buf : list f32) (g : Z) (v : m128) : list f32 :=
  let '(v0, v1, v2, v3) := v in
  setf (setf (setf (setf buf (4 * g) v0) (4 * g + 1) v1) (4 * g + 2) v2) (4 * g + 3) v3.

(** A C truth value converted to [float]. *)
Definition f32_of_bool (b : bool) : f32 := if b then fone else fzero.

Definition padding_mask (i : Z) : lane_mask :=
  _mm_cmpgt_ps (_mm_set_ps (f32_of_bool (1 <=? i)) (f32_of_bool (2 <=? i))
                           (f32_of_bool (3 <=? i)) (f32_of_Z 0))
               (_mm_set1_ps fzero).

(** The column total as the loop body computes it, in all four lanes. *)
Definition column_tsum (buf : list f32) (nrq_ : Z) (mask : lane_mask) (offset : Z) : m128 :=
  let sum := for_range 1 nrq_ (fun row sum =>
               lanewise f32_add sum (getv buf (size_add offset row)))
               (getv buf offset) in
  let sum := lanewise f32_sub sum
               (_mm_and_ps (getv buf (size_add (size_add offset nrq_) (-1))) mask) in
  let psum := _mm_hadd_ps sum sum in
  _mm_hadd_ps psum psum.

Definition row_normalise_inplace (C : scrappie_matrix) : scrappie_matrix :=
  match C with
  | None => None
  | Some C =>
      let i := int_sub (int_mul (nrq C) 4) (nr C) in
      let mask := padding_mask i in
      Some (mkMat (nr C) (nrq C) (nc C)
        (for_range 0 (nc C) (fun col d =>
           let offset := to_size size_bits (int_mul col (nrq C)) in
           let tsum := column_tsum d (nrq C) mask offset in
           let tsum_recip := lanewise f32_div (_mm_set1_ps fone) tsum in
           for_range 0 (nrq C) (fun row d =>
             setv d (size_add offset row)
                    (lanewise f32_mul (getv d (size_add offset row)) tsum_recip)) d)
           (data C)))
  end.

(** ** Sequence encoding ([scrappie_squiggle.c]) *)

(** [toupper] in the C locale. *)
Definition toupper (c : ascii) : ascii :=
  let n := nat_of_ascii c in
  if ((97 <=? n) && (n <=? 122))%nat then ascii_of_nat (n - 32) else c.

Definition base_to_int (c : ascii) (allow_lower : bool) : Z :=
  let c := if allow_lower then toupper c else c in
  if Ascii.eqb c "A" then 0
  else if Ascii.eqb c "C" then 1
  else if Ascii.eqb c "G" then 2
  else if Ascii.eqb c "T" then 3
  else -1.

Variable calloc_int_ok : Z -> bool.     (* [calloc(n, sizeof(int))] succeeds *)

(** The loop of [encode_bases_to_integers], [k] iterations from index
    [i]; [None] is the null pointer left by [free(iseq); iseq = NULL]. *)
Fixpoint encode_loop (k : nat) (i : Z) (seq : list ascii) (iseq : list Z)
  : outcome (option (list Z)) :=
  match k with
  | O => Ret (Some iseq)
  | Datatypes.S k' =>
      match nth_error seq (Z.to_nat i) with
      | None => Undef
      | Some c =>
          let ib := base_to_int c true in
          let iseq := set_nth (Z.to_nat i) ib iseq in
          if -1 =? ib then Ret None else encode_loop k' (i + 1) seq iseq
      end
  end.

Definition encode_bases_to_integers (seq : list ascii) (n : Z)
  : outcome (option (list Z)) :=
  if calloc_int_ok n
  then encode_loop (Z.to_nat n) 0 seq (repeat 0 (Z.to_nat n))
  else if 0 <? n then Undef else Ret None.

(** [dna_squiggle], the network forward pass, is external to this unit. *)
Variable dna_squiggle : list Z -> Z -> bool -> outcome scrappie_matrix.

Definition sequence_to_squiggle (base_seq : option (list ascii)) (n : Z) (rescale : bool)
  : outcome scrappie_matrix :=
  match base_seq with
  | None => Ret None
  | Some base_seq =>
      sequence <- encode_bases_to_integers base_seq n ;;
      match sequence with
      | None => Ret None
      | Some sequence => dna_squiggle sequence n rescale
      end
  end.

End Engine.

(** ** Well-formed matrices and the scan order *)

(** The invariant of a live matrix: positive shape, [nrq] lane groups
    covering [nr] rows, a buffer of [4 * nrq * nc] scalars, all offsets
    representable in an [int]. *)
Definition wf_matrix (x : scrappie_mat) : Prop :=
  0 < nr x /\ 0 < nc x /\ nrq x = ceil_quarter (nr x) /\
  len (data x) = 4 * nrq x * nc x /\ 4 * nrq x * nc x <= INT_MAX.

(** [lo, lo + 1, ..., lo + n - 1]. *)
Fixpoint zseq (lo : Z) (n : nat) : list Z :=
  match n with
  | O => []
  | Datatypes.S n' => lo :: zseq (lo + 1) n'
  end.

(** Flat offsets of the logical elements in the order the reductions
    visit them: column by column, rows ascending. *)
Definition logical_offsets (x : scrappie_mat) : list Z :=
  flat_map (fun col => map (fun r => 4 * nrq x * col + r) (zseq 0 (Z.to_nat (nr x))))
           (zseq 0 (Z.to_nat (nc x))).

(** One step of the arg-extremum scans at flat offset [j]. *)
Definition arg_step (d : list f32) (st : f32 * Z) (j : Z) : f32 * Z :=
  let '(a, i) := st in
  if f32_lt a (getf d j) then (getf d j, wrap32 j) else (a, i).

(** Index pairs (column, row) in the order a column-major loop nest
    visits them. *)
Definition index_pairs (ncols nrows : Z) : list (Z * Z) :=
  flat_map (fun c => map (fun r => (c, r)) (zseq 0 (Z.to_nat nrows)))
           (zseq 0 (Z.to_nat ncols)).

(** The element test of [equality_scrappie_matrix] at logical position
    (column [c], row [r]). *)
Definition differ_beyond (m1 m2 : scrappie_mat) (tol : f32) (c r : Z) : bool :=
  f32_gt (fabsf (f32_sub (getf (data m1) (4 * nrq m1 * c + r))
                         (getf (data m2) (4 * nrq m1 * c + r)))) tol.

(** The structures that releasing the handle [M] frees. *)
Definition released_by (M : scrappie_matrix) : list scrappie_mat :=
  match M with Some m => [m] | None => [] end.

(** The bases that [base_to_int] recognises when lower case is allowed. *)
Definition is_base (c : ascii) : bool :=
  existsb (Ascii.eqb c) ["A"; "C"; "G"; "T"; "a"; "c"; "g"; "t"]%char.

(** A reference evaluation of the external multiply: column-major
    [C = A^T * B + C] with the given leading dimensions, each dot product
    accumulated in index order.  The library may accumulate in another
    order; this instance only serves the concrete examples. *)
Definition reference_sgemm (M N K : Z) (A : list f32) (lda : Z) (B : list f32) (ldb : Z)
    (C : list f32) (ldc : Z) : list f32 :=
  for_range 0 N (fun j C =>
    for_range 0 M (fun i C =>
      setf C (i + j * ldc)
        (f32_add
           (for_range 0 K (fun k acc =>
              f32_add acc (f32_mul (getf A (k + i * lda)) (getf B (k + j * ldb)))) fzero)
           (getf C (i + j * ldc)))) C) C.

(** An instance for the external [dna_squiggle], giving only the shape
    of its result (three signal parameters per encoded base); it serves to
    instantiate the examples. *)
Definition shape_only_squiggle (sequence : list Z) (n : Z) (rescale : bool)
  : outcome scrappie_matrix :=
  Ret (Some (mkMat 3 1 n (zeros (4 * n)))).

(** ** Column totals, as the description of row normalisation has them *)

(** The running total of lane [l] over the lane groups of the column
    that starts at scalar offset [base]. *)
Definition lane_sum (d : list f32) (nrq_ base l : Z) : f32 :=
  for_range 1 nrq_ (fun g s => f32_add s (getf d (base + 4 * g + l)))
            (getf d (base + l)).

(** The element of the last lane group in lane [l] when its row is a
    padding row, and +0 when it is a logical row. *)
Definition masked_padding (m : scrappie_mat) (c l : Z) : f32 :=
  let r := 4 * (nrq m - 1) + l in
  if nr m <=? r then getf (data m) (4 * nrq m * c + r) else fzero.

(** The total of column [c]: per lane, the sum over all lane groups
    minus the padding element, then the four lanes added pairwise. *)
Definition column_total (m : scrappie_mat) (c : Z) : f32 :=
  let t := fun l => f32_sub (lane_sum (data m) (nrq m) (4 * nrq m * c) l)
                            (masked_padding m c l) in
  f32_add (f32_add (t 0) (t 1)) (f32_add (t 2) (t 3)).

(** The total with nothing subtracted. *)
Definition unmasked_total (m : scrappie_mat) (c : Z) : f32 :=
  let t := fun l => lane_sum (data m) (nrq m) (4 * nrq m * c) l in
  f32_add (f32_add (t 0) (t 1)) (f32_add (t 2) (t 3)).

(** The exact value of a finite float (and 0 for the others). *)
Definition f32_to_Q (x : f32) : Q :=
  match x with
  | S754_finite s mx e =>
      let v := if 0 <=? e then inject_Z (Z.pos mx * 2 ^ e)
               else Qmake (Z.pos mx) (Z.to_pos (2 ^ (- e))) in
      if s then Qopp v else v
  | _ => inject_Z 0
  end.

(** The logical elements of column [c]. *)
Definition column_values (m : scrappie_mat) (c : Z) : list f32 :=
  map (fun r => getf (data m) (4 * nrq m * c + r)) (zseq 0 (Z.to_nat (nr m))).

Definition positive_column (m : scrappie_mat) (c : Z) : Prop :=
  forall v, In v (column_values m c) -> f32_gt v fzero = true.

(** The logical rows of column [c] are finite and their exact sum is
    1 within 1e-5. *)
Definition sums_to_one (m : scrappie_mat) (c : Z) : Prop :=
  forallb isfinite (column_values m c) = true /\
  Qle (Qabs (Qminus (fold_right Qplus (inject_Z 0) (map f32_to_Q (column_values m c)))
                    (inject_Z 1)))
      (Qmake 1 100000).

(** ** Example inputs *)

(** The 2 x 2 matrix with rows (1, 5) and (3, 2), stored column-major
    with two padding lanes per column. *)
Definition example_2x2 : scrappie_mat :=
  mkMat 2 1 2
    [f32_of_Z 1; f32_of_Z 3; fzero; fzero; f32_of_Z 5; f32_of_Z 2; fzero; fzero].

(** A flat 2 x 2 array, column-major: columns (1, 3) and (5, 2). *)
Definition example_flat : list f32 :=
  [f32_of_Z 1; f32_of_Z 3; f32_of_Z 5; f32_of_Z 2].

(** An allocator that never fails. *)
Definition always_ok : Z -> bool := fun _ => true.

Definition seq_ACGT : list ascii := list_ascii_of_string "ACGT".
Definition seq_ACGX : list ascii := list_ascii_of_string "ACGX".

(** The float after 1.0, that is 1 + [FLT_EPSILON]. *)
Definition one_plus_epsilon : f32 := S754_finite false 8388609 (-23).

(** The 1 x 1 matrix holding 1.0. *)
Definition example_1x1 : scrappie_mat := mkMat 1 1 1 [fone; fzero; fzero; fzero].

(** 2^100, standing for a stale value left in a padding lane. *)
Definition stale_value : f32 := S754_finite false 8388608 77.

(** One column of seven ones with the padding lane at zero, and the
    same column with a stale value in the padding lane. *)
Definition sevens_clean : scrappie_mat :=
  mkMat 7 2 1 [fone; fone; fone; fone; fone; fone; fone; fzero].
Definition sevens_stale : scrappie_mat :=
  mkMat 7 2 1 [fone; fone; fone; fone; fone; fone; fone; stale_value].

(** One column holding [FLT_MAX] twice, padding at zero. *)
Definition column_overflow : scrappie_mat :=
  mkMat 2 1 1 [FLT_MAX; FLT_MAX; fzero; fzero].

(** One column whose first logical element is a NaN. *)
Definition example_nan_first : scrappie_mat :=
  mkMat 2 1 1 [NAN; f32_of_Z 5; fzero; fzero].

(** The 1 x 1 matrix holding a NaN. *)
Definition example_nan_1x1 : scrappie_mat := mkMat 1 1 1 [NAN; fzero; fzero; fzero].

(** The 2 x 2 identity and a zero bias of two rows. *)
Definition identity_2x2 : scrappie_mat :=
  mkMat 2 1 2 [fone; fzero; fzero; fzero; fzero; fone; fzero; fzero].
Definition zero_bias_2 : scrappie_mat := mkMat 2 1 1 [fzero; fzero; fzero; fzero].

(** ** Further operations on the padded matrix *)

(** [memset(buf, 0, n * sizeof(float))]. *)
Definition memset_zero (buf : list f32) (n : Z) : list f32 :=
  for_range 0 n (fun k d => setf d k fzero) buf.

Section Lifecycle.

Variable NDEBUG : bool.
Variable size_bits : Z.
Variable malloc_ok : bool.
Variable aligned_alloc_ok : Z -> bool.

(** [sizeof(__m128) * C->nrq * C->nc], computed in [size_t]. *)
Definition lane_bytes (nrq_ nc_ : Z) : Z :=
  to_size size_bits (to_size size_bits (16 * to_size size_bits nrq_)
                     * to_size size_bits nc_).

Definition copy_scrappie_matrix (M : scrappie_matrix) : outcome scrappie_matrix :=
  match M with
  | None => Ret None
  | Some M =>
      C <- make_scrappie_matrix NDEBUG size_bits malloc_ok aligned_alloc_ok (nr M) (nc M) ;;
      match C with
      | None => Ret None
      | Some C =>
          Ret (Some (mkMat (nr C) (nrq C) (nc C)
                 (memcpy_f (data C) 0 (data M) 0 (lane_bytes (nrq C) (nc C) / 4))))
      end
  end.

(** [zero_scrappie_matrix] works in place; the result is the matrix
    behind the handle afterwards. *)
Definition zero_scrappie_matrix (M : scrappie_matrix) : scrappie_matrix :=
  match M with
  | None => None
  | Some M =>
      let bytes := to_size size_bits
                     (to_size size_bits (int_mul (int_mul (nrq M) 4) (nc M)) * 4) in
      Some (mkMat (nr M) (nrq M) (nc M) (memset_zero (data M) (bytes / 4)))
  end.

End Lifecycle.

(** The matrix with rows (7, 5) and (9, 2): [example_2x2] with another
    first column. *)
Definition example_2x2_alt : scrappie_mat :=
  mkMat 2 1 2
    [f32_of_Z 7; f32_of_Z 9; fzero; fzero; f32_of_Z 5; f32_of_Z 2; fzero; fzero].

(** A 2 x 2 output buffer holding stale values everywhere. *)
Definition stale_output_2x2 : scrappie_mat :=
  mkMat 2 1 2 [stale_value; fone; stale_value; NAN; fone; fone; fone; stale_value].

(** ** The diagnostic dump *)

(** What [fprint_scrappie_matrix] writes, line by line: the header,
    then per column its index and the values printed after it.  The
    formatting of the numbers is left out. *)
Inductive out_line : Type :=
| HeaderLine (text : string)
| ColumnLine (c : Z) (values : list f32).

Section Printing.

Variable NDEBUG : bool.
Variable size_bits : Z.
Variable fputs_ok : bool.               (* [fputs(header, fh)] succeeds *)

Definition fprint_scrappie_matrix (fh_present : bool) (header : option string)
    (mat : scrappie_matrix) (nr_ nc_ : Z) (include_padding : bool)
  : outcome (list out_line) :=
  assert NDEBUG fh_present ;;;
  assert NDEBUG (is_some mat) ;;;
  match mat with
  | None => Undef
  | Some mat =>
      let rlim := if include_padding then int_mul 4 (nrq mat) else nr mat in
      let nr_ := if (nr_ <=? 0) || (rlim <? nr_) then rlim else nr_ in
      let nc_ := if (nc_ <=? 0) || (nc mat <? nc_) then nc mat else nc_ in
      if negb fh_present then Undef else
      let columns := fun out =>
        for_range 0 nc_ (fun c out =>
          let offset := size_col_offset size_bits c (nrq mat) in
          out ++ [ColumnLine c
                    (for_range 1 nr_ (fun r values =>
                       values ++ [getf (data mat) (size_add size_bits offset r)])
                       [getf (data mat) offset])]) out in
      match header with
      | Some text => if fputs_ok then Ret (columns [HeaderLine text]) else Ret []
      | None => Ret (columns [])
      end
  end.

End Printing.

(** The row and column limits after clamping. *)
Definition clamp_limit (asked limit : Z) : Z :=
  if (asked <=? 0) || (limit <? asked) then limit else asked.

(** ** The padded integer matrix *)

Module IMatrix.

(** [struct _iMat]: the same layout with [int] lanes. *)
Record scrappie_imat : Type := mkIMat {
  nr : Z;
  nrq : Z;
  nc : Z;
  data : list Z
}.

Definition scrappie_imatrix : Type := option scrappie_imat.

(** [buf[i]] and [buf[i] = v] on an [int] buffer, with the conventions
    of [getf] and [setf]. *)
Definition geti (buf : list Z) (i : Z) : Z :=
  if (0 <=? i) then nth (Z.to_nat i) buf 0 else 0.

Definition seti (buf : list Z) (i : Z) (v : Z) : list Z :=
  if (0 <=? i) then set_nth (Z.to_nat i) v buf else buf.

Definition izeros (n : Z) : list Z := repeat 0 (Z.to_nat n).

(** [memcpy] and [memset] counted in [int]s. *)
Definition memcpy_i (dst : list Z) (doff : Z) (src : list Z) (soff n : Z) : list Z :=
  for_range 0 n (fun k d => seti d (doff + k) (geti src (soff + k))) dst.

Definition memset_izero (buf : list Z) (n : Z) : list Z :=
  for_range 0 n (fun k d => seti d k 0) buf.

Definition wf_imatrix (x : scrappie_imat) : Prop :=
  0 < nr x /\ 0 < nc x /\ nrq x = ceil_quarter (nr x) /\
  len (data x) = 4 * nrq x * nc x /\ 4 * nrq x * nc x <= INT_MAX.

Section Lifecycle.

Variable NDEBUG : bool.
Variable size_bits : Z.
Variable malloc_ok : bool.
Variable aligned_alloc_ok : Z -> bool.

(** No overflow guard stands before this allocation. *)
Definition make_scrappie_imatrix (nr_ nc_ : Z) : outcome scrappie_imatrix :=
  assert NDEBUG (0 <? nr_) ;;;
  assert NDEBUG (0 <? nc_) ;;;
  let nrq_ := ceil_quarter nr_ in
  if negb malloc_ok then Ret None else
  let bytes := to_size size_bits (to_size size_bits (int_mul nrq_ nc_) * 16) in
  if negb (aligned_alloc_ok bytes) then Ret None else
  Ret (Some (mkIMat nr_ nrq_ nc_ (izeros (bytes / 4)))).

Definition free_scrappie_imatrix (mat : scrappie_imatrix)
  : scrappie_imatrix * list scrappie_imat :=
  match mat with
  | Some m => (None, [m])
  | None => (None, [])
  end.

Definition remake_scrappie_imatrix (M : scrappie_imatrix) (nr_ nc_ : Z)
  : outcome (scrappie_imatrix * list scrappie_imat) :=
  if match M with
     | None => true
     | Some m => negb (nr m =? nr_) || negb (nc m =? nc_)
     end
  then
    let '(_, released) := free_scrappie_imatrix M in
    M' <- make_scrappie_imatrix nr_ nc_ ;;
    Ret (M', released)
  else Ret (M, []).

Definition copy_scrappie_imatrix (M : scrappie_imatrix) : outcome scrappie_imatrix :=
  match M with
  | None => Ret None
  | Some M =>
      C <- make_scrappie_imatrix (nr M) (nc M) ;;
      match C with
      | None => Ret None
      | Some C =>
          Ret (Some (mkIMat (nr C) (nrq C) (nc C)
                 (memcpy_i (data C) 0 (data M) 0 (lane_bytes size_bits (nrq C) (nc C) / 4))))
      end
  end.

Definition zero_scrappie_imatrix (M : scrappie_imatrix) : scrappie_imatrix :=
  match M with
  | None => None
  | Some M =>
      let bytes := to_size size_bits
                     (to_size size_bits (int_mul (int_mul (nrq M) 4) (nc M)) * 4) in
      Some (mkIMat (nr M) (nrq M) (nc M) (memset_izero (data M) (bytes / 4)))
  end.

End Lifecycle.

End IMatrix.

(** An integer matrix with stale padding, for the witnesses. *)
Definition iexample_2x2 : IMatrix.scrappie_imat :=
  IMatrix.mkIMat 2 1 2 [1; 2; 9; 9; 3; 4; 9; 9].


(** An allocator that always fails. *)
Definition never_ok : Z -> bool := fun _ => false.

(** An instance for [dna_squiggle] that is defined only on [n] codes
    between 0 and 3. *)
Definition checked_squiggle (sequence : list Z) (n : Z) (rescale : bool)
  : outcome scrappie_matrix :=
  if (len sequence =? n) && forallb (fun z => (0 <=? z) && (z <=? 3)) sequence
  then shape_only_squiggle sequence n rescale
  else Undef.


(** ** The squiggle driver ([main_squiggle]) *)

(** A record as [kseq_read] leaves it: [name.s], and [seq.s] with
    [seq.l] its length.  A read of [seq.s] beyond [seq.l] is left without a
    defined value here. *)
Record kseq_t : Type := mkSeq {
  name_s : string;
  seq_s : list ascii
}.

(** What is written to [args.output]: the [#name] line of a read and one
    line per column of its squiggle.  The formatting of the numbers is left
    out. *)
Inductive squiggle_line : Type :=
| NameLine (name : string)
| SampleLine (i : Z) (base : ascii) (f0 f1 f2 : f32).

(** [struct arguments].  The stream [output] is not told apart from
    [stdout]: what is written is kept as one list of lines.  [files] is the
    null pointer until an argument is seen; each of its entries stands for
    what the named file delivers: [None] when [fopen] fails, otherwise the
    records read before [kseq_read] returns a negative value. *)
Record arguments : Type := mkArgs {
  limit : Z;
  prefix : string;
  rescale : bool;
  files : option (list (option (list kseq_t)))
}.

(** One call of [parse_arg] by [argp_parse]: the key, with what the call
    finds in its argument. *)
Inductive argp_call : Type :=
| key_limit (value : Z)             (* ['l'], [value] is [atoi(arg)] *)
| key_output (opened : bool)        (* ['o'], whether [fopen(arg, "w")] succeeds *)
| key_prefix (arg : string)         (* ['p'] *)
| key_rescale                       (* [1] *)
| key_no_rescale                    (* [2] *)
| key_licence (written : bool)      (* [10] and [11], whether [fputs] succeeds *)
| ARGP_KEY_NO_ARGS
| ARGP_KEY_ARG (rest : list (option (list kseq_t)))
                                    (* [argv] from this argument on *)
| key_other.                        (* every other key: [ARGP_ERR_UNKNOWN] *)

(** How the program ends: its exit status, whether the licence text went
    to [stdout], and the squiggle lines written. *)
Inductive run_end : Type :=
| RunEnd (status : Z) (licence : bool) (lines : list squiggle_line).

Definition EXIT_SUCCESS : Z := 0.
Definition EXIT_FAILURE : Z := 1.

(** The status with which [argp_usage] leaves the program ([EX_USAGE]). *)
Definition argp_err_exit_status : Z := 64.

Section Driver.

Variable NDEBUG : bool.
Variable size_bits : Z.
Variable calloc_int_ok : Z -> bool.
Variable dna_squiggle : list Z -> Z -> bool -> outcome scrappie_matrix.

(** The loop over the columns of one squiggle, [k] iterations from
    column [i]. *)
Fixpoint print_columns (k : nat) (i : Z) (seq : kseq_t) (squiggle : scrappie_mat)
  : outcome (list squiggle_line) :=
  match k with
  | O => Ret []
  | Datatypes.S k' =>
      let offset := size_mul size_bits (size_mul size_bits i (nrq squiggle)) 4 in
      match nth_error (seq_s seq) (Z.to_nat i) with
      | None => Undef
      | Some base =>
          rest <- print_columns k' (i + 1) seq squiggle ;;
          Ret (SampleLine i base
                 (getf (data squiggle) (size_add size_bits offset 0))
                 (getf (data squiggle) (size_add size_bits offset 1))
                 (getf (data squiggle) (size_add size_bits offset 2)) :: rest)
      end
  end.

(** The body of the [while] loop after the limit test, for one record. *)
Definition squiggle_read (rescale_ : bool) (seq : kseq_t) : outcome (list squiggle_line) :=
  squiggle <- sequence_to_squiggle calloc_int_ok dna_squiggle
                (Some (seq_s seq)) (len (seq_s seq)) rescale_ ;;
  match squiggle with
  | Some m =>
      rows <- print_columns (Z.to_nat (to_size size_bits (nc m))) 0 seq m ;;
      Ret (NameLine (name_s seq) :: rows)
  | None => Ret []
  end.

(** [reads_limit > 0 && reads_started >= reads_limit]. *)
Definition limit_reached (reads_limit reads_started : Z) : bool :=
  (0 <? reads_limit) && (reads_limit <=? reads_started).

(** [while (kseq_read(seq) >= 0)]: the state is [reads_started] and the
    output so far. *)
Fixpoint read_loop (reads_limit : Z) (rescale_ : bool) (records : list kseq_t)
    (reads_started : Z) (out : list squiggle_line)
  : outcome (Z * list squiggle_line) :=
  match records with
  | [] => Ret (reads_started, out)
  | seq :: records' =>
      if limit_reached reads_limit reads_started then Ret (reads_started, out)
      else
        lines <- squiggle_read rescale_ seq ;;
        read_loop reads_limit rescale_ records' (wrap32 (reads_started + 1)) (out ++ lines)
  end.

(** [for (int fn = 0; fn < nfile; fn++)]. *)
Fixpoint file_loop (reads_limit : Z) (rescale_ : bool)
    (files_ : list (option (list kseq_t))) (reads_started : Z) (out : list squiggle_line)
  : outcome (Z * list squiggle_line) :=
  match files_ with
  | [] => Ret (reads_started, out)
  | fh :: files' =>
      if limit_reached reads_limit reads_started then Ret (reads_started, out)
      else
        match fh with
        | None => file_loop reads_limit rescale_ files' reads_started out
        | Some records =>
            st <- read_loop reads_limit rescale_ records reads_started out ;;
            file_loop reads_limit rescale_ files' (fst st) (snd st)
        end
  end.

(** [parse_arg] on the static [args]: the updated structure, or the
    exit it makes. *)
Definition parse_arg (call : argp_call) (args : arguments)
  : outcome (arguments + Z * bool) :=
  match call with
  | key_limit value =>
      assert NDEBUG (0 <? value) ;;;
      Ret (inl (mkArgs value (prefix args) (rescale args) (files args)))
  | key_output opened =>
      if opened then Ret (inl args) else Ret (inr (EXIT_FAILURE, false))
  | key_prefix arg =>
      Ret (inl (mkArgs (limit args) arg (rescale args) (files args)))
  | key_rescale =>
      Ret (inl (mkArgs (limit args) (prefix args) true (files args)))
  | key_no_rescale =>
      Ret (inl (mkArgs (limit args) (prefix args) false (files args)))
  | key_licence written =>
      Ret (inr (if written then EXIT_SUCCESS else EXIT_FAILURE, written))
  | ARGP_KEY_NO_ARGS =>
      Ret (inr (argp_err_exit_status, false))
  | ARGP_KEY_ARG rest =>
      Ret (inl (mkArgs (limit args) (prefix args) (rescale args) (Some rest)))
  | key_other => Ret (inl args)
  end.

(** [argp_parse], seen through the calls of [parse_arg] it makes, in
    order, until one of them leaves the program or it returns.  A run that
    the library ends on its own account (an option it does not know, its
    help output) makes no part of this. *)
Fixpoint argp_parse (calls : list argp_call) (args : arguments)
  : outcome (arguments + Z * bool) :=
  match calls with
  | [] => Ret (inl args)
  | call :: calls' =>
      r <- parse_arg call args ;;
      match r with
      | inl args' => argp_parse calls' args'
      | inr stop => Ret (inr stop)
      end
  end.

(** The initial value of the static [args]. *)
Definition initial_args : arguments := mkArgs 0 EmptyString true None.

Definition main_squiggle (calls : list argp_call) : outcome run_end :=
  r <- argp_parse calls initial_args ;;
  match r with
  | inr (status, licence) => Ret (RunEnd status licence [])
  | inl args =>
      match files args with
      | None => Undef
      | Some files_ =>
          st <- file_loop (limit args) (rescale args) files_ 0 [] ;;
          Ret (RunEnd EXIT_SUCCESS false (snd st))
      end
  end.

(** The output of a list of reads, one after the other. *)
Fixpoint squiggle_reads (rescale_ : bool) (reads : list kseq_t)
  : outcome (list squiggle_line) :=
  match reads with
  | [] => Ret []
  | seq :: rest =>
      lines <- squiggle_read rescale_ seq ;;
      more <- squiggle_reads rescale_ rest ;;
      Ret (lines ++ more)
  end.

End Driver.

(** The records of the files that can be opened, in command-line order. *)
Definition opened_reads (files_ : list (option (list kseq_t))) : list kseq_t :=
  flat_map (fun fh => match fh with Some records => records | None => [] end) files_.

(** The reads a run gets to: all of them, or the first [reads_limit]. *)
Definition reads_processed (reads_limit : Z) (files_ : list (option (list kseq_t)))
  : list kseq_t :=
  if 0 <? reads_limit
  then firstn (Z.to_nat reads_limit) (opened_reads files_)
  else opened_reads files_.

(** A limit of two reads, then two files around one that cannot be
    opened; the second read has an unrecognised base. *)
Definition example_calls : list argp_call :=
  [key_limit 2;
   ARGP_KEY_ARG [Some [mkSeq "r1" seq_ACGT; mkSeq "r2" seq_ACGX];
                 None;
                 Some [mkSeq "r3" seq_ACGT]];
   key_other].

(** ** Rounding in single precision *)

(** The value of a float counted in units of 2^-149, the spacing of the
    smallest binary32 numbers: every finite binary32 number is a whole
    number of units (and the other floats count as 0 here). *)
Definition f32_units (x : f32) : Z :=
  match x with
  | S754_finite s m e =>
      if s then - (Zpos m * 2 ^ (e + 149)) else Zpos m * 2 ^ (e + 149)
  | _ => 0
  end.

(** A canonical binary32 number that is +0 or positive and finite. *)
Definition nonneg_float (x : f32) : bool :=
  match x with
  | S754_zero false => true
  | S754_finite false m e => bounded prec32 emax32 m e
  | _ => false
  end.

(** While the rounding procedure shifts a mantissa to the right, the
    shift record stands for the value [N / D] counted in units of the current
    exponent: its mantissa is the integer part, the round bit tells whether
    the rest reaches one half, the sticky bit whether the rest is neither
    zero nor one half. *)
Definition shr_inv (mrs : shr_record) (N D : Z) : Prop :=
  0 <= shr_m mrs /\
  shr_m mrs * D <= N < (shr_m mrs + 1) * D /\
  (shr_r mrs = true <-> D <= 2 * (N - shr_m mrs * D)) /\
  (shr_s mrs = true <-> (N - shr_m mrs * D <> 0 /\ 2 * (N - shr_m mrs * D) <> D)).

(** The location [lx] places [N / D] with respect to the integer [mx]. *)
Definition inloc (mx : Z) (lx : location) (N D : Z) : Prop :=
  match lx with
  | loc_Exact => N = mx * D
  | loc_Inexact c => mx * D < N < (mx + 1) * D /\ (2 * (N - mx * D) ?= D) = c
  end.

(** [T] is [S] up to [k] roundings to 24 bits:
    [T (1 - 2^-24)^k <= S <= T (1 + 2^-24)^k]. *)
Definition near (k T S : Z) : Prop :=
  T * 16777215 ^ k <= S * 16777216 ^ k /\ S * 16777216 ^ k <= T * 16777217 ^ k.

(** [f 0 + ... + f (n - 1)]. *)
Fixpoint sumZ (f : Z -> Z) (n : nat) : Z :=
  match n with
  | O => 0
  | Datatypes.S n' => sumZ f n' + f (Z.of_nat n')
  end.

(** ** The column total over the logical rows alone *)

(** Lane [l] of the last lane group is a padding row. *)
Definition padding_lane (m : scrappie_mat) (l : Z) : bool :=
  nr m <=? 4 * (nrq m - 1) + l.

(** The running total of lane [l] of column [c] over its logical rows:
    all lane groups, or all but the last when the lane ends in a padding
    row (+0 when that leaves no row at all). *)
Definition logical_lane_total (m : scrappie_mat) (c l : Z) : f32 :=
  if padding_lane m l
  then if nrq m =? 1 then fzero
       else lane_sum (data m) (nrq m - 1) (4 * nrq m * c) l
  else lane_sum (data m) (nrq m) (4 * nrq m * c) l.

Definition logical_total (m : scrappie_mat) (c : Z) : f32 :=
  let t := logical_lane_total m c in
  f32_add (f32_add (t 0) (t 1)) (f32_add (t 2) (t 3)).

(** In column [c] the padding is masked without loss: in every lane
    that ends in a padding row, taking the padding element off the lane sum
    that ran through it gives the total of the logical rows of the lane. *)
Definition masked_exactly (m : scrappie_mat) (c : Z) : Prop :=
  forall l, 0 <= l < 4 -> padding_lane m l = true ->
    f32_sub (lane_sum (data m) (nrq m) (4 * nrq m * c) l)
            (getf (data m) (4 * nrq m * c + (4 * (nrq m - 1) + l)))
    = logical_lane_total m c l.

(** Seven ones again, the padding lane now holding a stale 1.0. *)
Definition sevens_padded : scrappie_mat :=
  mkMat 7 2 1 [fone; fone; fone; fone; fone; fone; fone; fone].


(** The smallest positive single precision number, 2^-149, and 2^-24,
    half the spacing of the floats from 1 to 2. *)
Definition FLT_TRUE_MIN : f32 := S754_finite false 1 (-149).
Definition half_ulp_of_one : f32 := S754_finite false 8388608 (-47).

(** One row holding the smallest positive float, padding at zero. *)
Definition column_tiny : scrappie_mat :=
  mkMat 1 1 1 [FLT_TRUE_MIN; fzero; fzero; fzero].

(** One column of 676 rows, that is 169 full lane groups and no padding:
    a one, then 2^-24 in every other row.  In lane 0 each addition of 2^-24
    to the running 1.0 is a tie and rounds back to 1.0. *)
Definition column_long : scrappie_mat :=
  mkMat 676 169 1 (fone :: repeat half_ulp_of_one 675).


(* ================================================================== *)
(** * Part II: properties *)
(* ================================================================== *)

(** ** Integer facts *)

Lemma wrap32_id (z : Z) : -2147483648 <= z <= INT_MAX -> wrap32 z = z.
Proof.
  unfold wrap32, INT_MAX. intros H.
  rewrite Z.mod_small by lia. lia.
Qed.

Lemma to_size_id (bits z : Z) : 32 <= bits -> 0 <= z <= INT_MAX -> to_size bits z = z.
Proof.
  unfold to_size, INT_MAX. intros Hb Hz.
  assert (2 ^ 32 <= 2 ^ bits) by (apply Z.pow_le_mono_r; lia).
  apply Z.mod_small. change (2 ^ 32) with 4294967296 in H. lia.
Qed.

Lemma ceil_quarter_bounds (n : Z) : n <= 4 * ceil_quarter n < n + 4.
Proof.
  unfold ceil_quarter.
  pose proof (Z.div_mod (- n) 4 ltac:(lia)).
  pose proof (Z.mod_pos_bound (- n) 4 ltac:(lia)). lia.
Qed.

Lemma ceil_quarter_pos (n : Z) : 0 < n -> 0 < ceil_quarter n.
Proof. pose proof (ceil_quarter_bounds n). lia. Qed.

(** ** Order facts on single precision numbers *)

Ltac split_compare :=
  repeat match goal with
  | H : context [Pos.compare_cont Eq ?a ?b] |- _ =>
      change (Pos.compare_cont Eq a b) with (Pos.compare a b) in H
  | |- context [Pos.compare_cont Eq ?a ?b] =>
      change (Pos.compare_cont Eq a b) with (Pos.compare a b)
  end;
  repeat match goal with
  | H : context [Z.compare ?a ?b] |- _ => destruct (Z.compare_spec a b); simpl in H
  | |- context [Z.compare ?a ?b] => destruct (Z.compare_spec a b); simpl
  | H : context [Pos.compare ?a ?b] |- _ => destruct (Pos.compare_spec a b); simpl in H
  | |- context [Pos.compare ?a ?b] => destruct (Pos.compare_spec a b); simpl
  end.

Ltac float_order :=
  unfold f32_lt, f32_gt, f32_le, isnan, SFltb, SFleb, SFeqb, SFcompare in *;
  repeat match goal with
  | x : f32 |- _ => destruct x
  | x : spec_float |- _ => destruct x
  | s : bool |- _ => destruct s
  end;
  simpl in *; try congruence; try tauto;
  split_compare; subst; try congruence; try tauto; try lia.

Lemma f32_lt_irrefl (a : f32) : f32_lt a a = false.
Proof. float_order. Qed.

Lemma f32_lt_trans (a b c : f32) :
  f32_lt a b = true -> f32_lt b c = true -> f32_lt a c = true.
Proof. intros H1 H2. float_order. Qed.

Lemma f32_lt_asym (a b : f32) : f32_lt a b = true -> f32_lt b a = false.
Proof. intros H1. float_order. Qed.

Lemma f32_lt_not_lt (a b c : f32) :
  f32_lt a c = true -> f32_lt a b = false -> f32_lt c b = false.
Proof. intros H1 H2. float_order. Qed.

Lemma f32_not_lt_lt (a b c : f32) :
  f32_lt a c = true -> f32_lt a b = false -> isnan b = false -> f32_lt b c = true.
Proof. intros H1 H2 H3. float_order. Qed.

Lemma f32_not_lt_le (a b : f32) :
  f32_lt a b = false -> isnan a = false -> isnan b = false -> f32_le b a = true.
Proof. intros H1 H2 H3. float_order. Qed.

(** ** Loops as folds over the visited indices *)

Lemma for_count_fold {S : Type} (body : Z -> S -> S) (n : nat) :
  forall lo s, for_count n lo body s = fold_left (fun s i => body i s) (zseq lo n) s.
Proof.
  induction n as [|n IH]; intros lo s; simpl; [reflexivity | apply IH].
Qed.

Lemma in_zseq (n : nat) : forall lo i, In i (zseq lo n) <-> lo <= i < lo + Z.of_nat n.
Proof.
  induction n as [|n IH]; intros lo i; simpl.
  - lia.
  - rewrite IH. lia.
Qed.

Lemma fold_left_ext_in {S A : Type} (f g : S -> A -> S) (l : list A) :
  (forall s a, In a l -> f s a = g s a) ->
  forall s, fold_left f l s = fold_left g l s.
Proof.
  induction l as [|a l IH]; intros H s; simpl; [reflexivity|].
  rewrite H by (left; reflexivity).
  apply IH. intros s' a' Hin. apply H. right; exact Hin.
Qed.

Lemma fold_left_flat_map {S A B : Type} (f : S -> B -> S) (g : A -> list B) (l : list A) :
  forall s, fold_left f (flat_map g l) s = fold_left (fun s a => fold_left f (g a) s) l s.
Proof.
  induction l as [|a l IH]; intros s; simpl; [reflexivity|].
  rewrite fold_left_app. apply IH.
Qed.

Lemma fold_left_map {S A B : Type} (f : S -> B -> S) (g : A -> B) (l : list A) :
  forall s, fold_left f (map g l) s = fold_left (fun s a => f s (g a)) l s.
Proof.
  induction l as [|a l IH]; intros s; simpl; [reflexivity | apply IH].
Qed.

(** A doubly nested scan of the logical elements is one fold over
    [logical_offsets], provided the loop computes the offsets exactly. *)
Lemma nested_scan_fold {S : Type} (x : scrappie_mat) (off : Z -> Z -> Z)
    (step : S -> Z -> S) (s : S) :
  (forall c r, 0 <= c < nc x -> 0 <= r < nr x -> off c r = 4 * nrq x * c + r) ->
  for_range 0 (nc x) (fun col s =>
    for_range 0 (nr x) (fun r s => step s (off col r)) s) s
  = fold_left step (logical_offsets x) s.
Proof.
  intros Hoff. unfold for_range, logical_offsets.
  rewrite for_count_fold, fold_left_flat_map, !Z.sub_0_r.
  apply fold_left_ext_in. intros s' c Hc.
  rewrite for_count_fold, fold_left_map.
  apply fold_left_ext_in. intros s'' r Hr.
  apply in_zseq in Hc. apply in_zseq in Hr.
  rewrite Hoff by lia. reflexivity.
Qed.

Lemma in_logical_offsets (x : scrappie_mat) (j : Z) :
  In j (logical_offsets x) <->
  exists c r, 0 <= c < nc x /\ 0 <= r < nr x /\ j = 4 * nrq x * c + r.
Proof.
  unfold logical_offsets. rewrite in_flat_map. split.
  - intros (c & Hc & Hj). apply in_map_iff in Hj as (r & <- & Hr).
    apply in_zseq in Hc. apply in_zseq in Hr.
    exists c, r. lia.
  - intros (c & r & Hc & Hr & ->). exists c. split.
    + apply in_zseq. lia.
    + apply in_map_iff. exists r. split; [reflexivity | apply in_zseq; lia].
Qed.

Lemma logical_offset_range (x : scrappie_mat) (j : Z) :
  wf_matrix x -> In j (logical_offsets x) -> 0 <= j < len (data x) /\ j <= INT_MAX.
Proof.
  intros (Hr & Hc & Hq & Hl & Hb) Hj.
  apply in_logical_offsets in Hj as (c & r & Hc' & Hr' & ->).
  pose proof (ceil_quarter_bounds (nr x)). rewrite <- Hq in H.
  assert (0 <= nrq x * c) by nia.
  assert (nrq x * c <= nrq x * (nc x - 1)) by nia.
  lia.
Qed.

Lemma logical_offsets_head (x : scrappie_mat) :
  wf_matrix x -> exists tl, logical_offsets x = 0 :: tl.
Proof.
  intros (Hr & Hc & _). unfold logical_offsets.
  destruct (Z.to_nat (nc x)) as [|n] eqn:En; [lia|].
  destruct (Z.to_nat (nr x)) as [|m] eqn:Em; [lia|].
  simpl. rewrite Z.mul_0_r. simpl. eexists. reflexivity.
Qed.

Section Scans.

Variable size_bits : Z.
Hypothesis size_bits_ge : 32 <= size_bits.

(** The index expression of the reductions is exact on a well-formed
    matrix. *)
Lemma scan_index_exact (x : scrappie_mat) (c r : Z) :
  wf_matrix x -> 0 <= c < nc x -> 0 <= r < nr x ->
  size_add size_bits (size_col_offset size_bits c (nrq x)) r = 4 * nrq x * c + r.
Proof.
  intros Hwf Hc Hr.
  assert (Hin : In (4 * nrq x * c + r) (logical_offsets x))
    by (apply in_logical_offsets; exists c, r; lia).
  pose proof (logical_offset_range x _ Hwf Hin) as [Hlo Hhi].
  destruct Hwf as (Hr0 & Hc0 & Hq & Hl & Hb).
  pose proof (ceil_quarter_bounds (nr x)) as Hcq. rewrite <- Hq in Hcq.
  assert (0 <= nrq x * c) by nia.
  unfold size_add, size_col_offset, col_offset, int_mul.
  rewrite (wrap32_id (c * nrq x)) by (unfold INT_MAX in *; nia).
  rewrite wrap32_id by (unfold INT_MAX in *; nia).
  rewrite (to_size_id size_bits (c * nrq x * 4)) by (unfold INT_MAX in *; nia).
  rewrite to_size_id by (unfold INT_MAX in *; nia).
  lia.
Qed.

Lemma max_as_fold (x : scrappie_mat) :
  wf_matrix x ->
  max_scrappie_matrix size_bits (Some x)
  = fold_left (fun a j => if f32_lt a (getf (data x) j) then getf (data x) j else a)
              (logical_offsets x) (getf (data x) 0).
Proof.
  intros Hwf. unfold max_scrappie_matrix.
  apply (nested_scan_fold x
    (fun c r => size_add size_bits (size_col_offset size_bits c (nrq x)) r)
    (fun a j => if f32_lt a (getf (data x) j) then getf (data x) j else a)).
  intros c r Hc Hr. now apply scan_index_exact.
Qed.

Lemma argmax_as_fold (x : scrappie_mat) :
  wf_matrix x ->
  argmax_scrappie_matrix size_bits (Some x)
  = snd (fold_left (arg_step (data x)) (logical_offsets x) (getf (data x) 0, 0)).
Proof.
  intros Hwf. unfold argmax_scrappie_matrix. f_equal.
  apply (nested_scan_fold x
    (fun c r => size_add size_bits (size_col_offset size_bits c (nrq x)) r)
    (arg_step (data x))).
  intros c r Hc Hr. now apply scan_index_exact.
Qed.

End Scans.

(** ** The arg-maximum scan *)

(** Scanning [l] from a running maximum [a]: either nothing in [l] beats
    [a], or the scan settles on the first position [j] of [l] that no
    later element beats, every earlier element being NaN or smaller. *)
Lemma scan_first (d : list f32) (l : list Z) :
  forall a i,
    (fold_left (arg_step d) l (a, i) = (a, i) /\
     forall k, In k l -> f32_lt a (getf d k) = false)
    \/
    (exists pre j post,
       l = pre ++ j :: post /\
       fold_left (arg_step d) l (a, i) = (getf d j, wrap32 j) /\
       f32_lt a (getf d j) = true /\
       (forall k, In k pre -> isnan (getf d k) = true \/ f32_lt (getf d k) (getf d j) = true) /\
       (forall k, In k l -> f32_lt (getf d j) (getf d k) = false)).
Proof.
  induction l as [|j l IH]; intros a i.
  - left. split; [reflexivity | intros k []].
  - simpl. destruct (f32_lt a (getf d j)) eqn:Hlt.
    + right. destruct (IH (getf d j) (wrap32 j)) as [[Hfold Hall] | (pre & j' & post & Hl & Hfold & Hlt' & Hpre & Hall)].
      * exists [], j, l. split; [reflexivity|]. split; [exact Hfold|].
        split; [exact Hlt|]. split; [intros k []|].
        intros k [<- | Hk]; [apply f32_lt_irrefl | now apply Hall].
      * exists (j :: pre), j', post.
        split; [simpl; now rewrite Hl|]. split; [exact Hfold|].
        split; [now apply f32_lt_trans with (getf d j)|]. split.
        -- intros k [<- | Hk]; [right; exact Hlt' | now apply Hpre].
        -- intros k [<- | Hk]; [now apply f32_lt_asym | now apply Hall].
    + destruct (IH a i) as [[Hfold Hall] | (pre & j' & post & Hl & Hfold & Hlt' & Hpre & Hall)].
      * left. split; [exact Hfold|].
        intros k [<- | Hk]; [exact Hlt | now apply Hall].
      * right. exists (j :: pre), j', post.
        split; [simpl; now rewrite Hl|]. split; [exact Hfold|].
        split; [exact Hlt'|]. split.
        -- intros k [<- | Hk]; [| now apply Hpre].
           destruct (isnan (getf d j)) eqn:Hnan; [now left | right].
           now apply f32_not_lt_lt with a.
        -- intros k [<- | Hk]; [| now apply Hall].
           now apply f32_lt_not_lt with a.
Qed.

Lemma scan_value (d : list f32) (l : list Z) :
  forall a i,
    fst (fold_left (arg_step d) l (a, i))
    = fold_left (fun a j => if f32_lt a (getf d j) then getf d j else a) l a.
Proof.
  induction l as [|j l IH]; intros a i; simpl; [reflexivity|].
  destruct (f32_lt a (getf d j)); apply IH.
Qed.

(** What the scan returns on a well-formed matrix. *)
Lemma argmax_scan (size_bits : Z) (x : scrappie_mat) :
  32 <= size_bits -> wf_matrix x ->
  let i := argmax_scrappie_matrix size_bits (Some x) in
  max_scrappie_matrix size_bits (Some x) = getf (data x) i /\
  (exists pre post,
     logical_offsets x = pre ++ i :: post /\
     forall k, In k pre ->
       isnan (getf (data x) k) = true \/ f32_lt (getf (data x) k) (getf (data x) i) = true) /\
  (forall j, In j (logical_offsets x) -> f32_lt (getf (data x) i) (getf (data x) j) = false).
Proof.
  intros Hbits Hwf i. subst i.
  rewrite (max_as_fold size_bits Hbits x Hwf), (argmax_as_fold size_bits Hbits x Hwf).
  rewrite <- (scan_value (data x) (logical_offsets x) (getf (data x) 0) 0).
  destruct (logical_offsets_head x Hwf) as [tl Htl].
  destruct (scan_first (data x) (logical_offsets x) (getf (data x) 0) 0)
    as [[Hfold Hall] | (pre & j & post & Hl & Hfold & Hlt & Hpre & Hall)].
  - rewrite Hfold. simpl. repeat split; auto.
    exists [], tl. split; [exact Htl | intros k []].
  - rewrite Hfold. simpl.
    assert (Hj : In j (logical_offsets x)) by (rewrite Hl; apply in_elt).
    pose proof (logical_offset_range x j Hwf Hj) as [Hlo Hhi].
    rewrite wrap32_id by lia.
    repeat split; auto. exists pre, post. split; assumption.
Qed.

Lemma wf_example_2x2 : wf_matrix example_2x2.
Proof. unfold wf_matrix, INT_MAX. simpl. vm_compute. intuition congruence. Defined.

(** C1 (code defect).  [min_scrappie_matrix] and [argmin_scrappie_matrix]
    are the maximum scans under another name: they agree with
    [max_scrappie_matrix] and [argmax_scrappie_matrix] on every input.  On
    the 2 x 2 matrix with rows (1, 5) and (3, 2) the least logical element
    is 1 at flat offset 0, yet [min_scrappie_matrix] returns 5 and
    [argmin_scrappie_matrix] returns 4, the offset of 5.  The null input
    does give NaN and -1. *)
Theorem min_scrappie_matrix_is_max :
  (forall size_bits x,
     min_scrappie_matrix size_bits x = max_scrappie_matrix size_bits x /\
     argmin_scrappie_matrix size_bits x = argmax_scrappie_matrix size_bits x) /\
  (forall j, In j (logical_offsets example_2x2) ->
     f32_le (getf (data example_2x2) 0) (getf (data example_2x2) j) = true) /\
  getf (data example_2x2) 0 = f32_of_Z 1 /\
  min_scrappie_matrix 64 (Some example_2x2) = f32_of_Z 5 /\
  argmin_scrappie_matrix 64 (Some example_2x2) = 4 /\
  f32_lt (getf (data example_2x2) 0) (min_scrappie_matrix 64 (Some example_2x2)) = true /\
  min_scrappie_matrix 64 None = NAN /\
  argmin_scrappie_matrix 64 None = -1.
Proof.
  split; [intros; split; reflexivity|].
  split.
  - intros j Hj. vm_compute in Hj.
    repeat (destruct Hj as [<- | Hj]; [vm_compute; reflexivity|]). destruct Hj.
  - repeat split; vm_compute; reflexivity.
Qed.

(** C2.  On a null input [argmax_scrappie_matrix] returns -1 and
    [max_scrappie_matrix] returns NaN.  On the 2 x 2 matrix with rows
    (1, 5) and (3, 2) they return the flat offset 4 of the value 5, and 5.
    On every well-formed matrix [argmax_scrappie_matrix] returns the flat
    offset [i] of a logical element, [max_scrappie_matrix] returns the value
    stored there, no logical element is greater than it, and [i] is the
    first such position of the column-major, row-ascending scan: every
    logical element visited earlier is strictly smaller (or is a NaN).
    When no logical element is a NaN, every logical element is less than
    or equal to the returned value. *)
Theorem argmax_scrappie_matrix_spec (size_bits : Z) :
  32 <= size_bits ->
  argmax_scrappie_matrix size_bits None = -1 /\
  max_scrappie_matrix size_bits None = NAN /\
  (argmax_scrappie_matrix size_bits (Some example_2x2) = 4 /\
   getf (data example_2x2) 4 = f32_of_Z 5 /\
   max_scrappie_matrix size_bits (Some example_2x2) = f32_of_Z 5) /\
  forall x, wf_matrix x ->
    let i := argmax_scrappie_matrix size_bits (Some x) in
    In i (logical_offsets x) /\
    max_scrappie_matrix size_bits (Some x) = getf (data x) i /\
    (exists pre post,
       logical_offsets x = pre ++ i :: post /\
       forall k, In k pre ->
         isnan (getf (data x) k) = true \/
         f32_lt (getf (data x) k) (getf (data x) i) = true) /\
    (forall j, In j (logical_offsets x) ->
       f32_gt (getf (data x) j) (getf (data x) i) = false) /\
    ((forall j, In j (logical_offsets x) -> isnan (getf (data x) j) = false) ->
     forall j, In j (logical_offsets x) ->
       f32_le (getf (data x) j) (getf (data x) i) = true).
Proof.
  intros Hbits. split; [reflexivity|]. split; [reflexivity|]. split.
  - rewrite (max_as_fold size_bits Hbits _ wf_example_2x2),
            (argmax_as_fold size_bits Hbits _ wf_example_2x2).
    repeat split; vm_compute; reflexivity.
  - intros x Hwf i.
    destruct (argmax_scan size_bits x Hbits Hwf) as (Hmax & (pre & post & Hl & Hpre) & Hall).
    fold i in Hmax, Hl, Hpre, Hall.
    assert (Hi : In i (logical_offsets x)) by (rewrite Hl; apply in_elt).
    split; [exact Hi|]. split; [exact Hmax|]. split; [now exists pre, post|].
    split; [exact Hall|].
    intros Hnan j Hj. apply f32_not_lt_le; auto.
Qed.

Lemma argmax_scrappie_matrix_spec_witness :
  32 <= 64 /\ wf_matrix example_2x2 /\
  In (argmax_scrappie_matrix 64 (Some example_2x2)) (logical_offsets example_2x2) /\
  max_scrappie_matrix 64 (Some example_2x2)
  = getf (data example_2x2) (argmax_scrappie_matrix 64 (Some example_2x2)).
Proof.
  assert (H : 32 <= 64) by lia.
  split; [exact H|]. split; [exact wf_example_2x2|].
  destruct (argmax_scrappie_matrix_spec 64 H) as (_ & _ & _ & Hx).
  destruct (Hx example_2x2 wf_example_2x2) as (Hi & Hmax & _).
  split; [exact Hi | exact Hmax].
Defined.

(** ** Buffer facts *)

Lemma length_set_nth {A : Type} (v : A) (l : list A) :
  forall n, List.length (set_nth n v l) = List.length l.
Proof.
  induction l as [|h t IH]; intros [|n]; simpl; auto.
Qed.

Lemma nth_set_nth {A : Type} (v dflt : A) (l : list A) :
  forall n m, (n < List.length l)%nat ->
    nth m (set_nth n v l) dflt = if Nat.eqb m n then v else nth m l dflt.
Proof.
  induction l as [|h t IH]; intros [|n] [|m] Hn; simpl in *; try lia; auto.
  apply IH. lia.
Qed.

Lemma len_setf (d : list f32) (i : Z) (v : f32) : len (setf d i v) = len d.
Proof.
  unfold setf, len. destruct (0 <=? i); [now rewrite length_set_nth | reflexivity].
Qed.

Lemma getf_setf (d : list f32) (i q : Z) (v : f32) :
  0 <= i < len d ->
  getf (setf d i v) q = if q =? i then v else getf d q.
Proof.
  unfold getf, setf, len. intros Hi.
  destruct (0 <=? i) eqn:Hi0; [|lia].
  destruct (0 <=? q) eqn:Hq0.
  - rewrite nth_set_nth by lia.
    destruct (Z.eqb_spec q i) as [-> | Hne].
    + now rewrite Nat.eqb_refl.
    + destruct (Nat.eqb_spec (Z.to_nat q) (Z.to_nat i)); [lia | reflexivity].
  - destruct (Z.eqb_spec q i); [lia | reflexivity].
Qed.

Lemma len_zeros (n : Z) : 0 <= n -> len (zeros n) = n.
Proof. unfold len, zeros. rewrite repeat_length. lia. Qed.

Lemma getf_zeros (n q : Z) : getf (zeros n) q = fzero.
Proof. unfold getf, zeros. destruct (0 <=? q); [apply nth_repeat | reflexivity]. Qed.

Lemma getf_ext (a b : list f32) :
  len a = len b -> (forall q, 0 <= q < len a -> getf a q = getf b q) -> a = b.
Proof.
  unfold len, getf. intros Hlen H.
  apply (nth_ext a b fzero fzero); [lia|].
  intros n Hn. specialize (H (Z.of_nat n) ltac:(lia)).
  destruct (0 <=? Z.of_nat n) eqn:E; [|lia].
  now rewrite Nat2Z.id in H.
Qed.

(** A sequence of stores: the final value at [q] is that of a store to
    [q], or the initial one when no store hits [q]. *)
Lemma fold_setf_get {P : Type} (f : P -> Z) (g : P -> f32) (l : list P) :
  forall d q,
    (forall p, In p l -> 0 <= f p < len d) ->
    let d' := fold_left (fun d p => setf d (f p) (g p)) l d in
    len d' = len d /\
    ((exists p, In p l /\ f p = q /\ getf d' q = g p) \/
     ((forall p, In p l -> f p <> q) /\ getf d' q = getf d q)).
Proof.
  induction l as [|p l IH]; intros d q Hin; simpl.
  - split; [reflexivity|]. right. split; [intros p [] | reflexivity].
  - assert (Hp : 0 <= f p < len d) by (apply Hin; now left).
    destruct (IH (setf d (f p) (g p)) q) as [Hlen Hcase].
    { intros p' Hp'. rewrite len_setf. apply Hin. now right. }
    rewrite len_setf in Hlen. split; [exact Hlen|].
    destruct Hcase as [(p' & Hp' & Hf & Hg) | [Hnone Hg]].
    + left. exists p'. auto.
    + rewrite getf_setf in Hg by exact Hp.
      destruct (Z.eqb_spec q (f p)) as [-> | Hne].
      * left. exists p. auto.
      * right. split; [|exact Hg].
        intros p' [<- | Hp']; [congruence | now apply Hnone].
Qed.

(** A column-major loop nest is one fold over [index_pairs]. *)
Lemma nested_pairs_fold {S : Type} (ncols nrows : Z) (body : Z -> Z -> S -> S)
    (step : S -> Z * Z -> S) (s : S) :
  (forall c r s, 0 <= c < ncols -> 0 <= r < nrows -> body c r s = step s (c, r)) ->
  for_range 0 ncols (fun c s => for_range 0 nrows (fun r s => body c r s) s) s
  = fold_left step (index_pairs ncols nrows) s.
Proof.
  intros Hbody. unfold for_range, index_pairs.
  rewrite for_count_fold, fold_left_flat_map, !Z.sub_0_r.
  apply fold_left_ext_in. intros s' c Hc.
  rewrite for_count_fold, fold_left_map.
  apply fold_left_ext_in. intros s'' r Hr.
  apply in_zseq in Hc. apply in_zseq in Hr.
  apply Hbody; lia.
Qed.

Lemma in_index_pairs (ncols nrows c r : Z) :
  In (c, r) (index_pairs ncols nrows) <-> 0 <= c < ncols /\ 0 <= r < nrows.
Proof.
  unfold index_pairs. rewrite in_flat_map. split.
  - intros (c' & Hc & Hp). apply in_map_iff in Hp as (r' & Heq & Hr).
    inversion Heq; subst. apply in_zseq in Hc. apply in_zseq in Hr. lia.
  - intros [Hc Hr]. exists c. split; [apply in_zseq; lia|].
    apply in_map_iff. exists r. split; [reflexivity | apply in_zseq; lia].
Qed.

(** Distinct (column, row) pairs have distinct flat offsets when rows
    stay below the column pitch. *)
Lemma pitch_injective (ld c r c' r' : Z) :
  0 <= r < ld -> 0 <= r' < ld -> ld * c + r = ld * c' + r' -> c = c' /\ r = r'.
Proof. intros Hr Hr' H. assert (c = c') by nia. subst. lia. Qed.

(** ** Allocation within the representable range *)

Lemma to_size_small (bits z : Z) : 0 <= z < 2 ^ bits -> to_size bits z = z.
Proof. intros H. unfold to_size. now apply Z.mod_small. Qed.

Lemma assert_true (NDEBUG : bool) : assert NDEBUG true = Ret tt.
Proof. unfold assert. now destruct NDEBUG. Qed.

Section InRange.

Variable NDEBUG : bool.
Variable size_bits : Z.
Variable malloc_ok : bool.
Variable aligned_alloc_ok : Z -> bool.
Variables nr_ nc_ : Z.

Hypothesis size_bits_ge : 32 <= size_bits.
Hypothesis nr_pos : 0 < nr_.
Hypothesis nc_pos : 0 < nc_.
Hypothesis fits_int : 4 * ceil_quarter nr_ * nc_ <= INT_MAX.
Hypothesis fits_size : 16 * ceil_quarter nr_ * nc_ < 2 ^ size_bits.

(** With the shape in range the overflow guard is passed and the
    request is for exactly [16 * nrq * nc] bytes. *)
Lemma make_scrappie_matrix_in_range :
  malloc_ok = true ->
  make_scrappie_matrix NDEBUG size_bits malloc_ok aligned_alloc_ok nr_ nc_
  = if aligned_alloc_ok (16 * ceil_quarter nr_ * nc_)
    then Ret (Some (mkMat nr_ (ceil_quarter nr_) nc_
                      (zeros (4 * ceil_quarter nr_ * nc_))))
    else Ret None.
Proof using size_bits_ge nr_pos nc_pos fits_int fits_size.
  intros Hm. unfold make_scrappie_matrix.
  pose proof (ceil_quarter_pos nr_ nr_pos) as Hq.
  set (q := ceil_quarter nr_) in *.
  assert (Hqn : q <= q * nc_) by nia.
  replace (0 <? nr_) with true by (symmetry; apply Z.ltb_lt; lia).
  replace (0 <? nc_) with true by (symmetry; apply Z.ltb_lt; lia).
  rewrite !assert_true. unfold bind. rewrite Hm. cbv zeta. cbn [negb].
  fold q.
  rewrite (to_size_small size_bits q) by nia.
  rewrite (to_size_small size_bits (q * 16)) by nia.
  rewrite (to_size_small size_bits nc_) by nia.
  rewrite (to_size_small size_bits (q * 16 * nc_)) by nia.
  replace (q * 16 * nc_ / (q * 16)) with nc_
    by (rewrite Z.mul_comm, Z.div_mul; lia).
  rewrite Z.eqb_refl. cbn [negb]. rewrite andb_false_r.
  unfold int_mul. rewrite wrap32_id by (unfold INT_MAX in *; nia).
  rewrite (to_size_small size_bits (q * nc_)) by nia.
  rewrite (to_size_small size_bits (q * nc_ * 16)) by nia.
  replace (q * nc_ * 16) with (16 * q * nc_) by lia.
  replace (16 * q * nc_ / 4) with (4 * q * nc_)
    by (apply Z.div_unique_exact; lia).
  destruct (aligned_alloc_ok (16 * q * nc_)); reflexivity.
Qed.

End InRange.

(** ** Flat arrays and padded matrices *)

Section Conversion.

Variable size_bits : Z.
Variables nr_ nc_ : Z.
Variable x : list f32.

Hypothesis size_bits_ge : 32 <= size_bits.
Hypothesis nr_pos : 0 < nr_.
Hypothesis nc_pos : 0 < nc_.
Hypothesis fits_int : 4 * ceil_quarter nr_ * nc_ <= INT_MAX.
Hypothesis fits_size : 16 * ceil_quarter nr_ * nc_ < 2 ^ size_bits.

(** The buffer that the column copies leave in a fresh matrix. *)
Let copied_columns : list f32 :=
  copy_columns size_bits x nr_ nc_ (ceil_quarter nr_)
               (zeros (4 * ceil_quarter nr_ * nc_)).

Lemma copied_columns_fold :
  copied_columns
  = fold_left (fun d p => setf d (4 * ceil_quarter nr_ * fst p + snd p)
                                 (getf x (fst p * nr_ + snd p)))
              (index_pairs nc_ nr_) (zeros (4 * ceil_quarter nr_ * nc_)).
Proof using size_bits_ge nr_pos nc_pos fits_int fits_size.
  unfold copied_columns, copy_columns, memcpy_f.
  pose proof (ceil_quarter_pos nr_ nr_pos) as Hq.
  pose proof (ceil_quarter_bounds nr_) as Hb.
  set (q := ceil_quarter nr_) in *.
  assert (Hqn : q <= q * nc_) by nia.
  rewrite (to_size_small size_bits nr_) by nia.
  rewrite (to_size_small size_bits (nr_ * 4)) by nia.
  rewrite Z.div_mul by lia.
  apply (nested_pairs_fold nc_ nr_
    (fun c k d => setf d (col_offset c q + k) (getf x (int_mul c nr_ + k)))
    (fun d p => setf d (4 * q * fst p + snd p) (getf x (fst p * nr_ + snd p)))).
  intros c r d Hc Hr. cbn [fst snd].
  assert (0 <= c * q <= (nc_ - 1) * q) by nia.
  assert (0 <= c * nr_ <= (nc_ - 1) * nr_) by nia.
  unfold col_offset, int_mul.
  rewrite (wrap32_id (c * q)) by (unfold INT_MAX in *; nia).
  rewrite (wrap32_id (c * q * 4)) by (unfold INT_MAX in *; nia).
  rewrite (wrap32_id (c * nr_)) by (unfold INT_MAX in *; nia).
  f_equal; lia.
Qed.

Lemma copied_columns_spec :
  len copied_columns = 4 * ceil_quarter nr_ * nc_ /\
  (forall c r, 0 <= c < nc_ -> 0 <= r < nr_ ->
     getf copied_columns (4 * ceil_quarter nr_ * c + r) = getf x (c * nr_ + r)) /\
  (forall c r, 0 <= c < nc_ -> nr_ <= r < 4 * ceil_quarter nr_ ->
     getf copied_columns (4 * ceil_quarter nr_ * c + r) = fzero).
Proof using size_bits_ge nr_pos nc_pos fits_int fits_size.
  rewrite copied_columns_fold.
  pose proof (ceil_quarter_pos nr_ nr_pos) as Hq.
  pose proof (ceil_quarter_bounds nr_) as Hb.
  set (q := ceil_quarter nr_) in *.
  set (f := fun p : Z * Z => 4 * q * fst p + snd p).
  set (g := fun p : Z * Z => getf x (fst p * nr_ + snd p)).
  assert (Hrange : forall p, In p (index_pairs nc_ nr_) ->
                     0 <= f p < len (zeros (4 * q * nc_))).
  { intros [c r] Hp. apply in_index_pairs in Hp. unfold f. cbn [fst snd].
    rewrite len_zeros by nia.
    assert (0 <= q * c <= q * (nc_ - 1)) by nia. lia. }
  split; [|split].
  - destruct (fold_setf_get f g (index_pairs nc_ nr_) _ 0 Hrange) as [Hlen _].
    etransitivity; [exact Hlen | apply len_zeros; nia].
  - intros c r Hc Hr.
    destruct (fold_setf_get f g (index_pairs nc_ nr_) _ (4 * q * c + r) Hrange)
      as [_ [([c' r'] & Hin & Hf & Hg) | [Hnone _]]].
    + apply in_index_pairs in Hin. unfold f in Hf. cbn [fst snd] in Hf.
      destruct (pitch_injective (4 * q) c' r' c r) as [-> ->]; try lia.
      exact Hg.
    + exfalso. apply (Hnone (c, r)); [apply in_index_pairs; lia | reflexivity].
  - intros c r Hc Hr.
    destruct (fold_setf_get f g (index_pairs nc_ nr_) _ (4 * q * c + r) Hrange)
      as [_ [([c' r'] & Hin & Hf & Hg) | [_ Hg]]].
    + apply in_index_pairs in Hin. unfold f in Hf. cbn [fst snd] in Hf.
      destruct (pitch_injective (4 * q) c' r' c r) as [-> ->]; lia.
    + etransitivity; [exact Hg | apply getf_zeros].
Qed.

Variable calloc_ok : Z -> bool.
Hypothesis len_x : len x = nr_ * nc_.
Hypothesis calloc_succeeds : calloc_ok (nr_ * nc_) = true.

Lemma array_from_copied_columns :
  array_from_scrappie_matrix size_bits calloc_ok
    (Some (mkMat nr_ (ceil_quarter nr_) nc_ copied_columns)) = Some x.
Proof using size_bits_ge nr_pos nc_pos fits_int fits_size len_x calloc_succeeds.
  destruct copied_columns_spec as (Hlen & Hlog & _).
  pose proof (ceil_quarter_pos nr_ nr_pos) as Hq.
  pose proof (ceil_quarter_bounds nr_) as Hb.
  unfold array_from_scrappie_matrix. cbn [nr nc nrq data].
  set (q := ceil_quarter nr_) in *.
  assert (Hqn : q <= q * nc_) by nia.
  assert (Hnn : 0 < nr_ * nc_ <= 4 * q * nc_) by nia.
  unfold int_mul. rewrite wrap32_id by (unfold INT_MAX in *; nia).
  rewrite (to_size_small size_bits (nr_ * nc_)) by nia.
  rewrite calloc_succeeds. cbn [negb].
  rewrite (to_size_small size_bits nr_) by nia.
  rewrite (to_size_small size_bits nc_) by nia.
  f_equal.
  set (f := fun p : Z * Z => fst p * nr_ + snd p).
  set (g := fun p : Z * Z => getf copied_columns (4 * q * fst p + snd p)).
  rewrite (nested_pairs_fold nc_ nr_ _ (fun d p => setf d (f p) (g p))).
  2:{ intros c r d Hc Hr. unfold f, g, size_mul. cbn [fst snd].
      assert (0 <= c * q <= (nc_ - 1) * q) by nia.
      assert (0 <= c * nr_ <= (nc_ - 1) * nr_) by nia.
      rewrite (to_size_small size_bits (c * nr_)) by nia.
      rewrite (to_size_small size_bits (c * nr_ + r)) by nia.
      rewrite (to_size_small size_bits (c * q)) by nia.
      rewrite (to_size_small size_bits (c * q * 4)) by nia.
      rewrite (to_size_small size_bits (c * q * 4 + r)) by nia.
      do 2 f_equal; lia. }
  assert (Hrange : forall p, In p (index_pairs nc_ nr_) ->
                     0 <= f p < len (zeros (nr_ * nc_))).
  { intros [c r] Hp. apply in_index_pairs in Hp. unfold f. cbn [fst snd].
    rewrite len_zeros by nia.
    assert (0 <= c * nr_ <= (nc_ - 1) * nr_) by nia. lia. }
  apply getf_ext.
  - destruct (fold_setf_get f g (index_pairs nc_ nr_) _ 0 Hrange) as [Hl _].
    etransitivity; [exact Hl|]. rewrite len_zeros by nia. now rewrite len_x.
  - intros k Hk.
    destruct (fold_setf_get f g (index_pairs nc_ nr_) _ k Hrange)
      as [Hl [([c r] & Hin & Hf & Hg) | [Hnone _]]].
    + apply in_index_pairs in Hin. etransitivity; [exact Hg|].
      unfold g, f in *. cbn [fst snd] in *.
      rewrite Hlog by lia. now rewrite Hf.
    + exfalso. cbv zeta in Hl. rewrite Hl, len_zeros in Hk by nia.
      pose proof (Z.div_mod k nr_ ltac:(lia)) as Hdm.
      pose proof (Z.mod_pos_bound k nr_ nr_pos) as Hmod.
      apply (Hnone (k / nr_, k mod nr_)).
      * apply in_index_pairs. split; [|lia].
        split; [apply Z.div_pos; lia | apply Z.div_lt_upper_bound; lia].
      * unfold f. cbn [fst snd]. lia.
Qed.

End Conversion.

(** C3.  For a shape in the representable range and successful
    allocations, [mat_from_array] on a flat column-major array [x] of
    [nr * nc] floats yields a well-formed matrix of that shape whose padding
    lanes are all zero and whose logical elements are those of [x], and
    [array_from_scrappie_matrix] of that matrix is [x] again, element for
    element. *)
Theorem flat_array_round_trip
    (NDEBUG : bool) (size_bits : Z) (malloc_ok : bool)
    (aligned_alloc_ok calloc_ok : Z -> bool) (x : list f32) (nr_ nc_ : Z) :
  32 <= size_bits -> 0 < nr_ -> 0 < nc_ -> len x = nr_ * nc_ ->
  4 * ceil_quarter nr_ * nc_ <= INT_MAX ->
  16 * ceil_quarter nr_ * nc_ < 2 ^ size_bits ->
  malloc_ok = true ->
  aligned_alloc_ok (16 * ceil_quarter nr_ * nc_) = true ->
  calloc_ok (nr_ * nc_) = true ->
  exists m,
    mat_from_array NDEBUG size_bits malloc_ok aligned_alloc_ok x nr_ nc_ = Ret (Some m) /\
    wf_matrix m /\ nr m = nr_ /\ nc m = nc_ /\
    array_from_scrappie_matrix size_bits calloc_ok (Some m) = Some x /\
    (forall c r, 0 <= c < nc m -> 0 <= r < nr m ->
       getf (data m) (4 * nrq m * c + r) = getf x (c * nr m + r)) /\
    (forall c r, 0 <= c < nc m -> nr m <= r < 4 * nrq m ->
       getf (data m) (4 * nrq m * c + r) = fzero).
Proof.
  intros Hbits Hnr Hnc Hlen Hint Hsize Hm Ha Hc.
  destruct (copied_columns_spec size_bits nr_ nc_ x Hbits Hnr Hnc Hint Hsize)
    as (Hl & Hlog & Hpad).
  eexists. split.
  - unfold mat_from_array.
    rewrite (make_scrappie_matrix_in_range NDEBUG size_bits malloc_ok aligned_alloc_ok
               nr_ nc_ Hbits Hnr Hnc Hint Hsize Hm), Ha.
    cbn [bind nr nrq nc data]. reflexivity.
  - split; [|split; [reflexivity|split; [reflexivity|split; [|split]]]].
    + unfold wf_matrix. cbn [nr nrq nc data]. auto.
    + now apply array_from_copied_columns.
    + exact Hlog.
    + exact Hpad.
Qed.


Lemma flat_array_round_trip_witness :
  exists m,
    mat_from_array false 64 true always_ok example_flat 2 2 = Ret (Some m) /\
    array_from_scrappie_matrix 64 always_ok (Some m) = Some example_flat.
Proof.
  assert (H1 : 32 <= 64) by (vm_compute; discriminate).
  assert (H2 : 0 < 2) by reflexivity.
  assert (H3 : len example_flat = 2 * 2) by reflexivity.
  assert (H4 : 4 * ceil_quarter 2 * 2 <= INT_MAX) by (vm_compute; discriminate).
  assert (H5 : 16 * ceil_quarter 2 * 2 < 2 ^ 64) by (vm_compute; reflexivity).
  destruct (flat_array_round_trip false 64 true always_ok always_ok example_flat 2 2
              H1 H2 H2 H3 H4 H5 eq_refl eq_refl eq_refl)
    as (m & Hm & _ & _ & _ & Hback & _).
  exists m. split; assumption.
Defined.

(** ** Loops with an early return *)

Lemma for_count_ret_none {R : Type} (body : Z -> option R) (n : nat) :
  forall lo,
    for_count_ret n lo body = None <->
    (forall i, lo <= i < lo + Z.of_nat n -> body i = None).
Proof.
  induction n as [|n IH]; intros lo; simpl.
  - split; [intros _ i Hi; lia | reflexivity].
  - destruct (body lo) eqn:Hb.
    + split; [discriminate|]. intros H. rewrite H in Hb by lia. discriminate.
    + rewrite IH. split.
      * intros H i Hi. destruct (Z.eq_dec i lo) as [-> | Hne]; [exact Hb | apply H; lia].
      * intros H i Hi. apply H. lia.
Qed.

Lemma for_range_ret_none {R : Type} (body : Z -> option R) (lo hi : Z) :
  for_range_ret lo hi body = None <-> (forall i, lo <= i < hi -> body i = None).
Proof.
  unfold for_range_ret. rewrite for_count_ret_none. split.
  - intros H i Hi. apply H. lia.
  - intros H i Hi. apply H. lia.
Qed.

(** A scan whose body only ever leaves with [false] passes exactly when
    no index makes the body leave. *)
Lemma passes_scan (bad : Z -> bool) (lo hi : Z) :
  passes (for_range_ret lo hi (fun i => if bad i then Some false else None)) = true <->
  (forall i, lo <= i < hi -> bad i = false).
Proof.
  destruct (for_range_ret lo hi (fun i => if bad i then Some false else None)) as [b|] eqn:E.
  - assert (Hb : b = false).
    { unfold for_range_ret in E. revert E. generalize lo at 2.
      induction (Z.to_nat (hi - lo)) as [|n IH]; intros l E; simpl in E; [discriminate|].
      destruct (bad l); [congruence | eauto]. }
    subst b. simpl. split; [discriminate|].
    intros H. exfalso.
    assert (for_range_ret lo hi (fun i => if bad i then Some false else None) = None).
    { apply for_range_ret_none. intros i Hi. now rewrite H. }
    congruence.
  - simpl. split; [|reflexivity]. intros _ i Hi.
    pose proof (proj1 (for_range_ret_none _ lo hi) E i Hi) as Hn. simpl in Hn.
    destruct (bad i); [discriminate | reflexivity].
Qed.

Lemma passes_nested_scan (bad : Z -> Z -> bool) (ncols nrows rlo : Z) :
  passes (for_range_ret 0 ncols (fun c =>
            for_range_ret rlo nrows (fun r => if bad c r then Some false else None))) = true <->
  (forall c r, 0 <= c < ncols -> rlo <= r < nrows -> bad c r = false).
Proof.
  set (inner := fun c => for_range_ret rlo nrows (fun r => if bad c r then Some false else None)).
  assert (Hinner : forall c, inner c = if negb (passes (inner c)) then Some false else None).
  { intros c. unfold inner.
    destruct (for_range_ret rlo nrows _) as [b|] eqn:E; [|reflexivity].
    assert (Hb : b = false).
    { unfold for_range_ret in E. revert E. generalize rlo at 2.
      induction (Z.to_nat (nrows - rlo)) as [|n IH]; intros l E; simpl in E; [discriminate|].
      destruct (bad c l); [congruence | eauto]. }
    subst b. reflexivity. }
  assert (Hpass : passes (for_range_ret 0 ncols inner) = true <->
                  (forall c, 0 <= c < ncols -> negb (passes (inner c)) = false)).
  { rewrite <- (passes_scan (fun c => negb (passes (inner c))) 0 ncols).
    unfold for_range_ret.
    assert (Heq : forall n l, for_count_ret n l inner
              = for_count_ret n l (fun i => if negb (passes (inner i)) then Some false else None)).
    { induction n as [|n IH]; intros l; simpl; [reflexivity|].
      rewrite <- Hinner. destruct (inner l); [reflexivity | apply IH]. }
    rewrite Heq. reflexivity. }
  rewrite Hpass. split.
  - intros H c r Hc Hr. specialize (H c Hc). apply negb_false_iff in H.
    unfold inner in H. now apply (proj1 (passes_scan (bad c) rlo nrows) H).
  - intros H c Hc. apply negb_false_iff. unfold inner.
    apply passes_scan. intros r Hr. now apply H.
Qed.

(** ** Equality within a tolerance *)

Lemma equality_index_exact (x : scrappie_mat) (c r : Z) :
  wf_matrix x -> 0 <= c < nc x -> 0 <= r < nr x ->
  wrap32 (int_mul (int_mul c 4) (nrq x) + r) = 4 * nrq x * c + r.
Proof.
  intros Hwf Hc Hr.
  assert (Hin : In (4 * nrq x * c + r) (logical_offsets x))
    by (apply in_logical_offsets; exists c, r; lia).
  pose proof (logical_offset_range x _ Hwf Hin) as [Hlo Hhi].
  destruct Hwf as (Hr0 & Hc0 & Hq & Hl & Hb).
  pose proof (ceil_quarter_bounds (nr x)) as Hcq. rewrite <- Hq in Hcq.
  assert (0 <= nrq x * c) by nia.
  unfold int_mul.
  rewrite (wrap32_id (c * 4)) by (unfold INT_MAX in *; nia).
  rewrite (wrap32_id (c * 4 * nrq x)) by (unfold INT_MAX in *; nia).
  rewrite wrap32_id by (unfold INT_MAX in *; nia).
  lia.
Qed.

Lemma f32_not_gt_iff_le (a b : f32) :
  isnan a = false -> isnan b = false ->
  (f32_gt a b = false <-> f32_le a b = true).
Proof. intros Ha Hb. split; intros H; float_order. Qed.

Lemma equality_same_shape (NDEBUG : bool) (m1 m2 : scrappie_mat) (tol : f32) :
  wf_matrix m1 -> wf_matrix m2 -> nr m1 = nr m2 -> nc m1 = nc m2 ->
  exists b,
    equality_scrappie_matrix NDEBUG (Some m1) (Some m2) tol = Ret b /\
    (b = true <->
     forall c r, 0 <= c < nc m1 -> 0 <= r < nr m1 -> differ_beyond m1 m2 tol c r = false).
Proof.
  intros Hwf1 Hwf2 Hnr Hnc.
  assert (Hq : nrq m1 = nrq m2).
  { destruct Hwf1 as (_ & _ & -> & _), Hwf2 as (_ & _ & -> & _). now rewrite Hnr. }
  unfold equality_scrappie_matrix.
  rewrite Hnr, Hnc, Hq, !Z.eqb_refl. cbn [negb orb].
  rewrite assert_true. cbn [bind].
  eexists. split; [reflexivity|].
  rewrite <- Hnr, <- Hnc, <- Hq.
  rewrite (passes_nested_scan
    (fun c r => f32_gt (fabsf (f32_sub
       (getf (data m1) (wrap32 (int_mul (int_mul c 4) (nrq m1) + r)))
       (getf (data m2) (wrap32 (int_mul (int_mul c 4) (nrq m1) + r))))) tol)
    (nc m1) (nr m1) 0).
  unfold differ_beyond.
  split; intros H c r Hc Hr; specialize (H c r Hc Hr);
    rewrite equality_index_exact in * by assumption; exact H.
Qed.

(** C4.  [equality_scrappie_matrix] returns true on two null handles,
    false when exactly one is null, and false when the row or column counts
    differ.  On two well-formed matrices of the same shape it returns true
    exactly when no pair of corresponding logical elements has a single
    precision difference whose absolute value is greater than [tol]; the
    padding lanes are not inspected.  When [tol] and the differences are
    not NaN, that is: exactly when every such absolute difference is less
    than or equal to [tol]. *)
Theorem equality_scrappie_matrix_spec (NDEBUG : bool) (tol : f32) :
  equality_scrappie_matrix NDEBUG None None tol = Ret true /\
  (forall m,
     equality_scrappie_matrix NDEBUG (Some m) None tol = Ret false /\
     equality_scrappie_matrix NDEBUG None (Some m) tol = Ret false) /\
  (forall m1 m2, nr m1 <> nr m2 \/ nc m1 <> nc m2 ->
     equality_scrappie_matrix NDEBUG (Some m1) (Some m2) tol = Ret false) /\
  (forall m1 m2,
     wf_matrix m1 -> wf_matrix m2 -> nr m1 = nr m2 -> nc m1 = nc m2 ->
     exists b,
       equality_scrappie_matrix NDEBUG (Some m1) (Some m2) tol = Ret b /\
       (b = true <->
        forall c r, 0 <= c < nc m1 -> 0 <= r < nr m1 ->
          differ_beyond m1 m2 tol c r = false) /\
       (isnan tol = false ->
        (forall c r, 0 <= c < nc m1 -> 0 <= r < nr m1 ->
           isnan (f32_sub (getf (data m1) (4 * nrq m1 * c + r))
                          (getf (data m2) (4 * nrq m1 * c + r))) = false) ->
        (b = true <->
         forall c r, 0 <= c < nc m1 -> 0 <= r < nr m1 ->
           f32_le (fabsf (f32_sub (getf (data m1) (4 * nrq m1 * c + r))
                                  (getf (data m2) (4 * nrq m1 * c + r)))) tol = true))).
Proof.
  split; [reflexivity|]. split; [intros m; split; reflexivity|]. split.
  - intros m1 m2 Hne. unfold equality_scrappie_matrix.
    destruct (Z.eqb_spec (nc m1) (nc m2)) as [Ec|Ec]; [|reflexivity].
    destruct (Z.eqb_spec (nr m1) (nr m2)) as [Er|Er]; [|reflexivity].
    tauto.
  - intros m1 m2 Hwf1 Hwf2 Hnr Hnc.
    destruct (equality_same_shape NDEBUG m1 m2 tol Hwf1 Hwf2 Hnr Hnc) as (b & Heq & Hb).
    exists b. split; [exact Heq|]. split; [exact Hb|].
    intros Htol Hdiff. rewrite Hb. unfold differ_beyond.
    split; intros H c r Hc Hr; specialize (H c r Hc Hr); specialize (Hdiff c r Hc Hr).
    + apply f32_not_gt_iff_le; auto.
      destruct (f32_sub _ _); simpl in *; congruence.
    + apply f32_not_gt_iff_le; auto.
      destruct (f32_sub _ _); simpl in *; congruence.
Qed.

Lemma equality_scrappie_matrix_spec_witness :
  wf_matrix example_2x2 /\
  equality_scrappie_matrix false (Some example_2x2) (Some example_2x2) fzero = Ret true.
Proof.
  split; [exact wf_example_2x2|].
  destruct (equality_scrappie_matrix_spec false fzero) as (_ & _ & _ & H).
  destruct (H example_2x2 example_2x2 wf_example_2x2 wf_example_2x2 eq_refl eq_refl)
    as (b & Heq & Hb & _).
  rewrite Heq. f_equal. apply Hb.
  intros c r Hc Hr. simpl in Hc, Hr.
  assert (Hcr : (c = 0 \/ c = 1) /\ (r = 0 \/ r = 1)) by lia.
  destruct Hcr as [[-> | ->] [-> | ->]]; vm_compute; reflexivity.
Defined.

(** ** Allocation and the overflow guard *)

(** The divide-back test [tmp2 / tmp1 != nc] detects exactly the
    overflow of the [size_t] product [tmp1 * nc]. *)
Lemma overflow_guard_exact (bits t1 n : Z) :
  0 <= bits -> 0 < t1 -> 0 <= n ->
  (to_size bits (t1 * n) / t1 =? n) = true <-> t1 * n < 2 ^ bits.
Proof.
  intros Hbits Ht Hn. unfold to_size.
  assert (Hp : 0 < 2 ^ bits) by (apply Z.pow_pos_nonneg; lia).
  rewrite Z.eqb_eq. split.
  - intros Hdiv.
    destruct (Z.lt_ge_cases (t1 * n) (2 ^ bits)) as [Hlt | Hge]; [exact Hlt|].
    exfalso.
    pose proof (Z.mod_pos_bound (t1 * n) (2 ^ bits) Hp) as Hm.
    assert ((t1 * n) mod 2 ^ bits / t1 < n).
    { apply Z.div_lt_upper_bound; [exact Ht | lia]. }
    lia.
  - intros Hlt. rewrite Z.mod_small by nia.
    rewrite Z.mul_comm. apply Z.div_mul. lia.
Qed.

(** When [nrq * 16] itself fits [size_t] but the padded byte size does
    not, the guard fires and the null handle is returned. *)
Lemma make_scrappie_matrix_guard
    (NDEBUG : bool) (size_bits : Z) (malloc_ok : bool) (aligned_alloc_ok : Z -> bool)
    (nr_ nc_ : Z) :
  0 <= size_bits -> 0 < nr_ -> 0 < nc_ -> nc_ < 2 ^ size_bits ->
  16 * ceil_quarter nr_ < 2 ^ size_bits ->
  2 ^ size_bits <= 16 * ceil_quarter nr_ * nc_ ->
  make_scrappie_matrix NDEBUG size_bits malloc_ok aligned_alloc_ok nr_ nc_ = Ret None.
Proof.
  intros Hbits Hnr Hnc Hncs Hfit Hover. unfold make_scrappie_matrix.
  pose proof (ceil_quarter_pos nr_ Hnr) as Hq.
  set (q := ceil_quarter nr_) in *.
  replace (0 <? nr_) with true by (symmetry; apply Z.ltb_lt; lia).
  replace (0 <? nc_) with true by (symmetry; apply Z.ltb_lt; lia).
  rewrite !assert_true. unfold bind. cbv zeta.
  destruct malloc_ok; cbn [negb]; [|reflexivity].
  rewrite (to_size_small size_bits q) by lia.
  rewrite (to_size_small size_bits (q * 16)) by lia.
  rewrite (to_size_small size_bits nc_) by lia.
  destruct (q * 16 =? 0) eqn:E0; [apply Z.eqb_eq in E0; lia|].
  destruct (to_size size_bits (q * 16 * nc_) / (q * 16) =? nc_) eqn:E.
  - apply overflow_guard_exact in E; lia.
  - reflexivity.
Qed.

Lemma make_scrappie_matrix_guard_witness :
  make_scrappie_matrix false 32 true always_ok 4 268435456 = Ret None.
Proof.
  apply make_scrappie_matrix_guard; vm_compute; congruence.
Defined.

(** C5 (code defect).  The guard of [make_scrappie_matrix] does not
    cover the size that is allocated.  With a 64 bit [size_t], [nr = 12]
    and [nc = 1431655766] pass the guard (48 * nc does not overflow), the
    [int] product [nrq * nc] wraps to 2, and a matrix recorded with 3 lane groups
    in each of 1431655766 columns is returned over a buffer of 8 floats.
    With a 32 bit [size_t], [nr = 1073741828] and [nc = 1] make [nrq * 16]
    wrap to 16 before the guard looks at it, and a matrix recorded with 268435457
    lane groups is returned over a buffer of 4 floats. *)
Theorem make_scrappie_matrix_truncated :
  make_scrappie_matrix false 64 true always_ok 12 1431655766
    = Ret (Some (mkMat 12 3 1431655766 (zeros 8))) /\
  len (zeros 8) <> 4 * 3 * 1431655766 /\
  make_scrappie_matrix false 32 true always_ok 1073741828 1
    = Ret (Some (mkMat 1073741828 268435457 1 (zeros 4))) /\
  len (zeros 4) <> 4 * 268435457 * 1.
Proof.
  repeat split; vm_compute; congruence.
Qed.

(** ** Reshape or reallocate *)


(** C9.  When [M] is present and already has shape [(nr, nc)],
    [remake_scrappie_matrix] returns [M] itself, lane buffer untouched, and
    releases nothing.  When [M] is null or its shape differs, [M] is
    released and the result is that of a fresh [make_scrappie_matrix]; for a
    shape in the representable range and a successful allocation this is a
    well-formed matrix of shape [(nr, nc)] whose lane buffer is entirely
    zero. *)
Theorem remake_scrappie_matrix_spec
    (NDEBUG : bool) (size_bits : Z) (malloc_ok : bool) (aligned_alloc_ok : Z -> bool) :
  (forall m nr_ nc_, nr m = nr_ -> nc m = nc_ ->
     remake_scrappie_matrix NDEBUG size_bits malloc_ok aligned_alloc_ok (Some m) nr_ nc_
     = Ret (Some m, [])) /\
  (forall M nr_ nc_,
     (M = None \/ exists m, M = Some m /\ (nr m <> nr_ \/ nc m <> nc_)) ->
     remake_scrappie_matrix NDEBUG size_bits malloc_ok aligned_alloc_ok M nr_ nc_
     = (M' <- make_scrappie_matrix NDEBUG size_bits malloc_ok aligned_alloc_ok nr_ nc_ ;;
        Ret (M', released_by M)) /\
     (32 <= size_bits -> 0 < nr_ -> 0 < nc_ ->
      4 * ceil_quarter nr_ * nc_ <= INT_MAX ->
      16 * ceil_quarter nr_ * nc_ < 2 ^ size_bits ->
      malloc_ok = true -> aligned_alloc_ok (16 * ceil_quarter nr_ * nc_) = true ->
      exists fresh,
        remake_scrappie_matrix NDEBUG size_bits malloc_ok aligned_alloc_ok M nr_ nc_
        = Ret (Some fresh, released_by M) /\
        wf_matrix fresh /\ nr fresh = nr_ /\ nc fresh = nc_ /\
        forall j, 0 <= j < len (data fresh) -> getf (data fresh) j = fzero)).
Proof.
  split.
  - intros m nr_ nc_ <- <-. unfold remake_scrappie_matrix, shape_differs.
    now rewrite !Z.eqb_refl.
  - intros M nr_ nc_ HM.
    assert (Hd : shape_differs M nr_ nc_ = true).
    { destruct HM as [-> | (m & -> & Hne)]; [reflexivity|]. simpl.
      destruct (Z.eqb_spec (nr m) nr_), (Z.eqb_spec (nc m) nc_); simpl; auto. tauto. }
    assert (Heq : remake_scrappie_matrix NDEBUG size_bits malloc_ok aligned_alloc_ok M nr_ nc_
                  = (M' <- make_scrappie_matrix NDEBUG size_bits malloc_ok aligned_alloc_ok nr_ nc_ ;;
                     Ret (M', released_by M))).
    { unfold remake_scrappie_matrix. rewrite Hd. destruct M; reflexivity. }
    split; [exact Heq|].
    intros Hbits Hnr Hnc Hint Hsize Hm Ha.
    rewrite Heq.
    rewrite (make_scrappie_matrix_in_range NDEBUG size_bits malloc_ok aligned_alloc_ok
               nr_ nc_ Hbits Hnr Hnc Hint Hsize Hm), Ha.
    cbn [bind]. eexists. split; [reflexivity|].
    pose proof (ceil_quarter_pos nr_ Hnr) as Hq.
    split; [|split; [reflexivity|split; [reflexivity|]]].
    + unfold wf_matrix. cbn [nr nrq nc data]. rewrite len_zeros by nia. auto.
    + intros j _. apply getf_zeros.
Qed.

Lemma remake_scrappie_matrix_spec_witness :
  remake_scrappie_matrix false 64 true always_ok (Some example_2x2) 2 2
    = Ret (Some example_2x2, []) /\
  exists fresh,
    remake_scrappie_matrix false 64 true always_ok (Some example_2x2) 3 2
      = Ret (Some fresh, [example_2x2]) /\ nr fresh = 3 /\ nc fresh = 2.
Proof.
  destruct (remake_scrappie_matrix_spec false 64 true always_ok) as [Hsame Hdiff].
  split; [apply Hsame; reflexivity|].
  destruct (Hdiff (Some example_2x2) 3 2) as [_ Hfresh].
  { right. exists example_2x2. split; [reflexivity|]. left. vm_compute. congruence. }
  destruct Hfresh as (fresh & Heq & _ & Hnr & Hnc & _);
    try (vm_compute; congruence).
  exists fresh. auto.
Defined.

(** ** Null propagation in the affine maps *)

(** C7, amended statement.  [affine_map] returns the null handle when [X]
    is null, and [affine_map2] when [Xf] or [Xb] is null, whatever the other
    arguments are.  With the inputs present, a null [W], [Wf], [Wb] or [b]
    is not propagated: in a debug build the assertion on it fails, and in a
    release build a null [W] or [Wf] is dereferenced. *)
Theorem affine_map_null_inputs
    (NDEBUG : bool) (size_bits : Z) (malloc_ok : bool) (aligned_alloc_ok : Z -> bool)
    (cblas_sgemm : Z -> Z -> Z -> list f32 -> Z -> list f32 -> Z -> list f32 -> Z -> list f32) :
  (forall W b C,
     affine_map NDEBUG size_bits malloc_ok aligned_alloc_ok cblas_sgemm None W b C
     = Ret None) /\
  (forall Xb Wf Wb b C,
     affine_map2 NDEBUG size_bits malloc_ok aligned_alloc_ok cblas_sgemm None Xb Wf Wb b C
     = Ret None) /\
  (forall Xf Wf Wb b C,
     affine_map2 NDEBUG size_bits malloc_ok aligned_alloc_ok cblas_sgemm Xf None Wf Wb b C
     = Ret None) /\
  (forall X b C,
     affine_map false size_bits malloc_ok aligned_alloc_ok cblas_sgemm (Some X) None b C
     = Abort) /\
  (forall X W C,
     affine_map false size_bits malloc_ok aligned_alloc_ok cblas_sgemm (Some X) (Some W) None C
     = Abort) /\
  (forall Xf Xb Wb b C,
     affine_map2 false size_bits malloc_ok aligned_alloc_ok cblas_sgemm
       (Some Xf) (Some Xb) None Wb b C = Abort) /\
  (forall Xf Xb Wf b C,
     affine_map2 false size_bits malloc_ok aligned_alloc_ok cblas_sgemm
       (Some Xf) (Some Xb) (Some Wf) None b C = Abort) /\
  (forall Xf Xb Wf Wb C,
     affine_map2 false size_bits malloc_ok aligned_alloc_ok cblas_sgemm
       (Some Xf) (Some Xb) (Some Wf) (Some Wb) None C = Abort) /\
  (forall X b C,
     affine_map true size_bits malloc_ok aligned_alloc_ok cblas_sgemm (Some X) None b C
     = Undef) /\
  (forall Xf Xb Wb b C,
     affine_map2 true size_bits malloc_ok aligned_alloc_ok cblas_sgemm
       (Some Xf) (Some Xb) None Wb b C = Undef).
Proof.
  repeat split; intros; try reflexivity.
  destruct Xf; reflexivity.
Qed.

(** Null weights or bias are not propagated: with [X] and [b] present
    and [W] null, or with [X] and [W] present and [b] null, the debug build
    does not return the null handle. *)
Lemma affine_map_absent_weights_not_propagated :
  affine_map false 64 true always_ok reference_sgemm
    (Some example_2x2) None (Some example_2x2) None <> Ret None /\
  affine_map false 64 true always_ok reference_sgemm
    (Some example_2x2) (Some example_2x2) None None <> Ret None /\
  affine_map2 false 64 true always_ok reference_sgemm
    (Some example_2x2) (Some example_2x2) None (Some example_2x2) (Some example_2x2) None
    <> Ret None.
Proof.
  repeat split; vm_compute; discriminate.
Qed.

(** ** Sequence encoding *)

Lemma base_to_int_table (c : ascii) :
  (base_to_int c true =? -1) = negb (is_base c) /\
  (base_to_int c true = -1 \/ 0 <= base_to_int c true <= 3).
Proof.
  destruct c as [[] [] [] [] [] [] [] []]; vm_compute; split; auto;
    right; split; discriminate.
Qed.

Lemma set_nth_app {A : Type} (v x : A) (done t : list A) :
  set_nth (List.length done) v (done ++ x :: t) = done ++ v :: t.
Proof. induction done as [|h done IH]; simpl; [reflexivity | now rewrite IH]. Qed.

(** The encoding loop over the next [k] characters: every code is
    stored, and the first unrecognised character discards the buffer. *)
Lemma encode_loop_spec (k : nat) :
  forall pre suffix done,
    List.length pre = List.length done -> (k <= List.length suffix)%nat ->
    encode_loop k (len pre) (pre ++ suffix) (done ++ repeat 0 k)
    = if forallb is_base (firstn k suffix)
      then Ret (Some (done ++ map (fun c => base_to_int c true) (firstn k suffix)))
      else Ret None.
Proof.
  induction k as [|k IH]; intros pre suffix done Hlen Hk.
  - simpl. now rewrite !app_nil_r.
  - destruct suffix as [|c suffix]; [simpl in Hk; lia|].
    cbn [encode_loop firstn forallb map repeat].
    unfold len. rewrite !Nat2Z.id.
    rewrite nth_error_app2 by lia. rewrite Nat.sub_diag. cbn [nth_error].
    rewrite Hlen at 2. rewrite set_nth_app.
    destruct (base_to_int_table c) as [Hcode _].
    rewrite Z.eqb_sym, Hcode.
    destruct (is_base c); cbn [negb andb]; [|reflexivity].
    specialize (IH (pre ++ [c]) suffix (done ++ [base_to_int c true])).
    rewrite <- !app_assoc in IH. cbn [app] in IH.
    replace (len (pre ++ [c])) with (Z.of_nat (List.length pre) + 1) in IH
      by (unfold len; rewrite length_app; simpl; lia).
    apply IH.
    + rewrite !length_app. simpl. lia.
    + simpl in Hk. lia.
Qed.

Lemma encode_bases_to_integers_spec (calloc_int_ok : Z -> bool) (seq : list ascii) (n : Z) :
  0 <= n <= len seq -> calloc_int_ok n = true ->
  encode_bases_to_integers calloc_int_ok seq n
  = if forallb is_base (firstn (Z.to_nat n) seq)
    then Ret (Some (map (fun c => base_to_int c true) (firstn (Z.to_nat n) seq)))
    else Ret None.
Proof.
  intros Hn Hc. unfold encode_bases_to_integers. rewrite Hc.
  apply (encode_loop_spec (Z.to_nat n) [] seq []); [reflexivity|].
  unfold len in Hn. lia.
Qed.

(** C8.  With lower case allowed, [base_to_int] maps A, C, G, T to
    0, 1, 2, 3 in either case and every other character to -1.  For a
    sequence of [n] characters, when some character among them is not a
    base the encoding returns the null pointer, never a shorter buffer, and
    [sequence_to_squiggle] returns the null handle without calling the
    network; when all are bases the complete code sequence is handed to the
    network. *)
Theorem sequence_to_squiggle_encoding
    (calloc_int_ok : Z -> bool)
    (dna_squiggle : list Z -> Z -> bool -> outcome scrappie_matrix)
    (seq : list ascii) (n : Z) (rescale : bool) :
  0 <= n <= len seq -> calloc_int_ok n = true ->
  (base_to_int "A" true = 0 /\ base_to_int "a" true = 0 /\
   base_to_int "C" true = 1 /\ base_to_int "c" true = 1 /\
   base_to_int "G" true = 2 /\ base_to_int "g" true = 2 /\
   base_to_int "T" true = 3 /\ base_to_int "t" true = 3) /\
  (forall c, base_to_int c true = -1 <-> is_base c = false) /\
  ((exists c, In c (firstn (Z.to_nat n) seq) /\ is_base c = false) ->
   encode_bases_to_integers calloc_int_ok seq n = Ret None /\
   sequence_to_squiggle calloc_int_ok dna_squiggle (Some seq) n rescale = Ret None) /\
  ((forall c, In c (firstn (Z.to_nat n) seq) -> is_base c = true) ->
   encode_bases_to_integers calloc_int_ok seq n
   = Ret (Some (map (fun c => base_to_int c true) (firstn (Z.to_nat n) seq))) /\
   sequence_to_squiggle calloc_int_ok dna_squiggle (Some seq) n rescale
   = dna_squiggle (map (fun c => base_to_int c true) (firstn (Z.to_nat n) seq)) n rescale).
Proof.
  intros Hn Hc.
  split; [repeat split; reflexivity|]. split.
  - intros c. destruct (base_to_int_table c) as [Hcode _].
    rewrite <- Z.eqb_eq, Hcode. destruct (is_base c); simpl; split; congruence.
  - pose proof (encode_bases_to_integers_spec calloc_int_ok seq n Hn Hc) as Henc.
    split.
    + intros (c & Hin & Hbad).
      assert (Hall : forallb is_base (firstn (Z.to_nat n) seq) = false).
      { destruct (forallb is_base (firstn (Z.to_nat n) seq)) eqn:E; [|reflexivity].
        rewrite forallb_forall in E. rewrite (E c Hin) in Hbad. discriminate. }
      rewrite Hall in Henc. unfold sequence_to_squiggle. rewrite Henc. split; reflexivity.
    + intros Hgood.
      assert (Hall : forallb is_base (firstn (Z.to_nat n) seq) = true)
        by (apply forallb_forall; exact Hgood).
      rewrite Hall in Henc. unfold sequence_to_squiggle. rewrite Henc. split; reflexivity.
Qed.

Lemma sequence_to_squiggle_encoding_witness :
  sequence_to_squiggle always_ok shape_only_squiggle (Some seq_ACGX) 4 true = Ret None /\
  sequence_to_squiggle always_ok shape_only_squiggle (Some seq_ACGT) 4 true
  = shape_only_squiggle [0; 1; 2; 3] 4 true.
Proof.
  assert (Hx : 0 <= 4 <= len seq_ACGX) by (vm_compute; intuition congruence).
  assert (Ht : 0 <= 4 <= len seq_ACGT) by (vm_compute; intuition congruence).
  split.
  - destruct (sequence_to_squiggle_encoding always_ok shape_only_squiggle seq_ACGX 4 true
                Hx eq_refl) as (_ & _ & Hbad & _).
    apply Hbad. exists "X"%char. split; [|reflexivity].
    simpl. right. right. right. left. reflexivity.
  - destruct (sequence_to_squiggle_encoding always_ok shape_only_squiggle seq_ACGT 4 true
                Ht eq_refl) as (_ & _ & _ & Hgood).
    apply Hgood. intros c Hin. simpl in Hin.
    destruct Hin as [<- | [<- | [<- | [<- | []]]]]; reflexivity.
Defined.

(** ** Validators *)

Lemma scan_existsb (bad : Z -> bool) (n : nat) :
  forall lo,
    for_count_ret n lo (fun i => if bad i then Some false else None)
    = if existsb bad (zseq lo n) then Some false else None.
Proof.
  induction n as [|n IH]; intros lo; simpl; [reflexivity|].
  destruct (bad lo); simpl; [reflexivity | apply IH].
Qed.

Lemma nested_scan_existsb (bad : Z -> Z -> bool) (m : nat) (rlo : Z) (n : nat) :
  forall lo,
    for_count_ret n lo (fun c =>
      for_count_ret m rlo (fun r => if bad c r then Some false else None))
    = if existsb (fun c => existsb (bad c) (zseq rlo m)) (zseq lo n)
      then Some false else None.
Proof.
  induction n as [|n IH]; intros lo; simpl; [reflexivity|].
  rewrite scan_existsb.
  destruct (existsb (bad lo) (zseq rlo m)); simpl; [reflexivity | apply IH].
Qed.

(** A nested scan fails exactly when some visited position is bad. *)
Lemma nested_scan_fails (bad : Z -> Z -> bool) (ncols rlo rhi : Z) :
  passes (for_range_ret 0 ncols (fun c =>
            for_range_ret rlo rhi (fun r => if bad c r then Some false else None))) = false <->
  exists c r, 0 <= c < ncols /\ rlo <= r < rhi /\ bad c r = true.
Proof.
  unfold for_range_ret. rewrite nested_scan_existsb.
  destruct (existsb _ _) eqn:E; simpl.
  - split; [intros _ | reflexivity].
    apply existsb_exists in E as (c & Hc & E).
    apply existsb_exists in E as (r & Hr & E).
    apply in_zseq in Hc. apply in_zseq in Hr. exists c, r.
    split; [lia|]. split; [lia | exact E].
  - split; [discriminate|]. intros (c & r & Hc & Hr & Hbad). exfalso.
    assert (Hex : existsb (fun c => existsb (bad c) (zseq rlo (Z.to_nat (rhi - rlo))))
                    (zseq 0 (Z.to_nat (ncols - 0))) = true).
    { apply existsb_exists. exists c. split; [apply in_zseq; lia|].
      apply existsb_exists. exists r. split; [apply in_zseq; lia | exact Hbad]. }
    congruence.
Qed.

(** One bound loop of [validate_vector] when the float [n] counts [k]
    elements, all inside the buffer. *)
Lemma scan_vector_spec (bad : f32 -> bool) (n : f32) (k : Z) (vec : list f32) :
  forall i,
    (forall j, i <= j <= i + len vec -> f32_lt (f32_of_Z j) n = (j <? k)) ->
    k <= i + len vec ->
    scan_vector bad n i vec = Ret (negb (existsb bad (firstn (Z.to_nat (k - i)) vec))).
Proof.
  induction vec as [|v vec IH]; intros i Hcount Hk; cbn [scan_vector].
  - rewrite Hcount by (unfold len; simpl; lia).
    unfold len in Hk. simpl in Hk.
    destruct (Z.ltb_spec i k); [lia|]. now rewrite firstn_nil.
  - rewrite Hcount by (unfold len; simpl; lia).
    destruct (Z.ltb_spec i k) as [Hlt | Hge].
    + replace (Z.to_nat (k - i)) with (S (Z.to_nat (k - (i + 1)))) by lia.
      cbn [firstn existsb]. destruct (bad v); [reflexivity|]. cbn [orb].
      apply IH.
      * intros j Hj. apply Hcount. unfold len in *. simpl. lia.
      * unfold len in *. simpl in Hk. lia.
    + replace (Z.to_nat (k - i)) with O by lia. reflexivity.
Qed.

Lemma scan_ivector_spec (bad : Z -> bool) (n : Z) (vec : list Z) :
  forall i,
    n <= i + len vec ->
    scan_ivector bad n i vec = Ret (negb (existsb bad (firstn (Z.to_nat (n - i)) vec))).
Proof.
  induction vec as [|v vec IH]; intros i Hn; cbn [scan_ivector].
  - unfold len in Hn. simpl in Hn.
    destruct (Z.ltb_spec i n); [lia|]. now rewrite firstn_nil.
  - destruct (Z.ltb_spec i n) as [Hlt | Hge].
    + replace (Z.to_nat (n - i)) with (S (Z.to_nat (n - (i + 1)))) by lia.
      cbn [firstn existsb]. destruct (bad v); [reflexivity|]. cbn [orb].
      apply IH. unfold len in *. simpl in Hn. lia.
    + replace (Z.to_nat (n - i)) with O by lia. reflexivity.
Qed.

Lemma existsb_below_nan (lower : f32) (l : list f32) :
  isnan lower = true -> existsb (fun v => f32_gt lower v) l = false.
Proof.
  intros Hnan. induction l as [|v l IH]; simpl; [reflexivity|].
  rewrite IH, orb_false_r. destruct lower; try discriminate.
  unfold f32_gt, SFltb, SFcompare. now destruct v.
Qed.

Lemma existsb_above_nan (upper : f32) (l : list f32) :
  isnan upper = true -> existsb (fun v => f32_lt upper v) l = false.
Proof.
  intros Hnan. induction l as [|v l IH]; simpl; [reflexivity|].
  rewrite IH, orb_false_r. destruct upper; try discriminate. reflexivity.
Qed.

Lemma validate_vector_debug (vec : list f32) (n lower upper : f32) (k : Z) :
  (forall j, 0 <= j <= len vec -> f32_lt (f32_of_Z j) n = (j <? k)) ->
  k <= len vec ->
  validate_vector false (Some vec) n lower upper
  = Ret (negb (existsb (fun v => f32_gt lower v) (firstn (Z.to_nat k) vec))
         && negb (existsb (fun v => f32_lt upper v) (firstn (Z.to_nat k) vec))).
Proof.
  intros Hcount Hk. unfold validate_vector.
  rewrite !(scan_vector_spec _ n k vec 0) by (try assumption; lia).
  rewrite Z.sub_0_r.
  destruct (isnan lower) eqn:Hl; cbn [negb bind].
  - rewrite (existsb_below_nan lower) by exact Hl. cbn [negb andb].
    destruct (isnan upper) eqn:Hu; cbn [negb bind].
    + now rewrite (existsb_above_nan upper) by exact Hu.
    + now destruct (existsb (fun v => f32_lt upper v) _).
  - destruct (existsb (fun v => f32_gt lower v) _); cbn [negb andb]; [reflexivity|].
    destruct (isnan upper) eqn:Hu; cbn [negb bind].
    + now rewrite (existsb_above_nan upper) by exact Hu.
    + now destruct (existsb (fun v => f32_lt upper v) _).
Qed.

Lemma validate_ivector_debug (vec : list Z) (n lower upper : Z) :
  n <= len vec ->
  validate_ivector false (Some vec) n lower upper
  = Ret (negb (existsb (fun v => lower >? v) (firstn (Z.to_nat n) vec))
         && negb (existsb (fun v => upper <? v) (firstn (Z.to_nat n) vec))).
Proof.
  intros Hn. unfold validate_ivector.
  rewrite !(scan_ivector_spec _ n vec 0) by lia.
  rewrite Z.sub_0_r. cbn [bind].
  destruct (existsb (fun v => lower >? v) _); cbn [negb andb]; [reflexivity|].
  now destruct (existsb (fun v => upper <? v) _).
Qed.

Lemma validate_index_exact (size_bits : Z) (x : scrappie_mat) (c r : Z) :
  32 <= size_bits -> wf_matrix x -> 0 <= c < nc x -> 0 <= r < nr x ->
  size_add size_bits (to_size size_bits (int_mul c (int_mul (nrq x) 4))) r
  = 4 * nrq x * c + r.
Proof.
  intros Hbits Hwf Hc Hr.
  assert (Hin : In (4 * nrq x * c + r) (logical_offsets x))
    by (apply in_logical_offsets; exists c, r; lia).
  pose proof (logical_offset_range x _ Hwf Hin) as [Hlo Hhi].
  destruct Hwf as (Hr0 & Hc0 & Hq & Hl & Hb).
  pose proof (ceil_quarter_bounds (nr x)) as Hcq. rewrite <- Hq in Hcq.
  assert (0 <= nrq x * c) by nia.
  assert (nrq x <= nrq x * nc x) by nia.
  unfold size_add, int_mul.
  rewrite (wrap32_id (nrq x * 4)) by (unfold INT_MAX in *; nia).
  rewrite wrap32_id by (unfold INT_MAX in *; nia).
  rewrite (to_size_id size_bits (c * (nrq x * 4))) by (unfold INT_MAX in *; nia).
  rewrite to_size_id by (unfold INT_MAX in *; nia).
  lia.
Qed.

(** The bound checks of [validate_scrappie_matrix], with the mask and
    finiteness checks switched off. *)
Lemma validate_scrappie_matrix_bounds (size_bits : Z) (m : scrappie_mat) (lower upper : f32) :
  32 <= size_bits -> wf_matrix m ->
  exists b,
    validate_scrappie_matrix false size_bits (Some m) lower upper NAN false = Ret b /\
    (b = false <->
     exists j, In j (logical_offsets m) /\
       (f32_lt (f32_add (getf (data m) j) FLT_EPSILON) lower = true \/
        f32_gt (getf (data m) j) (f32_add upper FLT_EPSILON) = true)).
Proof.
  intros Hbits Hwf.
  pose proof Hwf as (Hr0 & Hc0 & Hq & Hl & Hb).
  pose proof (ceil_quarter_bounds (nr m)) as Hcq. rewrite <- Hq in Hcq.
  assert (Hqn : nrq m <= nrq m * nc m) by nia.
  unfold validate_scrappie_matrix.
  replace (0 <? nc m) with true by (symmetry; apply Z.ltb_lt; lia).
  replace (0 <? nr m) with true by (symmetry; apply Z.ltb_lt; lia).
  replace ((0 <? nrq m) && (nr m <=? int_mul 4 (nrq m))) with true.
  2:{ symmetry. apply andb_true_iff. split; [apply Z.ltb_lt; lia|].
      apply Z.leb_le. unfold int_mul.
      rewrite wrap32_id by (unfold INT_MAX in *; nia). lia. }
  unfold assert. cbn [bind isnan NAN negb andb]. cbv zeta.
  set (badL := fun c r =>
    f32_lt (f32_add (getf (data m)
      (size_add size_bits (to_size size_bits (int_mul c (int_mul (nrq m) 4))) r))
      FLT_EPSILON) lower).
  set (badU := fun c r =>
    f32_gt (getf (data m)
      (size_add size_bits (to_size size_bits (int_mul c (int_mul (nrq m) 4))) r))
      (f32_add upper FLT_EPSILON)).
  set (pl := passes (scan_matrix size_bits m (int_mul (nrq m) 4) 0 (nr m)
                       (fun v => f32_lt (f32_add v FLT_EPSILON) lower))).
  set (pu := passes (scan_matrix size_bits m (int_mul (nrq m) 4) 0 (nr m)
                       (fun v => f32_gt v (f32_add upper FLT_EPSILON)))).
  assert (HL : pl = false <->
               exists c r, 0 <= c < nc m /\ 0 <= r < nr m /\ badL c r = true)
    by apply (nested_scan_fails badL (nc m) 0 (nr m)).
  assert (HU : pu = false <->
               exists c r, 0 <= c < nc m /\ 0 <= r < nr m /\ badU c r = true)
    by apply (nested_scan_fails badU (nc m) 0 (nr m)).
  assert (HexL : (exists j, In j (logical_offsets m) /\
                    f32_lt (f32_add (getf (data m) j) FLT_EPSILON) lower = true) <->
                 pl = false).
  { rewrite HL. split.
    - intros (j & Hj & Hbad). apply in_logical_offsets in Hj as (c & r & Hc & Hr & ->).
      exists c, r. split; [lia|]. split; [lia|]. unfold badL.
      rewrite validate_index_exact by assumption. exact Hbad.
    - intros (c & r & Hc & Hr & Hbad). exists (4 * nrq m * c + r).
      split; [apply in_logical_offsets; exists c, r; lia|].
      unfold badL in Hbad. rewrite validate_index_exact in Hbad by assumption.
      exact Hbad. }
  assert (HexU : (exists j, In j (logical_offsets m) /\
                    f32_gt (getf (data m) j) (f32_add upper FLT_EPSILON) = true) <->
                 pu = false).
  { rewrite HU. split.
    - intros (j & Hj & Hbad). apply in_logical_offsets in Hj as (c & r & Hc & Hr & ->).
      exists c, r. split; [lia|]. split; [lia|]. unfold badU.
      rewrite validate_index_exact by assumption. exact Hbad.
    - intros (c & r & Hc & Hr & Hbad). exists (4 * nrq m * c + r).
      split; [apply in_logical_offsets; exists c, r; lia|].
      unfold badU in Hbad. rewrite validate_index_exact in Hbad by assumption.
      exact Hbad. }
  assert (HnanL : pl = false -> isnan lower = false).
  { intros Hp. apply HL in Hp as (c & r & _ & _ & Hbad). unfold badL in Hbad.
    destruct lower; try reflexivity.
    revert Hbad. unfold f32_lt, SFltb, SFcompare.
    match goal with
    | |- context [f32_add ?a ?b] => destruct (f32_add a b)
    end; intros Hbad; simpl in Hbad; discriminate Hbad. }
  assert (HnanU : pu = false -> isnan upper = false).
  { intros Hp. apply HU in Hp as (c & r & _ & _ & Hbad). unfold badU in Hbad.
    destruct upper; try reflexivity. discriminate. }
  clearbody pl pu. clear HL HU.
  exists (negb (negb (isnan lower) && negb pl) && negb (negb (isnan upper) && negb pu)).
  split; [destruct (isnan lower), (isnan upper), pl, pu; reflexivity|].
  split.
  - intros Hres.
    destruct pl.
    + destruct pu.
      * rewrite !andb_false_r in Hres. discriminate.
      * destruct (proj2 HexU eq_refl) as (j & Hj & Hbad). eauto.
    + destruct (proj2 HexL eq_refl) as (j & Hj & Hbad). eauto.
  - intros (j & Hj & [Hbad | Hbad]).
    + assert (Hp : pl = false) by (apply HexL; eauto).
      rewrite Hp, (HnanL Hp). reflexivity.
    + assert (Hp : pu = false) by (apply HexU; eauto).
      rewrite Hp, (HnanU Hp). cbn [negb andb]. apply andb_false_r.
Qed.

(** C10.  In a debug build [validate_vector] and [validate_ivector]
    return false on a null vector; on a vector holding the [n] elements
    they are asked to scan they return false exactly when one of the first
    [n] elements is strictly below [lower] or strictly above [upper], with
    no tolerance.  The bound checks of [validate_scrappie_matrix] instead
    fail only when an element plus [FLT_EPSILON] is below [lower] or an
    element is above [upper] plus [FLT_EPSILON]: the value 1.0 against the
    lower bound 1 + [FLT_EPSILON] is rejected as a vector element and
    accepted as a matrix element. *)
Theorem validate_vector_exact_bounds :
  (forall n lower upper, validate_vector false None n lower upper = Ret false) /\
  (forall n lower upper, validate_ivector false None n lower upper = Ret false) /\
  (forall vec n lower upper k,
     (forall j, 0 <= j <= len vec -> f32_lt (f32_of_Z j) n = (j <? k)) ->
     k <= len vec ->
     exists b,
       validate_vector false (Some vec) n lower upper = Ret b /\
       (b = false <->
        exists v, In v (firstn (Z.to_nat k) vec) /\
                  (f32_lt v lower = true \/ f32_gt v upper = true))) /\
  (forall vec n lower upper,
     n <= len vec ->
     exists b,
       validate_ivector false (Some vec) n lower upper = Ret b /\
       (b = false <->
        exists v, In v (firstn (Z.to_nat n) vec) /\ (v < lower \/ upper < v))) /\
  (forall size_bits m lower upper,
     32 <= size_bits -> wf_matrix m ->
     exists b,
       validate_scrappie_matrix false size_bits (Some m) lower upper NAN false = Ret b /\
       (b = false <->
        exists j, In j (logical_offsets m) /\
          (f32_lt (f32_add (getf (data m) j) FLT_EPSILON) lower = true \/
           f32_gt (getf (data m) j) (f32_add upper FLT_EPSILON) = true))) /\
  (f32_lt fone one_plus_epsilon = true /\
   validate_vector false (Some [fone]) fone one_plus_epsilon NAN = Ret false /\
   validate_scrappie_matrix false 64 (Some example_1x1) one_plus_epsilon NAN NAN false
   = Ret true).
Proof.
  split; [reflexivity|]. split; [reflexivity|]. split; [|split; [|split]].
  - intros vec n lower upper k Hcount Hk.
    eexists. split; [apply (validate_vector_debug vec n lower upper k Hcount Hk)|].
    rewrite andb_false_iff, !negb_false_iff, !existsb_exists.
    unfold f32_gt. split.
    + intros [(v & Hin & Hv) | (v & Hin & Hv)]; exists v; auto.
    + intros (v & Hin & [Hv | Hv]); [left | right]; exists v; auto.
  - intros vec n lower upper Hn.
    eexists. split; [apply (validate_ivector_debug vec n lower upper Hn)|].
    rewrite andb_false_iff, !negb_false_iff, !existsb_exists. split.
    + intros [(v & Hin & Hv) | (v & Hin & Hv)]; exists v; split; auto.
      * left. apply Z.gtb_lt in Hv. lia.
      * right. now apply Z.ltb_lt.
    + intros (v & Hin & [Hv | Hv]); [left | right]; exists v; split; auto.
      * apply Z.gtb_lt. lia.
      * now apply Z.ltb_lt.
  - intros size_bits m lower upper Hbits Hwf.
    now apply validate_scrappie_matrix_bounds.
  - repeat split; vm_compute; reflexivity.
Qed.

Lemma validate_vector_exact_bounds_witness :
  validate_vector false (Some example_flat) (f32_of_Z 4) (f32_of_Z 1) (f32_of_Z 5)
    = Ret true /\
  validate_vector false (Some example_flat) (f32_of_Z 4) (f32_of_Z 2) (f32_of_Z 5)
    = Ret false.
Proof.
  assert (Hcount : forall j, 0 <= j <= len example_flat ->
            f32_lt (f32_of_Z j) (f32_of_Z 4) = (j <? 4)).
  { intros j Hj. change (len example_flat) with 4 in Hj.
    assert (Hc : j = 0 \/ j = 1 \/ j = 2 \/ j = 3 \/ j = 4) by lia.
    destruct Hc as [-> | [-> | [-> | [-> | ->]]]]; vm_compute; reflexivity. }
  assert (Hk : 4 <= len example_flat) by (vm_compute; discriminate).
  destruct validate_vector_exact_bounds as (_ & _ & Hvec & _).
  split.
  - destruct (Hvec example_flat (f32_of_Z 4) (f32_of_Z 1) (f32_of_Z 5) 4 Hcount Hk)
      as (b & Heq & Hb).
    rewrite Heq. f_equal. destruct b; [reflexivity|].
    destruct (proj1 Hb eq_refl) as (v & Hin & Hv). simpl in Hin.
    destruct Hin as [<- | [<- | [<- | [<- | []]]]];
      destruct Hv as [Hv | Hv]; vm_compute in Hv; discriminate.
  - destruct (Hvec example_flat (f32_of_Z 4) (f32_of_Z 2) (f32_of_Z 5) 4 Hcount Hk)
      as (b & Heq & Hb).
    rewrite Heq. f_equal. apply Hb.
    exists (f32_of_Z 1). split; [left; reflexivity | left; vm_compute; reflexivity].
Defined.

(** ** Row normalisation *)

Lemma for_range_inv {S : Type} (P : Z -> S -> Prop) (body : Z -> S -> S) (lo hi : Z) (s0 : S) :
  lo <= hi -> P lo s0 ->
  (forall i s, lo <= i < hi -> P i s -> P (i + 1) (body i s)) ->
  P hi (for_range lo hi body s0).
Proof.
  intros Hle H0 Hstep. unfold for_range.
  assert (Hgen : forall n l s, lo <= l -> l + Z.of_nat n = hi -> P l s ->
                   P hi (for_count n l body s)).
  { induction n as [|n IH]; intros l s Hl Hn Hp; simpl.
    - replace hi with l by lia. exact Hp.
    - apply IH; [lia | lia | apply Hstep; [lia | exact Hp]]. }
  apply Hgen; [lia | lia | exact H0].
Qed.

Lemma for_range_ext {S : Type} (body1 body2 : Z -> S -> S) (lo hi : Z) (s0 : S) :
  (forall i s, lo <= i < hi -> body1 i s = body2 i s) ->
  for_range lo hi body1 s0 = for_range lo hi body2 s0.
Proof.
  intros H. unfold for_range. rewrite !for_count_fold.
  apply fold_left_ext_in. intros s i Hi. apply in_zseq in Hi. apply H. lia.
Qed.

(** A lane-wise accumulation is four scalar accumulations. *)
Lemma lanewise_accumulate (V : Z -> m128) (n : nat) :
  forall lo a0 a1 a2 a3,
    for_count n lo (fun row sum => lanewise f32_add sum (V row)) (a0, a1, a2, a3)
    = (for_count n lo (fun row s => f32_add s (fst (fst (fst (V row))))) a0,
       for_count n lo (fun row s => f32_add s (snd (fst (fst (V row))))) a1,
       for_count n lo (fun row s => f32_add s (snd (fst (V row)))) a2,
       for_count n lo (fun row s => f32_add s (snd (V row))) a3).
Proof.
  induction n as [|n IH]; intros lo a0 a1 a2 a3; simpl; [reflexivity|].
  destruct (V lo) as [[[v0 v1] v2] v3] eqn:E. simpl. apply IH.
Qed.

Lemma getf_setv (d : list f32) (g p : Z) (v0 v1 v2 v3 : f32) :
  0 <= g -> 4 * g + 3 < len d ->
  getf (setv d g (v0, v1, v2, v3)) p
  = if p =? 4 * g then v0
    else if p =? 4 * g + 1 then v1
    else if p =? 4 * g + 2 then v2
    else if p =? 4 * g + 3 then v3
    else getf d p.
Proof.
  intros Hg Hlen. unfold setv.
  rewrite !getf_setf by (rewrite ?len_setf; lia).
  destruct (Z.eqb_spec p (4 * g)), (Z.eqb_spec p (4 * g + 1)),
           (Z.eqb_spec p (4 * g + 2)), (Z.eqb_spec p (4 * g + 3)); try lia; reflexivity.
Qed.

Lemma len_setv (d : list f32) (g : Z) (v : m128) : len (setv d g v) = len d.
Proof. destruct v as [[[v0 v1] v2] v3]. unfold setv. now rewrite !len_setf. Qed.

Lemma padding_mask_lanes (i : Z) :
  padding_mask i = (false, 3 <=? i, 2 <=? i, 1 <=? i).
Proof.
  unfold padding_mask.
  destruct (1 <=? i), (2 <=? i), (3 <=? i); vm_compute; reflexivity.
Qed.

Lemma f32_sub_zero (a : f32) : f32_sub a fzero = a.
Proof. destruct a as [[] | [] | | s mx e]; reflexivity. Qed.

Section Normalise.

Variable size_bits : Z.
Variable m : scrappie_mat.
Hypothesis size_bits_ge : 32 <= size_bits.
Hypothesis wf_m : wf_matrix m.

Let q := nrq m.
Let D := data m.

Lemma nrq_facts :
  0 < q /\ nr m <= 4 * q < nr m + 4 /\ q <= q * nc m /\
  4 * q * nc m <= INT_MAX /\ len D = 4 * q * nc m.
Proof.
  destruct wf_m as (Hr0 & Hc0 & Hq & Hl & Hb). subst q D.
  pose proof (ceil_quarter_bounds (nr m)) as Hcq. rewrite <- Hq in Hcq.
  repeat split; try lia; nia.
Qed.

Lemma group_offset_exact (c : Z) :
  0 <= c < nc m -> to_size size_bits (int_mul c q) = c * q.
Proof.
  intros Hc. destruct nrq_facts as (Hq & Hcq & Hqn & Hb & Hl).
  assert (0 <= c * q <= (nc m - 1) * q) by nia.
  unfold int_mul. rewrite wrap32_id by (unfold INT_MAX in *; nia).
  apply to_size_id; [exact size_bits_ge | unfold INT_MAX in *; nia].
Qed.

Lemma group_index_exact (c row : Z) :
  0 <= c < nc m -> -1 <= row <= q -> 0 <= c * q + row ->
  size_add size_bits (c * q) row = c * q + row.
Proof.
  intros Hc Hrow Hnn. destruct nrq_facts as (Hq & Hcq & Hqn & Hb & Hl).
  assert (0 <= c * q <= (nc m - 1) * q) by nia.
  unfold size_add. apply to_size_id; [exact size_bits_ge | unfold INT_MAX in *; nia].
Qed.

(** The lane total read from a buffer that agrees with the matrix on
    column [c]. *)
Lemma lane_fold_agree (d : list f32) (c l : Z) :
  0 <= c < nc m -> 0 <= l < 4 ->
  (forall p, 4 * q * c <= p < 4 * q * (c + 1) -> getf d p = getf D p) ->
  for_range 1 q (fun row s => f32_add s (getf d (4 * (c * q + row) + l)))
            (getf d (4 * (c * q) + l))
  = lane_sum D q (4 * q * c) l.
Proof.
  intros Hc Hl Hagree. destruct nrq_facts as (Hq & _).
  unfold lane_sum.
  rewrite Hagree by nia.
  replace (4 * (c * q) + l) with (4 * q * c + l) by lia.
  apply for_range_ext. intros row s Hrow.
  rewrite Hagree by nia.
  do 2 f_equal. lia.
Qed.

Lemma accumulate_groups (d : list f32) (c : Z) :
  0 <= c < nc m ->
  (forall p, 4 * q * c <= p < 4 * q * (c + 1) -> getf d p = getf D p) ->
  for_range 1 q (fun row sum => lanewise f32_add sum (getv d (c * q + row)))
            (getv d (c * q))
  = (lane_sum D q (4 * q * c) 0, lane_sum D q (4 * q * c) 1,
     lane_sum D q (4 * q * c) 2, lane_sum D q (4 * q * c) 3).
Proof.
  intros Hc Hagree.
  pose proof (lane_fold_agree d c 0 Hc ltac:(lia) Hagree) as H0.
  pose proof (lane_fold_agree d c 1 Hc ltac:(lia) Hagree) as H1.
  pose proof (lane_fold_agree d c 2 Hc ltac:(lia) Hagree) as H2.
  pose proof (lane_fold_agree d c 3 Hc ltac:(lia) Hagree) as H3.
  assert (H0' : for_range 1 q (fun row s => f32_add s (getf d (4 * (c * q + row))))
                  (getf d (4 * (c * q)))
                = lane_sum D q (4 * q * c) 0).
  { rewrite <- H0, Z.add_0_r. apply for_range_ext.
    intros row s _. now rewrite Z.add_0_r. }
  rewrite <- H0', <- H1, <- H2, <- H3.
  unfold for_range. unfold getv at 2.
  rewrite (lanewise_accumulate (fun row => getv d (c * q + row))).
  unfold getv. cbn [fst snd]. reflexivity.
Qed.

Lemma masked_last_group (d : list f32) (c : Z) :
  0 <= c < nc m ->
  (forall p, 4 * q * c <= p < 4 * q * (c + 1) -> getf d p = getf D p) ->
  _mm_and_ps (getv d (c * q + q + -1)) (padding_mask (int_sub (int_mul q 4) (nr m)))
  = (masked_padding m c 0, masked_padding m c 1,
     masked_padding m c 2, masked_padding m c 3).
Proof.
  intros Hc Hagree. destruct nrq_facts as (Hq & Hcq & Hqn & Hb & Hl).
  rewrite padding_mask_lanes.
  unfold int_sub, int_mul.
  rewrite (wrap32_id (q * 4)) by (unfold INT_MAX in *; nia).
  rewrite wrap32_id by (unfold INT_MAX in *; nia).
  unfold getv, _mm_and_ps, masked_padding. fold q D.
  rewrite !Hagree by nia.
  replace (nr m <=? 4 * (q - 1) + 0) with false
    by (symmetry; apply Z.leb_gt; lia).
  replace (nr m <=? 4 * (q - 1) + 1) with (3 <=? q * 4 - nr m)
    by (destruct (Z.leb_spec 3 (q * 4 - nr m)), (Z.leb_spec (nr m) (4 * (q - 1) + 1)); lia).
  replace (nr m <=? 4 * (q - 1) + 2) with (2 <=? q * 4 - nr m)
    by (destruct (Z.leb_spec 2 (q * 4 - nr m)), (Z.leb_spec (nr m) (4 * (q - 1) + 2)); lia).
  replace (nr m <=? 4 * (q - 1) + 3) with (1 <=? q * 4 - nr m)
    by (destruct (Z.leb_spec 1 (q * 4 - nr m)), (Z.leb_spec (nr m) (4 * (q - 1) + 3)); lia).
  replace (4 * q * c + (4 * (q - 1) + 1)) with (4 * (c * q + q + -1) + 1) by lia.
  replace (4 * q * c + (4 * (q - 1) + 2)) with (4 * (c * q + q + -1) + 2) by lia.
  replace (4 * q * c + (4 * (q - 1) + 3)) with (4 * (c * q + q + -1) + 3) by lia.
  reflexivity.
Qed.

Lemma column_tsum_spec (d : list f32) (c : Z) :
  0 <= c < nc m ->
  (forall p, 4 * q * c <= p < 4 * q * (c + 1) -> getf d p = getf D p) ->
  column_tsum size_bits d q (padding_mask (int_sub (int_mul q 4) (nr m)))
              (to_size size_bits (int_mul c q))
  = _mm_set1_ps (column_total m c).
Proof.
  intros Hc Hagree. destruct nrq_facts as (Hq & Hcq & Hqn & Hb & Hl).
  unfold column_tsum. rewrite group_offset_exact by assumption.
  rewrite (group_index_exact c q) by (try assumption; nia).
  assert (Hlast : size_add size_bits (c * q + q) (-1) = c * q + q + -1).
  { assert (0 <= c * q <= (nc m - 1) * q) by nia.
    unfold size_add. apply to_size_id; [exact size_bits_ge | unfold INT_MAX in *; nia]. }
  rewrite Hlast.
  rewrite (for_range_ext _
    (fun row sum => lanewise f32_add sum (getv d (c * q + row)))).
  2:{ intros row s Hrow. rewrite group_index_exact by (try assumption; nia). reflexivity. }
  rewrite accumulate_groups, masked_last_group by assumption.
  reflexivity.
Qed.

(** The scaling loop multiplies the whole column, padding included,
    and nothing else. *)
Lemma scale_groups (d : list f32) (c : Z) (a : f32) :
  0 <= c < nc m -> len d = len D ->
  let d' := for_range 0 q (fun row d =>
              setv d (size_add size_bits (c * q) row)
                   (lanewise f32_mul (getv d (size_add size_bits (c * q) row))
                                     (_mm_set1_ps a))) d in
  len d' = len d /\
  forall p, getf d' p = if (4 * q * c <=? p) && (p <? 4 * q * (c + 1))
                        then f32_mul (getf d p) a else getf d p.
Proof.
  intros Hc Hlen. destruct nrq_facts as (Hq & Hcq & Hqn & Hb & Hl).
  cbv zeta.
  replace (4 * q * (c + 1)) with (4 * (c * q + q)) by lia.
  apply (for_range_inv
    (fun j s => len s = len d /\
       forall p, getf s p = if (4 * q * c <=? p) && (p <? 4 * (c * q + j))
                            then f32_mul (getf d p) a else getf d p)).
  - lia.
  - split; [reflexivity|]. intros p.
    destruct (Z.leb_spec (4 * q * c) p), (Z.ltb_spec p (4 * (c * q + 0))); simpl; try reflexivity; lia.
  - intros j s Hj [Hls Hs].
    rewrite group_index_exact by (try assumption; nia).
    assert (0 <= c * q <= (nc m - 1) * q) by nia.
    split; [now rewrite len_setv|].
    intros p. unfold getv, lanewise, _mm_set1_ps.
    rewrite getf_setv by nia.
    rewrite !Hs.
    destruct (Z.eqb_spec p (4 * (c * q + j))) as [-> | N0].
    { destruct (Z.leb_spec (4 * q * c) (4 * (c * q + j))),
               (Z.ltb_spec (4 * (c * q + j)) (4 * (c * q + j))),
               (Z.ltb_spec (4 * (c * q + j)) (4 * (c * q + (j + 1)))); simpl; try reflexivity; lia. }
    destruct (Z.eqb_spec p (4 * (c * q + j) + 1)) as [-> | N1].
    { destruct (Z.leb_spec (4 * q * c) (4 * (c * q + j) + 1)),
               (Z.ltb_spec (4 * (c * q + j) + 1) (4 * (c * q + j))),
               (Z.ltb_spec (4 * (c * q + j) + 1) (4 * (c * q + (j + 1)))); simpl; try reflexivity; lia. }
    destruct (Z.eqb_spec p (4 * (c * q + j) + 2)) as [-> | N2].
    { destruct (Z.leb_spec (4 * q * c) (4 * (c * q + j) + 2)),
               (Z.ltb_spec (4 * (c * q + j) + 2) (4 * (c * q + j))),
               (Z.ltb_spec (4 * (c * q + j) + 2) (4 * (c * q + (j + 1)))); simpl; try reflexivity; lia. }
    destruct (Z.eqb_spec p (4 * (c * q + j) + 3)) as [-> | N3].
    { destruct (Z.leb_spec (4 * q * c) (4 * (c * q + j) + 3)),
               (Z.ltb_spec (4 * (c * q + j) + 3) (4 * (c * q + j))),
               (Z.ltb_spec (4 * (c * q + j) + 3) (4 * (c * q + (j + 1)))); simpl; try reflexivity; lia. }
    destruct (Z.leb_spec (4 * q * c) p),
             (Z.ltb_spec p (4 * (c * q + j))),
             (Z.ltb_spec p (4 * (c * q + (j + 1)))); simpl; try reflexivity; lia.
Qed.

Lemma set1_reciprocal (t : f32) :
  lanewise f32_div (_mm_set1_ps fone) (_mm_set1_ps t) = _mm_set1_ps (f32_div fone t).
Proof. reflexivity. Qed.

(** The whole of [row_normalise_inplace] on the lane buffer. *)
Lemma row_normalise_data :
  exists out,
    row_normalise_inplace size_bits (Some m) = Some (mkMat (nr m) q (nc m) out) /\
    len out = len D /\
    forall c k, 0 <= c < nc m -> 0 <= k < 4 * q ->
      getf out (4 * q * c + k)
      = f32_mul (getf D (4 * q * c + k)) (f32_div fone (column_total m c)).
Proof.
  destruct nrq_facts as (Hq & Hcq & Hqn & Hb & Hl).
  unfold row_normalise_inplace. fold q D.
  eexists. split; [reflexivity|].
  assert (Hnc : 0 <= nc m) by (destruct wf_m; lia).
  pose proof (for_range_inv
    (fun c s => len s = len D /\
       forall c' k, 0 <= c' < nc m -> 0 <= k < 4 * q ->
         getf s (4 * q * c' + k)
         = if c' <? c
           then f32_mul (getf D (4 * q * c' + k)) (f32_div fone (column_total m c'))
           else getf D (4 * q * c' + k))
    (fun col d =>
       let offset := to_size size_bits (int_mul col q) in
       let tsum := column_tsum size_bits d q
                     (padding_mask (int_sub (int_mul q 4) (nr m))) offset in
       let tsum_recip := lanewise f32_div (_mm_set1_ps fone) tsum in
       for_range 0 q (fun row d =>
         setv d (size_add size_bits offset row)
              (lanewise f32_mul (getv d (size_add size_bits offset row)) tsum_recip)) d)
    0 (nc m) D Hnc) as Hinv.
  cbv beta in Hinv.
  destruct Hinv as [Hlen Hout].
  - split; [reflexivity|]. intros c' k Hc' Hk.
    destruct (Z.ltb_spec c' 0); [lia | reflexivity].
  - intros c s Hc [Hls Hs]. cbv zeta.
    assert (Hagree : forall p, 4 * q * c <= p < 4 * q * (c + 1) -> getf s p = getf D p).
    { intros p Hp.
      replace p with (4 * q * c + (p - 4 * q * c)) by lia.
      rewrite Hs by lia. destruct (Z.ltb_spec c c); [lia | reflexivity]. }
    rewrite (column_tsum_spec s c Hc Hagree), set1_reciprocal.
    rewrite group_offset_exact by assumption.
    destruct (scale_groups s c (f32_div fone (column_total m c)) Hc Hls) as [Hl' Hs'].
    split; [now rewrite Hl'|].
    intros c' k Hc' Hk. rewrite Hs', Hs by assumption.
    destruct (Z.leb_spec (4 * q * c) (4 * q * c' + k)),
             (Z.ltb_spec (4 * q * c' + k) (4 * q * (c + 1))),
             (Z.ltb_spec c' c), (Z.ltb_spec c' (c + 1));
      cbn [andb]; try reflexivity; try nia.
    assert (c' = c) by nia. subst c'. reflexivity.
  - split; [exact Hlen|]. intros c k Hc Hk.
    rewrite Hout by assumption.
    destruct (Z.ltb_spec c (nc m)); [reflexivity | lia].
Qed.

(** With zero in the padding lanes nothing is subtracted. *)
Lemma column_total_zero_padding (c : Z) :
  0 <= c < nc m ->
  (forall r, nr m <= r < 4 * q -> getf D (4 * q * c + r) = fzero) ->
  column_total m c = unmasked_total m c.
Proof.
  intros Hc Hpad. destruct nrq_facts as (Hq & Hcq & _).
  unfold column_total, unmasked_total.
  assert (Hz : forall l, 0 <= l < 4 -> masked_padding m c l = fzero).
  { intros l Hl0. unfold masked_padding. fold q D.
    destruct (Z.leb_spec (nr m) (4 * (q - 1) + l)); [apply Hpad; lia | reflexivity]. }
  rewrite !Hz by lia. now rewrite !f32_sub_zero.
Qed.

End Normalise.

Lemma wf_sevens_clean : wf_matrix sevens_clean.
Proof. unfold wf_matrix, INT_MAX. vm_compute. intuition congruence. Defined.

Lemma wf_sevens_stale : wf_matrix sevens_stale.
Proof. unfold wf_matrix, INT_MAX. vm_compute. intuition congruence. Defined.

Lemma wf_column_overflow : wf_matrix column_overflow.
Proof. unfold wf_matrix, INT_MAX. vm_compute. intuition congruence. Defined.

(** ** Rounding to nearest: the error of one operation *)




Lemma digits2_pos_bounds (p : positive) :
  2 ^ (Zpos (digits2_pos p) - 1) <= Zpos p < 2 ^ Zpos (digits2_pos p).
Proof.
  induction p as [p IH|p IH|]; cbn [digits2_pos].
  - rewrite Pos2Z.inj_succ. replace (Z.succ (Zpos (digits2_pos p)) - 1) with (Zpos (digits2_pos p)) by lia.
    rewrite Z.pow_succ_r by lia.
    assert (2 ^ Zpos (digits2_pos p) = 2 * 2 ^ (Zpos (digits2_pos p) - 1)).
    { rewrite <- Z.pow_succ_r by lia. f_equal. lia. }
    lia.
  - rewrite Pos2Z.inj_succ. replace (Z.succ (Zpos (digits2_pos p)) - 1) with (Zpos (digits2_pos p)) by lia.
    rewrite Z.pow_succ_r by lia.
    assert (2 ^ Zpos (digits2_pos p) = 2 * 2 ^ (Zpos (digits2_pos p) - 1)).
    { rewrite <- Z.pow_succ_r by lia. f_equal. lia. }
    lia.
  - simpl. lia.
Qed.

Lemma Zdigits2_bounds (m : Z) :
  0 < m -> 0 < Zdigits2 m /\ 2 ^ (Zdigits2 m - 1) <= m < 2 ^ Zdigits2 m.
Proof.
  destruct m as [|p|p]; try lia. intros _. cbn [Zdigits2].
  split; [lia | apply digits2_pos_bounds].
Qed.

(** digits are determined by the binade *)
Lemma Zdigits2_unique (m d : Z) :
  0 < d -> 2 ^ (d - 1) <= m < 2 ^ d -> Zdigits2 m = d.
Proof.
  intros Hd Hm.
  assert (0 < m) by (pose proof (Z.pow_pos_nonneg 2 (d - 1)); lia).
  destruct (Zdigits2_bounds m H) as [Hp Hb].
  destruct (Z.lt_trichotomy (Zdigits2 m) d) as [Hlt | [Heq | Hgt]]; [|exact Heq|].
  - assert (2 ^ Zdigits2 m <= 2 ^ (d - 1)) by (apply Z.pow_le_mono_r; lia). lia.
  - assert (2 ^ d <= 2 ^ (Zdigits2 m - 1)) by (apply Z.pow_le_mono_r; lia). lia.
Qed.

Lemma iter_pos_inv {A : Type} (f : A -> A) (P : Z -> A -> Prop) :
  (forall k x, 0 <= k -> P k x -> P (k + 1) (f x)) ->
  forall p k x, 0 <= k -> P k x -> P (k + Zpos p) (iter_pos f p x).
Proof.
  intros Hstep. induction p as [p IH|p IH|]; intros k x Hk HP; cbn [iter_pos].
  - replace (k + Zpos p~1) with (k + 1 + Zpos p + Zpos p) by lia.
    apply IH; [lia|]. apply IH; [lia|]. now apply Hstep.
  - replace (k + Zpos p~0) with (k + Zpos p + Zpos p) by lia.
    apply IH; [lia|]. now apply IH.
  - now apply Hstep.
Qed.

Lemma shr_1_inv (mrs : shr_record) (N D : Z) :
  0 < D -> shr_inv mrs N D -> shr_inv (shr_1 mrs) N (2 * D).
Proof.
  intros HD. destruct mrs as [m r s]. unfold shr_inv. cbn [shr_m shr_r shr_s].
  intros (Hm & Hb & Hr & Hs).
  assert (Hrs : orb r s = true <-> N - m * D <> 0).
  { rewrite orb_true_iff, Hr, Hs. lia. }
  destruct m as [|[p|p|]|p]; try lia; cbn [shr_1 shr_m shr_r shr_s];
    (split; [lia|]); (split; [nia|]); (split; [split; [intros; try discriminate; nia | intros; try reflexivity; nia]|]);
    rewrite Hrs; nia.
Qed.

Lemma shr_record_of_loc_inv (mx : Z) (lx : location) (N D : Z) :
  0 <= mx -> 0 < D -> inloc mx lx N D -> shr_inv (shr_record_of_loc mx lx) N D.
Proof.
  intros Hm HD Hloc. unfold shr_inv.
  destruct lx as [|[| |]]; cbn [inloc] in Hloc; cbn [shr_record_of_loc shr_m shr_r shr_s].
  - subst N. repeat split; try lia; try discriminate.
  - destruct Hloc as [Hb Hc]. apply Z.compare_eq in Hc.
    repeat split; try lia; try discriminate.
  - destruct Hloc as [Hb Hc]. rewrite Z.compare_lt_iff in Hc.
    repeat split; try lia; try discriminate.
  - destruct Hloc as [Hb Hc]. rewrite Z.compare_gt_iff in Hc.
    repeat split; try lia; try discriminate.
Qed.

Lemma shr_inv_iter (p : positive) (mrs : shr_record) (N D : Z) :
  0 < D -> shr_inv mrs N D -> shr_inv (iter_pos shr_1 p mrs) N (D * 2 ^ Zpos p).
Proof.
  intros HD Hinv.
  assert (Hstep : forall k x, 0 <= k ->
            (fun k x => shr_inv x N (D * 2 ^ k)) k x ->
            (fun k x => shr_inv x N (D * 2 ^ k)) (k + 1) (shr_1 x)).
  { cbn beta. intros k x Hk Hx. rewrite Z.pow_add_r, Z.pow_1_r by lia.
    replace (D * (2 ^ k * 2)) with (2 * (D * 2 ^ k)) by lia.
    apply shr_1_inv; [pose proof (Z.pow_pos_nonneg 2 k); nia | exact Hx]. }
  pose proof (iter_pos_inv shr_1 (fun k x => shr_inv x N (D * 2 ^ k)) Hstep p 0 mrs) as H.
  cbn beta in H. rewrite Z.add_0_l in H.
  apply H; [lia|]. now rewrite Z.pow_0_r, Z.mul_1_r.
Qed.

Lemma round_nearest_even_inv (mrs : shr_record) (N D : Z) :
  0 < D -> shr_inv mrs N D ->
  let m := round_nearest_even (shr_m mrs) (loc_of_shr_record mrs) in
  shr_m mrs <= m <= shr_m mrs + 1 /\ 2 * Z.abs (m * D - N) <= D.
Proof.
  intros HD. destruct mrs as [m r s]. unfold shr_inv. cbn [shr_m shr_r shr_s].
  intros (Hm & Hb & Hr & Hs).
  destruct r, s; cbn [loc_of_shr_record round_nearest_even].
  - assert (D <= 2 * (N - m * D)) by now apply Hr.
    assert (2 * (N - m * D) <> D) by now apply Hs. split; lia.
  - assert (D <= 2 * (N - m * D)) by now apply Hr.
    destruct (Z.even m); split; lia.
  - assert (~ D <= 2 * (N - m * D)) by (intros H; apply Hr in H; discriminate).
    split; lia.
  - assert (~ D <= 2 * (N - m * D)) by (intros H; apply Hr in H; discriminate).
    split; lia.
Qed.

Lemma fexp32 (e : Z) : fexp 24 128 e = Z.max (e - 24) (-149).
Proof. reflexivity. Qed.

Lemma shr_nonpos (mrs : shr_record) (e n : Z) : n <= 0 -> shr mrs e n = (mrs, e).
Proof. destruct n; try reflexivity. lia. Qed.

Lemma shr_fexp_spec (mx ex : Z) (lx : location) (N D : Z) :
  0 <= mx -> 0 < D -> inloc mx lx N D ->
  ex <= fexp 24 128 (Zdigits2 mx + ex) ->
  exists mrs,
    shr_fexp 24 128 mx ex lx = (mrs, fexp 24 128 (Zdigits2 mx + ex)) /\
    shr_inv mrs N (D * 2 ^ (fexp 24 128 (Zdigits2 mx + ex) - ex)).
Proof.
  intros Hm HD Hloc Hex. unfold shr_fexp.
  pose proof (shr_record_of_loc_inv mx lx N D Hm HD Hloc) as Hinv.
  set (e' := fexp 24 128 (Zdigits2 mx + ex)) in *.
  destruct (e' - ex) as [|p|p] eqn:En; try lia.
  - exists (shr_record_of_loc mx lx). cbn [shr]. split; [f_equal; lia|].
    now rewrite Z.pow_0_r, Z.mul_1_r.
  - exists (iter_pos shr_1 p (shr_record_of_loc mx lx)). cbn [shr].
    split; [f_equal; lia|]. now apply shr_inv_iter.
Qed.

Lemma inloc_range (mx : Z) (lx : location) (N D : Z) :
  0 < D -> inloc mx lx N D -> mx * D <= N < (mx + 1) * D.
Proof. intros HD. destruct lx; cbn [inloc]; intros H; nia. Qed.

Lemma pow2_split (a b : Z) : 0 <= a -> 0 <= b -> 2 ^ (a + b) = 2 ^ a * 2 ^ b.
Proof. intros. now apply Z.pow_add_r. Qed.

Lemma binary_round_aux_spec (sx : bool) (mx ex : Z) (lx : location) (N D : Z) :
  0 <= mx -> 0 < D -> inloc mx lx N D ->
  ex <= fexp 24 128 (Zdigits2 mx + ex) ->
  exists m n,
    0 <= m < 2 ^ 24 /\ 0 <= n /\ -149 <= ex + n /\
    (ex + n = -149 \/ 2 ^ 23 <= m) /\
    2 * Z.abs (m * 2 ^ n * D - N) <= 2 ^ n * D /\
    binary_round_aux 24 128 sx mx ex lx
    = match m with
      | Z0 => S754_zero sx
      | Zpos p => if ex + n <=? 104 then S754_finite sx p (ex + n) else S754_infinity sx
      | Zneg _ => S754_nan
      end.
Proof.
  intros Hm HD Hloc Hex.
  destruct (shr_fexp_spec mx ex lx N D Hm HD Hloc Hex) as (mrs & Hshr & Hinv).
  unfold binary_round_aux. rewrite Hshr.
  remember (fexp 24 128 (Zdigits2 mx + ex)) as e' eqn:He'def.
  remember (e' - ex) as k eqn:Hkdef.
  assert (Hk : 0 <= k) by lia.
  assert (Hpk : 0 < 2 ^ k) by (apply Z.pow_pos_nonneg; lia).
  assert (HDk : 0 < D * 2 ^ k) by nia.
  destruct (round_nearest_even_inv mrs N (D * 2 ^ k) HDk Hinv) as [Hround Herr].
  set (m2 := round_nearest_even (shr_m mrs) (loc_of_shr_record mrs)) in *.
  pose proof (inloc_range mx lx N D HD Hloc) as Hrange.
  destruct Hinv as (Hm1 & Hb1 & _).
  set (m1 := shr_m mrs) in *.
  assert (Hm1x : m1 * 2 ^ k <= mx < (m1 + 1) * 2 ^ k) by nia.
  (* the size of the shifted mantissa *)
  assert (Hsize : (e' = -149 /\ m1 < 2 ^ 23) \/ (-149 <= e' /\ 2 ^ 23 <= m1 < 2 ^ 24)).
  { rewrite fexp32 in He'def.
    destruct (Z.eq_dec mx 0) as [-> | Hnz].
    - left. cbn [Zdigits2] in *. split; [lia|]. change (2 ^ 23) with 8388608. nia.
    - destruct (Zdigits2_bounds mx ltac:(lia)) as [Hd Hdb].
      set (d := Zdigits2 mx) in *.
      destruct (Z.max_spec (d + ex - 24) (-149)) as [[Hlt Hmax] | [Hge Hmax]].
      + left. split; [lia|].
        assert (Hkd : k = -149 - ex) by lia.
        assert (d <= k + 23) by lia.
        assert (2 ^ d <= 2 ^ (k + 23)) by (apply Z.pow_le_mono_r; lia).
        rewrite pow2_split in H0 by lia. nia.
      + right. split; [lia|].
        assert (Hkd : k = d - 24) by lia.
        assert (Hd1 : 2 ^ (d - 1) = 2 ^ k * 2 ^ 23).
        { rewrite <- pow2_split by lia. f_equal. lia. }
        assert (Hd2 : 2 ^ d = 2 ^ k * 2 ^ 24).
        { rewrite <- pow2_split by lia. f_equal. lia. }
        change (2 ^ 23) with 8388608 in *. change (2 ^ 24) with 16777216 in *. nia. }
  assert (He' : -149 <= e') by (destruct Hsize; lia).
  change (2 ^ 23) with 8388608 in *. change (2 ^ 24) with 16777216.
  destruct (Z.eq_dec m2 16777216) as [Hcarry | Hnocarry].
  - (* the rounding carried into the next binade *)
    exists 8388608, (k + 1).
    assert (Hshr2 : shr_fexp 24 128 m2 e' loc_Exact
                    = ({| shr_m := 8388608; shr_r := false; shr_s := false |}, e' + 1)).
    { rewrite Hcarry. unfold shr_fexp. rewrite fexp32. cbn [Zdigits2 digits2_pos Pos.succ].
      replace (Z.max (25 + e' - 24) (-149) - e') with 1 by lia. reflexivity. }
    rewrite Hshr2. cbn [shr_m].
    replace (ex + (k + 1)) with (e' + 1) by lia.
    split; [lia|]. split; [lia|]. split; [lia|]. split; [right; lia|]. split.
    + rewrite Z.pow_add_r, Z.pow_1_r by lia. rewrite Hcarry in Herr. nia.
    + reflexivity.
  - exists m2, k.
    assert (Hm2 : 0 <= m2 < 16777216) by (destruct Hsize; lia).
    assert (Hshr2 : shr_fexp 24 128 m2 e' loc_Exact
                    = ({| shr_m := m2; shr_r := false; shr_s := false |}, e')).
    { unfold shr_fexp. cbn [shr_record_of_loc]. apply shr_nonpos. rewrite fexp32.
      destruct (Z.eq_dec m2 0) as [-> | Hnz2]; [cbn [Zdigits2]; lia|].
      destruct (Zdigits2_bounds m2 ltac:(lia)) as [Hd Hdb].
      assert (Zdigits2 m2 <= 24).
      { destruct (Z.le_gt_cases (Zdigits2 m2) 24) as [Hle | Hgt]; [exact Hle|].
        assert (2 ^ 24 <= 2 ^ (Zdigits2 m2 - 1)) by (apply Z.pow_le_mono_r; lia).
        change (2 ^ 24) with 16777216 in *. lia. }
      destruct Hsize as [[He Hs] | [He Hs]]; [lia|].
      assert (Zdigits2 m2 = 24).
      { apply Zdigits2_unique; [lia|]. change (2 ^ (24 - 1)) with 8388608.
        change (2 ^ 24) with 16777216. lia. }
      lia. }
    rewrite Hshr2. cbn [shr_m].
    replace (ex + k) with e' by lia.
    split; [lia|]. split; [lia|]. split; [lia|]. split.
    + destruct Hsize as [[He Hs] | [He Hs]]; [left; exact He | right; lia].
    + split; [|reflexivity].
      replace (m2 * 2 ^ k * D) with (m2 * (D * 2 ^ k)) by lia.
      replace (2 ^ k * D) with (D * 2 ^ k) by lia. exact Herr.
Qed.




Lemma bounded_facts (m : positive) (e : Z) :
  bounded 24 128 m e = true ->
  -149 <= e <= 104 /\ Zpos (digits2_pos m) <= 24 /\
  (e = -149 \/ Zpos (digits2_pos m) = 24) /\ Zpos m < 2 ^ 24.
Proof.
  unfold bounded, canonical_mantissa. rewrite fexp32. intros H.
  apply andb_prop in H as [Hc He]. apply Z.eqb_eq in Hc. apply Z.leb_le in He.
  change (128 - 24) with 104 in He.
  assert (Hd : Zpos (digits2_pos m) <= 24) by lia.
  repeat split; try lia.
  pose proof (digits2_pos_bounds m) as [_ Hb].
  assert (2 ^ Zpos (digits2_pos m) <= 2 ^ 24) by (apply Z.pow_le_mono_r; lia). lia.
Qed.

Lemma bounded_intro (m : positive) (e : Z) :
  Zpos m < 2 ^ 24 -> -149 <= e <= 104 -> (e = -149 \/ 2 ^ 23 <= Zpos m) ->
  bounded 24 128 m e = true.
Proof.
  intros Hm He Hn. unfold bounded, canonical_mantissa. rewrite fexp32.
  apply andb_true_intro. split; [|apply Z.leb_le; change (128 - 24) with 104; lia].
  apply Z.eqb_eq.
  pose proof (digits2_pos_bounds m) as [Hlo Hhi].
  assert (Hd : Zpos (digits2_pos m) <= 24).
  { destruct (Z.le_gt_cases (Zpos (digits2_pos m)) 24) as [Hle | Hgt]; [exact Hle|].
    assert (2 ^ 24 <= 2 ^ (Zpos (digits2_pos m) - 1)) by (apply Z.pow_le_mono_r; lia). lia. }
  destruct Hn as [-> | Hn]; [lia|].
  assert (Zpos (digits2_pos m) = 24).
  { destruct (Z.le_gt_cases 24 (Zpos (digits2_pos m))) as [Hle | Hgt]; [lia|].
    assert (2 ^ Zpos (digits2_pos m) <= 2 ^ 23) by (apply Z.pow_le_mono_r; lia). lia. }
  lia.
Qed.

Lemma pos_iter_xO (d : positive) : forall m, Zpos (Pos.iter xO m d) = Zpos m * 2 ^ Zpos d.
Proof.
  induction d as [|d IH] using Pos.peano_ind; intros m.
  - cbn [Pos.iter]. rewrite Z.pow_1_r. lia.
  - rewrite Pos.iter_succ, Pos2Z.inj_succ, Z.pow_succ_r by lia.
    rewrite Pos2Z.inj_xO, IH. lia.
Qed.

Lemma shl_align_spec (mx : positive) (ex ex' : Z) :
  exists mz,
    shl_align mx ex ex' = (mz, Z.min ex ex') /\
    Zpos mz = Zpos mx * 2 ^ (ex - Z.min ex ex').
Proof.
  unfold shl_align. destruct (ex' - ex) as [|p|p] eqn:E.
  - exists mx. rewrite Z.min_l by lia. rewrite Z.sub_diag. split; [reflexivity | simpl; lia].
  - exists mx. rewrite Z.min_l by lia. rewrite Z.sub_diag. split; [reflexivity | simpl; lia].
  - exists (Pos.iter xO mx p). rewrite Z.min_r by lia. split; [reflexivity|].
    rewrite pos_iter_xO. f_equal. f_equal. lia.
Qed.

Lemma Zdigits2_shift (m k : Z) : 0 < m -> 0 <= k -> Zdigits2 (m * 2 ^ k) = Zdigits2 m + k.
Proof.
  intros Hm Hk. destruct (Zdigits2_bounds m Hm) as [Hd Hb].
  apply Zdigits2_unique; [lia|].
  replace (Zdigits2 m + k - 1) with (Zdigits2 m - 1 + k) by lia.
  rewrite !Z.pow_add_r by lia.
  assert (0 < 2 ^ k) by (apply Z.pow_pos_nonneg; lia). nia.
Qed.

(** Rounding a positive integer mantissa *)
Lemma binary_round_spec (mx : positive) (ex : Z) :
  -149 <= ex ->
  exists m e,
    0 <= m < 2 ^ 24 /\ -149 <= e /\ (e = -149 \/ 2 ^ 23 <= m) /\
    2 * Z.abs (m * 2 ^ (e + 149) - Zpos mx * 2 ^ (ex + 149)) <= 2 ^ (e + 149) /\
    binary_round 24 128 false mx ex
    = match m with
      | Z0 => S754_zero false
      | Zpos p => if e <=? 104 then S754_finite false p e else S754_infinity false
      | Zneg _ => S754_nan
      end.
Proof.
  intros Hex. unfold binary_round.
  destruct (shl_align_spec mx ex (fexp 24 128 (Zpos (digits2_pos mx) + ex)))
    as (mz & Hal & Hmz).
  rewrite Hal.
  set (f := fexp 24 128 (Zpos (digits2_pos mx) + ex)) in *.
  assert (Hf : -149 <= f) by (unfold f; rewrite fexp32; lia).
  set (ez := Z.min ex f) in *.
  assert (Hez : -149 <= ez <= ex) by (unfold ez; lia).
  assert (Hpre : ez <= fexp 24 128 (Zdigits2 (Zpos mz) + ez)).
  { rewrite Hmz, Zdigits2_shift by lia. cbn [Zdigits2].
    replace (Zpos (digits2_pos mx) + (ex - ez) + ez) with (Zpos (digits2_pos mx) + ex) by lia.
    fold f. unfold ez. lia. }
  destruct (binary_round_aux_spec false (Zpos mz) ez loc_Exact (Zpos mz) 1
              ltac:(lia) ltac:(lia) ltac:(cbn [inloc]; lia) Hpre)
    as (m & n & Hm & Hn & He & Hnorm & Herr & Heq).
  exists m, (ez + n). split; [exact Hm|]. split; [exact He|]. split; [exact Hnorm|].
  split; [|exact Heq].
  rewrite Z.mul_1_r in Herr. rewrite Z.mul_1_r in Herr.
  assert (Hp : 0 < 2 ^ (ez + 149)) by (apply Z.pow_pos_nonneg; lia).
  replace (ez + n + 149) with (n + (ez + 149)) by lia.
  replace (ex + 149) with ((ex - ez) + (ez + 149)) by lia.
  rewrite (Z.pow_add_r 2 n (ez + 149)), (Z.pow_add_r 2 (ex - ez) (ez + 149)) by lia.
  replace (Zpos mx * (2 ^ (ex - ez) * 2 ^ (ez + 149)))
    with (Zpos mz * 2 ^ (ez + 149)) by (rewrite Hmz; lia).
  replace (m * (2 ^ n * 2 ^ (ez + 149)) - Zpos mz * 2 ^ (ez + 149))
    with ((m * 2 ^ n - Zpos mz) * 2 ^ (ez + 149)) by lia.
  rewrite Z.abs_mul, (Z.abs_eq (2 ^ (ez + 149))) by lia. nia.
Qed.


Lemma nonneg_units (x : f32) : nonneg_float x = true -> 0 <= f32_units x.
Proof.
  destruct x as [[]| | |[] m e]; cbn [nonneg_float f32_units]; try discriminate; lia.
Qed.

Lemma round_result_good (m e : Z) :
  0 <= m < 2 ^ 24 -> -149 <= e -> (e = -149 \/ 2 ^ 23 <= m) ->
  let r := match m with
           | Z0 => S754_zero false
           | Zpos p => if e <=? 104 then S754_finite false p e else S754_infinity false
           | Zneg _ => S754_nan
           end in
  (r = S754_infinity false /\ 104 < e /\ 2 ^ 23 <= m) \/
  (nonneg_float r = true /\ f32_units r = m * 2 ^ (e + 149)).
Proof.
  intros Hm He Hn. destruct m as [|p|p]; try lia.
  - right. split; reflexivity.
  - destruct (Z.leb_spec e 104).
    + right. split; [|reflexivity]. cbn [nonneg_float]. apply bounded_intro; lia.
    + left. repeat split; lia.
Qed.

Lemma SFadd_nonneg (a b : f32) :
  nonneg_float a = true -> nonneg_float b = true ->
  SFadd 24 128 a b = S754_infinity false \/
  (nonneg_float (SFadd 24 128 a b) = true /\
   2 ^ 24 * Z.abs (f32_units (SFadd 24 128 a b) - (f32_units a + f32_units b))
   <= f32_units (SFadd 24 128 a b)).
Proof.
  intros Ha Hb.
  destruct a as [[]| | |[] ma ea]; try discriminate;
  destruct b as [[]| | |[] mb eb]; try discriminate.
  - right. split; [reflexivity|]. cbn. lia.
  - right. cbn [SFadd]. split; [exact Hb|].
    pose proof (nonneg_units _ Hb). cbn [f32_units] in *.
    replace (Zpos mb * 2 ^ (eb + 149) - (0 + Zpos mb * 2 ^ (eb + 149))) with 0 by lia.
    simpl Z.abs. lia.
  - right. cbn [SFadd]. split; [exact Ha|].
    pose proof (nonneg_units _ Ha). cbn [f32_units] in *.
    replace (Zpos ma * 2 ^ (ea + 149) - (Zpos ma * 2 ^ (ea + 149) + 0)) with 0 by lia.
    simpl Z.abs. lia.
  - cbn [nonneg_float] in Ha, Hb.
    apply bounded_facts in Ha. apply bounded_facts in Hb.
    cbn [SFadd cond_Zopp].
    destruct (shl_align_spec ma ea (Z.min ea eb)) as (ma' & Hala & Hma').
    destruct (shl_align_spec mb eb (Z.min ea eb)) as (mb' & Halb & Hmb').
    rewrite Hala, Halb. cbn [fst].
    replace (Z.min ea (Z.min ea eb)) with (Z.min ea eb) in Hma' by lia.
    replace (Z.min eb (Z.min ea eb)) with (Z.min ea eb) in Hmb' by lia.
    set (ez := Z.min ea eb) in *.
    assert (Hez : -149 <= ez /\ ez <= ea /\ ez <= eb) by (unfold ez; lia).
    change (Zpos ma' + Zpos mb') with (Zpos (ma' + mb')).
    cbn [binary_normalize].
    destruct (binary_round_spec (ma' + mb') ez ltac:(lia))
      as (m & e & Hm & He & Hn & Herr & Heq).
    rewrite Heq.
    assert (Hsum : Zpos (ma' + mb') * 2 ^ (ez + 149)
                   = Zpos ma * 2 ^ (ea + 149) + Zpos mb * 2 ^ (eb + 149)).
    { rewrite Pos2Z.inj_add, Hma', Hmb'.
      replace (ea + 149) with ((ea - ez) + (ez + 149)) by lia.
      replace (eb + 149) with ((eb - ez) + (ez + 149)) by lia.
      rewrite (Z.pow_add_r 2 (ea - ez) (ez + 149)), (Z.pow_add_r 2 (eb - ez) (ez + 149)) by lia.
      lia. }
    rewrite Hsum in Herr.
    destruct (round_result_good m e Hm He Hn) as [(Hinf & _) | (Hgood & Hu)];
      [left; exact Hinf | right].
    split; [exact Hgood|]. cbn [f32_units]. 
    cbv zeta in Hu. rewrite Hu.
    assert (Hp : 0 < 2 ^ (e + 149)) by (apply Z.pow_pos_nonneg; lia).
    destruct Hn as [-> | Hn].
    + change (2 ^ (-149 + 149)) with 1 in *.
      assert (Z.abs (m * 1 - (Zpos ma * 2 ^ (ea + 149) + Zpos mb * 2 ^ (eb + 149))) = 0) by lia.
      rewrite H.
      assert (0 < 2 ^ (ea + 149)) by (apply Z.pow_pos_nonneg; lia). nia.
    + change (2 ^ 24) with 16777216 in *. change (2 ^ 23) with 8388608 in *. nia.
Qed.

Lemma Zdigits2_lower (m k : Z) : 0 <= k -> 2 ^ k <= m -> k + 1 <= Zdigits2 m.
Proof.
  intros Hk Hm. assert (0 < 2 ^ k) by (apply Z.pow_pos_nonneg; lia).
  destruct (Zdigits2_bounds m ltac:(lia)) as [Hd Hb].
  destruct (Z.le_gt_cases (k + 1) (Zdigits2 m)) as [Hle | Hgt]; [exact Hle|].
  assert (2 ^ Zdigits2 m <= 2 ^ k) by (apply Z.pow_le_mono_r; lia). lia.
Qed.

Lemma Zdigits2_mul (a b : positive) :
  Zpos (digits2_pos a) + Zpos (digits2_pos b) - 1 <= Zpos (digits2_pos (a * b)).
Proof.
  pose proof (digits2_pos_bounds a) as [Ha _].
  pose proof (digits2_pos_bounds b) as [Hb _].
  set (da := Zpos (digits2_pos a)) in *. set (db := Zpos (digits2_pos b)) in *.
  assert (Hda : 1 <= da) by (unfold da; lia).
  assert (Hdb : 1 <= db) by (unfold db; lia).
  assert (H : 2 ^ (da + db - 2) <= Zpos (a * b)).
  { replace (da + db - 2) with ((da - 1) + (db - 1)) by lia.
    rewrite Z.pow_add_r, Pos2Z.inj_mul by lia.
    assert (0 < 2 ^ (da - 1)) by (apply Z.pow_pos_nonneg; lia).
    assert (0 < 2 ^ (db - 1)) by (apply Z.pow_pos_nonneg; lia). nia. }
  apply Zdigits2_lower in H; [|lia]. cbn [Zdigits2] in H. lia.
Qed.

Lemma SFmul_nonneg (x r : f32) :
  nonneg_float x = true -> nonneg_float r = true ->
  (SFmul 24 128 x r = S754_infinity false /\ 2 ^ 425 <= f32_units x * f32_units r) \/
  (nonneg_float (SFmul 24 128 x r) = true /\
   (2 * Z.abs (f32_units (SFmul 24 128 x r) * 2 ^ 149 - f32_units x * f32_units r)
      <= 2 ^ 149 \/
    2 ^ 24 * Z.abs (f32_units (SFmul 24 128 x r) * 2 ^ 149 - f32_units x * f32_units r)
      <= f32_units (SFmul 24 128 x r) * 2 ^ 149)).
Proof.
  intros Hx Hr.
  destruct x as [[]| | |[] mx ex]; try discriminate;
  destruct r as [[]| | |[] mr er]; try discriminate;
    try (right; split; [reflexivity|]; left; cbn [SFmul xorb f32_units];
         rewrite ?Z.mul_0_l, ?Z.mul_0_r; simpl; lia).
  cbn [nonneg_float] in Hx, Hr.
  apply bounded_facts in Hx. apply bounded_facts in Hr.
  cbn [SFmul xorb].
  pose proof (Zdigits2_mul mx mr) as Hdig.
  assert (Hpre : ex + er <= fexp 24 128 (Zdigits2 (Zpos (mx * mr)) + (ex + er))).
  { rewrite fexp32. cbn [Zdigits2]. lia. }
  destruct (binary_round_aux_spec false (Zpos (mx * mr)) (ex + er) loc_Exact
              (Zpos (mx * mr)) 1 ltac:(lia) ltac:(lia) ltac:(cbn [inloc]; lia) Hpre)
    as (m & n & Hm & Hn & He & Hnorm & Herr & Heq).
  rewrite Heq. rewrite !Z.mul_1_r in Herr.
  set (e := ex + er + n) in *.
  assert (Hp : 0 < 2 ^ (ex + er + 298)) by (apply Z.pow_pos_nonneg; lia).
  assert (Hprod : f32_units (S754_finite false mx ex) * f32_units (S754_finite false mr er)
                  = Zpos (mx * mr) * 2 ^ (ex + er + 298)).
  { cbn [f32_units]. rewrite Pos2Z.inj_mul.
    replace (ex + er + 298) with ((ex + 149) + (er + 149)) by lia.
    rewrite (Z.pow_add_r 2 (ex + 149) (er + 149)) by lia. lia. }
  rewrite Hprod.
  assert (He2 : 2 ^ (e + 149) * 2 ^ 149 = 2 ^ n * 2 ^ (ex + er + 298)).
  { rewrite <- !Z.pow_add_r by lia. f_equal. unfold e. lia. }
  assert (Hbound : 2 * Z.abs (m * 2 ^ (e + 149) * 2 ^ 149 - Zpos (mx * mr) * 2 ^ (ex + er + 298))
                   <= 2 ^ (e + 149) * 2 ^ 149).
  { replace (m * 2 ^ (e + 149) * 2 ^ 149) with (m * (2 ^ (e + 149) * 2 ^ 149)) by lia.
    rewrite He2.
    replace (m * (2 ^ n * 2 ^ (ex + er + 298)) - Zpos (mx * mr) * 2 ^ (ex + er + 298))
      with ((m * 2 ^ n - Zpos (mx * mr)) * 2 ^ (ex + er + 298)) by lia.
    rewrite Z.abs_mul, (Z.abs_eq (2 ^ (ex + er + 298))) by lia. nia. }
  assert (Hpe : 0 < 2 ^ (e + 149)) by (apply Z.pow_pos_nonneg; lia).
  destruct (round_result_good m e Hm He Hnorm) as [(Hinf & Hbig & Hm23) | (Hgood & Hu)].
  - left. split; [exact Hinf|].
    assert (H403 : 2 ^ 403 <= 2 ^ (e + 149) * 2 ^ 149).
    { rewrite <- Z.pow_add_r by lia. apply Z.pow_le_mono_r; lia. }
    change (2 ^ 425) with (4194304 * 2 ^ 403).
    change (2 ^ 23) with 8388608 in Hm23. nia.
  - right. split; [exact Hgood|]. cbv zeta in Hu. rewrite Hu.
    destruct Hnorm as [He149 | Hm23].
    + left. rewrite He149 in Hbound |- *. change (2 ^ (-149 + 149)) with 1 in *.
      rewrite Z.mul_1_l in Hbound. exact Hbound.
    + right. change (2 ^ 24) with 16777216. change (2 ^ 23) with 8388608 in Hm23.
      assert (0 < 2 ^ 149) by (apply Z.pow_pos_nonneg; lia). nia.
Qed.

Lemma new_location_inloc (q r N D : Z) :
  0 < D -> N = D * q + r -> 0 <= r < D -> inloc q (new_location D r) N D.
Proof.
  intros HD HN Hr. unfold new_location.
  destruct (Z.even D) eqn:Heven.
  - unfold new_location_even. destruct (Z.eqb_spec r 0) as [-> | Hnz]; cbn [inloc].
    + lia.
    + split; [nia|]. f_equal. lia.
  - unfold new_location_odd. destruct (Z.eqb_spec r 0) as [-> | Hnz]; cbn [inloc].
    + lia.
    + split; [nia|].
      replace (2 * (N - q * D)) with (2 * r) by lia.
      assert (Hodd : Z.odd D = true) by (rewrite <- Z.negb_even, Heven; reflexivity).
      apply Z.odd_spec in Hodd as [k Hk].
      destruct (Z.compare_spec (2 * r + 1) D) as [He | Hl | Hg].
      * apply Z.compare_lt_iff. lia.
      * apply Z.compare_lt_iff. lia.
      * apply Z.compare_gt_iff. lia.
Qed.


Lemma SFdiv_one (t : f32) :
  nonneg_float t = true -> 0 < f32_units t ->
  SFdiv 24 128 fone t = S754_infinity false \/
  (nonneg_float (SFdiv 24 128 fone t) = true /\
   (2 * Z.abs (f32_units (SFdiv 24 128 fone t) * f32_units t - 2 ^ 298) <= f32_units t \/
    2 ^ 24 * Z.abs (f32_units (SFdiv 24 128 fone t) * f32_units t - 2 ^ 298)
      <= f32_units (SFdiv 24 128 fone t) * f32_units t)).
Proof.
  intros Ht Hpos.
  destruct t as [[]| | |[] mt et]; cbn [nonneg_float f32_units] in Ht, Hpos;
    try discriminate; try lia.
  apply bounded_facts in Ht.
  destruct Ht as (Het & Hd24 & Hcanon & Hmt).
  pose proof (digits2_pos_bounds mt) as [Hdlo Hdhi].
  set (d2 := Zpos (digits2_pos mt)) in *.
  assert (Hd2 : 1 <= d2) by (unfold d2; lia).
  unfold fone. cbn [SFdiv xorb]. unfold SFdiv_core_binary.
  change (Zdigits2 (Zpos 8388608)) with 24. cbn [Zdigits2]. fold d2.
  rewrite fexp32.
  remember (Z.min (Z.max (24 + -23 - (d2 + et) - 24) (-149)) (-23 - et)) as e' eqn:He'def.
  remember (-23 - et - e') as s eqn:Hsdef.
  assert (He' : -149 <= e') by lia.
  assert (Hs : 1 <= s) by lia.
  assert (Hsd : 0 <= 23 + s - d2) by lia.
  assert (Hm' : match s with
                | 0 => 8388608
                | Zpos _ => Z.shiftl 8388608 s
                | Zneg _ => 0
                end = 8388608 * 2 ^ s).
  { destruct s as [|ps|ps]; try lia. apply Z.shiftl_mul_pow2. lia. }
  rewrite Hm'.
  assert (Hps : 0 < 2 ^ s) by (apply Z.pow_pos_nonneg; lia).
  pose proof (Z_div_mod (8388608 * 2 ^ s) (Zpos mt) ltac:(lia)) as Hdiv.
  destruct (Z.div_eucl (8388608 * 2 ^ s) (Zpos mt)) as [q r].
  destruct Hdiv as [Hqr Hr].
  (* the quotient has enough digits *)
  assert (Hq : 2 ^ (23 + s - d2) <= q).
  { assert (H1 : 8388608 * 2 ^ s = 2 ^ (23 + s - d2) * 2 ^ d2).
    { rewrite <- Z.pow_add_r by lia. change 8388608 with (2 ^ 23).
      rewrite <- Z.pow_add_r by lia. f_equal. lia. }
    assert (0 < 2 ^ (23 + s - d2)) by (apply Z.pow_pos_nonneg; lia).
    nia. }
  assert (Hdq : 24 + s - d2 <= Zdigits2 q).
  { apply Zdigits2_lower in Hq; lia. }
  assert (Hq0 : 0 <= q) by (pose proof (Z.pow_pos_nonneg 2 (23 + s - d2)); lia).
  assert (Hpre : e' <= fexp 24 128 (Zdigits2 q + e')).
  { rewrite fexp32. lia. }
  destruct (binary_round_aux_spec false q e' (new_location (Zpos mt) r)
              (8388608 * 2 ^ s) (Zpos mt) Hq0 ltac:(lia)
              (new_location_inloc q r (8388608 * 2 ^ s) (Zpos mt) ltac:(lia) Hqr Hr) Hpre)
    as (m & n & Hm & Hn & He & Hnorm & Herr & Heq).
  rewrite Heq.
  remember (e' + n) as e eqn:Hedef.
  remember (e' + et + 298) as p eqn:Hpdef.
  assert (Hp : 0 <= p) by lia.
  assert (Hpp : 0 < 2 ^ p) by (apply Z.pow_pos_nonneg; lia).
  assert (H298 : 2 ^ 298 = 8388608 * 2 ^ s * 2 ^ p).
  { change 8388608 with (2 ^ 23). rewrite <- !Z.pow_add_r by lia. f_equal. lia. }
  assert (Hut : f32_units (S754_finite false mt et) = Zpos mt * 2 ^ (et + 149))
    by reflexivity.
  assert (Hscale : 2 ^ (e + 149) * 2 ^ (et + 149) = 2 ^ n * 2 ^ p).
  { rewrite <- !Z.pow_add_r by lia. f_equal. lia. }
  assert (Hpe : 0 < 2 ^ (e + 149)) by (apply Z.pow_pos_nonneg; lia).
  assert (Hpt : 0 < 2 ^ (et + 149)) by (apply Z.pow_pos_nonneg; lia).
  assert (Hbound : 2 * Z.abs (m * 2 ^ (e + 149) * (Zpos mt * 2 ^ (et + 149)) - 2 ^ 298)
                   <= 2 ^ (e + 149) * (Zpos mt * 2 ^ (et + 149))).
  { replace (m * 2 ^ (e + 149) * (Zpos mt * 2 ^ (et + 149)))
      with (m * Zpos mt * (2 ^ (e + 149) * 2 ^ (et + 149))) by lia.
    replace (2 ^ (e + 149) * (Zpos mt * 2 ^ (et + 149)))
      with (Zpos mt * (2 ^ (e + 149) * 2 ^ (et + 149))) by lia.
    rewrite Hscale, H298.
    replace (m * Zpos mt * (2 ^ n * 2 ^ p) - 8388608 * 2 ^ s * 2 ^ p)
      with ((m * 2 ^ n * Zpos mt - 8388608 * 2 ^ s) * 2 ^ p) by lia.
    rewrite Z.abs_mul, (Z.abs_eq (2 ^ p)) by lia. nia. }
  destruct (round_result_good m e Hm He Hnorm) as [(Hinf & _) | (Hgood & Hu)];
    [left; exact Hinf | right].
  split; [exact Hgood|]. cbv zeta in Hu. rewrite Hu, Hut.
  destruct Hnorm as [He149 | Hm23].
  - left. rewrite He149 in Hbound |- *. change (2 ^ (-149 + 149)) with 1 in *.
    rewrite Z.mul_1_l in Hbound. exact Hbound.
  - right. change (2 ^ 24) with 16777216. change (2 ^ 23) with 8388608 in Hm23.
    nia.
Qed.

(** ** The accumulated error of a sum *)

Lemma near_refl (T : Z) : near 0 T T.
Proof. unfold near. rewrite !Z.pow_0_r. lia. Qed.

Lemma near_add (k A B SA SB : Z) :
  near k A SA -> near k B SB -> near k (A + B) (SA + SB).
Proof. unfold near. intros [H1 H2] [H3 H4]. split; nia. Qed.

Lemma near_step (k AB C S : Z) :
  0 <= k -> 0 <= C -> near k AB S ->
  16777216 * Z.abs (C - AB) <= C ->
  near (k + 1) C S.
Proof.
  unfold near. intros Hk HC [H1 H2] Herr.
  rewrite !Z.pow_add_r, !Z.pow_1_r by lia.
  assert (P1 : 0 < 16777215 ^ k) by (apply Z.pow_pos_nonneg; lia).
  assert (P2 : 0 < 16777216 ^ k) by (apply Z.pow_pos_nonneg; lia).
  assert (P3 : 0 < 16777217 ^ k) by (apply Z.pow_pos_nonneg; lia).
  assert (Hlo : C * 16777215 <= AB * 16777216) by lia.
  assert (Hhi : AB * 16777216 <= C * 16777217) by lia.
  split.
  - apply Z.le_trans with (AB * 16777216 * 16777215 ^ k); [nia|].
    replace (AB * 16777216 * 16777215 ^ k) with (16777216 * (AB * 16777215 ^ k)) by lia.
    replace (S * (16777216 ^ k * 16777216)) with (16777216 * (S * 16777216 ^ k)) by lia.
    lia.
  - apply Z.le_trans with (AB * 16777216 * 16777217 ^ k); [|nia].
    replace (AB * 16777216 * 16777217 ^ k) with (16777216 * (AB * 16777217 ^ k)) by lia.
    replace (S * (16777216 ^ k * 16777216)) with (16777216 * (S * 16777216 ^ k)) by lia.
    lia.
Qed.

Lemma near_succ (k T S : Z) : 0 <= k -> 0 <= T -> near k T S -> near (k + 1) T S.
Proof.
  intros Hk HT Hn. apply (near_step k T T S Hk HT Hn).
  rewrite Z.sub_diag. simpl. lia.
Qed.

Lemma near_mono (k k' T S : Z) :
  0 <= k <= k' -> 0 <= T -> near k T S -> near k' T S.
Proof.
  intros Hk HT Hn.
  replace k' with (k + Z.of_nat (Z.to_nat (k' - k))) by lia.
  induction (Z.to_nat (k' - k)) as [|n IH].
  - now rewrite Z.add_0_r.
  - rewrite Nat2Z.inj_succ.
    replace (k + Z.succ (Z.of_nat n)) with (k + Z.of_nat n + 1) by lia.
    apply near_succ; [lia | exact HT | exact IH].
Qed.

Lemma near_nonneg (k T S : Z) : 0 <= k -> 0 <= T -> near k T S -> 0 <= S.
Proof.
  unfold near. intros Hk HT [H1 _].
  assert (P1 : 0 < 16777215 ^ k) by (apply Z.pow_pos_nonneg; lia).
  assert (P2 : 0 < 16777216 ^ k) by (apply Z.pow_pos_nonneg; lia).
  nia.
Qed.

Lemma f32_add_posinf (a b : f32) :
  (a = S754_infinity false \/ nonneg_float a = true) ->
  (b = S754_infinity false \/ nonneg_float b = true) ->
  f32_add a b = S754_infinity false \/
  (nonneg_float a = true /\ nonneg_float b = true /\
   nonneg_float (f32_add a b) = true /\
   16777216 * Z.abs (f32_units (f32_add a b) - (f32_units a + f32_units b))
   <= f32_units (f32_add a b)).
Proof.
  intros [-> | Ha] [-> | Hb].
  - left. reflexivity.
  - left. destruct b as [[]| | |[] mb eb]; try discriminate; reflexivity.
  - left. destruct a as [[]| | |[] ma ea]; try discriminate; reflexivity.
  - destruct (SFadd_nonneg a b Ha Hb) as [Hinf | [Hgood Herr]];
      [left; exact Hinf | right; auto].
Qed.

Lemma for_count_snoc {S : Type} (body : Z -> S -> S) (n : nat) :
  forall lo s,
    for_count (Datatypes.S n) lo body s
    = body (lo + Z.of_nat n) (for_count n lo body s).
Proof.
  induction n as [|n IH]; intros lo s.
  - cbn [for_count]. now rewrite Z.add_0_r.
  - change (for_count (Datatypes.S (Datatypes.S n)) lo body s)
      with (for_count (Datatypes.S n) (lo + 1) body (body lo s)).
    rewrite IH. cbn [for_count]. f_equal. lia.
Qed.

Lemma lane_sum_one (d : list f32) (base l : Z) :
  lane_sum d 1 base l = getf d (base + l).
Proof. reflexivity. Qed.

Lemma lane_sum_succ (d : list f32) (n base l : Z) :
  1 <= n ->
  lane_sum d (n + 1) base l
  = f32_add (lane_sum d n base l) (getf d (base + 4 * n + l)).
Proof.
  intros Hn. unfold lane_sum, for_range.
  replace (Z.to_nat (n + 1 - 1)) with (Datatypes.S (Z.to_nat (n - 1))) by lia.
  rewrite for_count_snoc. do 3 f_equal. lia.
Qed.

Lemma sumZ_ext (f g : Z -> Z) (n : nat) :
  (forall i, 0 <= i < Z.of_nat n -> f i = g i) -> sumZ f n = sumZ g n.
Proof.
  induction n as [|n IH]; intros H; cbn [sumZ]; [reflexivity|].
  rewrite IH by (intros i Hi; apply H; lia). f_equal. apply H. lia.
Qed.

Lemma sumZ_zero_tail (f : Z -> Z) (n k : nat) :
  (forall i, Z.of_nat n <= i < Z.of_nat (n + k) -> f i = 0) ->
  sumZ f (n + k) = sumZ f n.
Proof.
  induction k as [|k IH]; intros H.
  - now rewrite Nat.add_0_r.
  - rewrite Nat.add_succ_r. cbn [sumZ].
    rewrite IH by (intros i Hi; apply H; lia).
    rewrite H by lia. lia.
Qed.

Lemma sumZ_lanes (f : Z -> Z) (n : nat) :
  sumZ f (4 * n)
  = sumZ (fun g => f (4 * g)) n + sumZ (fun g => f (4 * g + 1)) n
    + (sumZ (fun g => f (4 * g + 2)) n + sumZ (fun g => f (4 * g + 3)) n).
Proof.
  induction n as [|n IH]; [reflexivity|].
  replace (4 * Datatypes.S n)%nat with (Datatypes.S (Datatypes.S (Datatypes.S (Datatypes.S (4 * n))))) by lia.
  cbn [sumZ]. rewrite IH.
  replace (Z.of_nat (4 * n)) with (4 * Z.of_nat n) by lia.
  replace (Z.of_nat (Datatypes.S (4 * n))) with (4 * Z.of_nat n + 1) by lia.
  replace (Z.of_nat (Datatypes.S (Datatypes.S (4 * n)))) with (4 * Z.of_nat n + 2) by lia.
  replace (Z.of_nat (Datatypes.S (Datatypes.S (Datatypes.S (4 * n))))) with (4 * Z.of_nat n + 3) by lia.
  lia.
Qed.

Lemma sumZ_nonneg (f : Z -> Z) (n : nat) :
  (forall i, 0 <= i < Z.of_nat n -> 0 <= f i) -> 0 <= sumZ f n.
Proof.
  induction n as [|n IH]; intros H; cbn [sumZ]; [lia|].
  assert (0 <= sumZ f n) by (apply IH; intros i Hi; apply H; lia).
  assert (0 <= f (Z.of_nat n)) by (apply H; lia). lia.
Qed.

(** The running total of a lane: [n + 1] lane groups. *)
Lemma lane_sum_near (d : list f32) (base l : Z) (n : nat) :
  (forall g, 0 <= g <= Z.of_nat n ->
     getf d (base + 4 * g + l) = S754_infinity false \/
     nonneg_float (getf d (base + 4 * g + l)) = true) ->
  lane_sum d (Z.of_nat n + 1) base l = S754_infinity false \/
  (nonneg_float (lane_sum d (Z.of_nat n + 1) base l) = true /\
   (forall g, 0 <= g <= Z.of_nat n -> nonneg_float (getf d (base + 4 * g + l)) = true) /\
   near (Z.of_nat n) (f32_units (lane_sum d (Z.of_nat n + 1) base l))
        (sumZ (fun g => f32_units (getf d (base + 4 * g + l))) (Datatypes.S n))).
Proof.
  induction n as [|n IH]; intros Hin.
  - cbn [Z.of_nat Z.add]. rewrite lane_sum_one.
    specialize (Hin 0 ltac:(lia)). replace (base + 4 * 0 + l) with (base + l) in Hin by lia.
    destruct Hin as [Hinf | Hgood]; [left; exact Hinf | right].
    split; [exact Hgood|]. split.
    + intros g Hg. replace g with 0 by lia.
      now replace (base + 4 * 0 + l) with (base + l) by lia.
    + cbn [sumZ Z.of_nat]. replace (base + 4 * 0 + l) with (base + l) by lia.
      rewrite Z.add_0_l. apply near_refl.
  - replace (Z.of_nat (Datatypes.S n) + 1) with ((Z.of_nat n + 1) + 1) by lia.
    rewrite lane_sum_succ by lia.
    assert (Hprev : lane_sum d (Z.of_nat n + 1) base l = S754_infinity false \/
                    nonneg_float (lane_sum d (Z.of_nat n + 1) base l) = true).
    { destruct (IH ltac:(intros g Hg; apply Hin; lia)) as [H | [H _]]; auto. }
    destruct (f32_add_posinf _ _ Hprev (Hin (Z.of_nat n + 1) ltac:(lia)))
      as [Hinf | (Ha & Hb & Hab & Herr)]; [left; exact Hinf | right].
    destruct (IH ltac:(intros g Hg; apply Hin; lia)) as [H | (_ & Hall & Hnear)].
    { rewrite H in Ha. discriminate. }
    split; [exact Hab|]. split.
    + intros g Hg. destruct (Z.eq_dec g (Z.of_nat n + 1)) as [-> | Hne];
        [exact Hb | apply Hall; lia].
    + cbn [sumZ] in *.
      replace (Z.of_nat (Datatypes.S n)) with (Z.of_nat n + 1) by lia.
      apply near_step with
        (AB := f32_units (lane_sum d (Z.of_nat n + 1) base l)
               + f32_units (getf d (base + 4 * (Z.of_nat n + 1) + l))).
      * lia.
      * now apply nonneg_units.
      * apply near_add; [exact Hnear|].
        apply near_mono with (k := 0); [lia | now apply nonneg_units | apply near_refl].
      * exact Herr.
Qed.

Section ColumnSum.

Variable m : scrappie_mat.
Variable c : Z.
Hypothesis wf_m : wf_matrix m.
Hypothesis c_range : 0 <= c < nc m.

(** Every logical element of the column is a canonical number that is
    not negative, or plus infinity. *)
Hypothesis inputs :
  forall r, 0 <= r < nr m ->
    getf (data m) (4 * nrq m * c + r) = S754_infinity false \/
    nonneg_float (getf (data m) (4 * nrq m * c + r)) = true.

Let units_or_zero (r : Z) : Z :=
  if r <? nr m then f32_units (getf (data m) (4 * nrq m * c + r)) else 0.

Lemma shape_facts : 0 < nrq m /\ nr m <= 4 * nrq m < nr m + 4 /\ 0 < nr m.
Proof.
  destruct wf_m as (Hr0 & Hc0 & Hq & Hl & Hb).
  pose proof (ceil_quarter_bounds (nr m)) as Hcq. rewrite <- Hq in Hcq.
  repeat split; lia.
Qed.

Lemma lane_total_near (l : Z) :
  0 <= l < 4 ->
  logical_lane_total m c l = S754_infinity false \/
  (nonneg_float (logical_lane_total m c l) = true /\
   (forall g, 0 <= g -> 4 * g + l < nr m ->
      nonneg_float (getf (data m) (4 * nrq m * c + (4 * g + l))) = true) /\
   near (nrq m - 1) (f32_units (logical_lane_total m c l))
        (sumZ (fun g => units_or_zero (4 * g + l)) (Z.to_nat (nrq m)))).
Proof.
  intros Hl. destruct shape_facts as (Hq & Hcq & Hnr).
  unfold logical_lane_total, padding_lane.
  destruct (Z.leb_spec (nr m) (4 * (nrq m - 1) + l)) as [Hpad | Hlog].
  - destruct (Z.eqb_spec (nrq m) 1) as [Hq1 | Hq1].
    + right. split; [reflexivity|]. split.
      * intros g Hg Hlt. lia.
      * rewrite Hq1. change (Z.to_nat 1) with 1%nat. change (1 - 1) with 0.
        cbn [sumZ Z.of_nat]. unfold units_or_zero.
        destruct (Z.ltb_spec (4 * 0 + l) (nr m)); [lia|]. apply near_refl.
    + destruct (lane_sum_near (data m) (4 * nrq m * c) l (Z.to_nat (nrq m - 2)))
        as [Hinf | (Hgood & Hall & Hnear)].
      { intros g Hg. replace (4 * nrq m * c + 4 * g + l)
          with (4 * nrq m * c + (4 * g + l)) by lia. apply inputs. lia. }
      * left. replace (nrq m - 1) with (Z.of_nat (Z.to_nat (nrq m - 2)) + 1) by lia.
        exact Hinf.
      * right.
        replace (Z.of_nat (Z.to_nat (nrq m - 2)) + 1) with (nrq m - 1) in * by lia.
        replace (Z.of_nat (Z.to_nat (nrq m - 2))) with (nrq m - 2) in * by lia.
        split; [exact Hgood|]. split.
        -- intros g Hg Hlt.
           replace (4 * nrq m * c + (4 * g + l)) with (4 * nrq m * c + 4 * g + l) by lia.
           apply Hall. lia.
        -- replace (Z.to_nat (nrq m)) with (Datatypes.S (Datatypes.S (Z.to_nat (nrq m - 2))))
             by lia.
           cbn [sumZ].
           replace (units_or_zero (4 * Z.of_nat (Datatypes.S (Z.to_nat (nrq m - 2))) + l))
             with 0.
           2:{ unfold units_or_zero.
               destruct (Z.ltb_spec (4 * Z.of_nat (Datatypes.S (Z.to_nat (nrq m - 2))) + l)
                                    (nr m)); [lia | reflexivity]. }
           rewrite Z.add_0_r.
           apply near_mono with (k := nrq m - 2);
             [lia | now apply nonneg_units |].
           replace (sumZ (fun g => units_or_zero (4 * g + l)) (Z.to_nat (nrq m - 2))
                    + units_or_zero (4 * Z.of_nat (Z.to_nat (nrq m - 2)) + l))
             with (sumZ (fun g => units_or_zero (4 * g + l))
                        (Datatypes.S (Z.to_nat (nrq m - 2)))) by reflexivity.
           rewrite (sumZ_ext (fun g => units_or_zero (4 * g + l))
                      (fun g => f32_units (getf (data m) (4 * nrq m * c + 4 * g + l)))).
           ++ exact Hnear.
           ++ intros i Hi. unfold units_or_zero.
              destruct (Z.ltb_spec (4 * i + l) (nr m)); [|lia].
              do 2 f_equal. lia.
  - destruct (lane_sum_near (data m) (4 * nrq m * c) l (Z.to_nat (nrq m - 1)))
      as [Hinf | (Hgood & Hall & Hnear)].
    { intros g Hg. replace (4 * nrq m * c + 4 * g + l)
        with (4 * nrq m * c + (4 * g + l)) by lia. apply inputs. lia. }
    + left. replace (nrq m) with (Z.of_nat (Z.to_nat (nrq m - 1)) + 1) at 1 by lia.
      exact Hinf.
    + right.
      replace (Z.of_nat (Z.to_nat (nrq m - 1)) + 1) with (nrq m) in * by lia.
      replace (Z.of_nat (Z.to_nat (nrq m - 1))) with (nrq m - 1) in * by lia.
      split; [exact Hgood|]. split.
      * intros g Hg Hlt.
        replace (4 * nrq m * c + (4 * g + l)) with (4 * nrq m * c + 4 * g + l) by lia.
        apply Hall. lia.
      * replace (Z.to_nat (nrq m)) with (Datatypes.S (Z.to_nat (nrq m - 1))) by lia.
        rewrite (sumZ_ext (fun g => units_or_zero (4 * g + l))
                   (fun g => f32_units (getf (data m) (4 * nrq m * c + 4 * g + l)))).
        -- exact Hnear.
        -- intros i Hi. unfold units_or_zero.
           destruct (Z.ltb_spec (4 * i + l) (nr m)); [|lia].
           do 2 f_equal. lia.
Qed.


Lemma units_or_zero_total :
  sumZ (fun g => units_or_zero (4 * g)) (Z.to_nat (nrq m))
  + sumZ (fun g => units_or_zero (4 * g + 1)) (Z.to_nat (nrq m))
  + (sumZ (fun g => units_or_zero (4 * g + 2)) (Z.to_nat (nrq m))
     + sumZ (fun g => units_or_zero (4 * g + 3)) (Z.to_nat (nrq m)))
  = sumZ (fun r => f32_units (getf (data m) (4 * nrq m * c + r))) (Z.to_nat (nr m)).
Proof.
  destruct shape_facts as (Hq & Hcq & Hnr).
  rewrite <- sumZ_lanes.
  replace (4 * Z.to_nat (nrq m))%nat
    with (Z.to_nat (nr m) + Z.to_nat (4 * nrq m - nr m))%nat by lia.
  rewrite sumZ_zero_tail.
  - apply sumZ_ext. intros i Hi. unfold units_or_zero.
    destruct (Z.ltb_spec i (nr m)); [reflexivity | lia].
  - intros i Hi. unfold units_or_zero.
    destruct (Z.ltb_spec i (nr m)); [lia | reflexivity].
Qed.

Lemma posinf_of_lane (l : Z) :
  0 <= l < 4 ->
  logical_lane_total m c l = S754_infinity false \/
  nonneg_float (logical_lane_total m c l) = true.
Proof.
  intros Hl. destruct (lane_total_near l Hl) as [H | [H _]]; auto.
Qed.

Lemma logical_total_near :
  isfinite (logical_total m c) = true ->
  nonneg_float (logical_total m c) = true /\
  (forall r, 0 <= r < nr m ->
     nonneg_float (getf (data m) (4 * nrq m * c + r)) = true) /\
  near (nrq m + 1) (f32_units (logical_total m c))
       (sumZ (fun r => f32_units (getf (data m) (4 * nrq m * c + r))) (Z.to_nat (nr m))).
Proof.
  intros Hfin. destruct shape_facts as (Hq & Hcq & Hnr).
  unfold logical_total in *. cbv zeta in *.
  set (T0 := logical_lane_total m c 0) in *.
  set (T1 := logical_lane_total m c 1) in *.
  set (T2 := logical_lane_total m c 2) in *.
  set (T3 := logical_lane_total m c 3) in *.
  assert (P01 : f32_add T0 T1 = S754_infinity false \/ nonneg_float (f32_add T0 T1) = true).
  { destruct (f32_add_posinf T0 T1 (posinf_of_lane 0 ltac:(lia)) (posinf_of_lane 1 ltac:(lia)))
      as [H | (_ & _ & H & _)]; auto. }
  assert (P23 : f32_add T2 T3 = S754_infinity false \/ nonneg_float (f32_add T2 T3) = true).
  { destruct (f32_add_posinf T2 T3 (posinf_of_lane 2 ltac:(lia)) (posinf_of_lane 3 ltac:(lia)))
      as [H | (_ & _ & H & _)]; auto. }
  destruct (f32_add_posinf _ _ P01 P23) as [Hinf | (G01 & G23 & G & Herr)].
  { rewrite Hinf in Hfin. discriminate. }
  destruct (f32_add_posinf T0 T1 (posinf_of_lane 0 ltac:(lia)) (posinf_of_lane 1 ltac:(lia)))
    as [Hinf | (G0 & G1 & _ & Herr01)].
  { rewrite Hinf in G01. discriminate. }
  destruct (f32_add_posinf T2 T3 (posinf_of_lane 2 ltac:(lia)) (posinf_of_lane 3 ltac:(lia)))
    as [Hinf | (G2 & G3 & _ & Herr23)].
  { rewrite Hinf in G23. discriminate. }
  destruct (lane_total_near 0 ltac:(lia)) as [Hinf | (_ & A0 & N0)];
    [fold T0 in Hinf; rewrite Hinf in G0; discriminate|].
  destruct (lane_total_near 1 ltac:(lia)) as [Hinf | (_ & A1 & N1)];
    [fold T1 in Hinf; rewrite Hinf in G1; discriminate|].
  destruct (lane_total_near 2 ltac:(lia)) as [Hinf | (_ & A2 & N2)];
    [fold T2 in Hinf; rewrite Hinf in G2; discriminate|].
  destruct (lane_total_near 3 ltac:(lia)) as [Hinf | (_ & A3 & N3)];
    [fold T3 in Hinf; rewrite Hinf in G3; discriminate|].
  fold T0 in N0. fold T1 in N1. fold T2 in N2. fold T3 in N3.
  split; [exact G|]. split.
  - intros r Hr.
    assert (Hrl : r = 4 * (r / 4) + r mod 4) by (apply Z.div_mod; lia).
    pose proof (Z.mod_pos_bound r 4 ltac:(lia)) as Hmod.
    assert (Hdiv : 0 <= r / 4) by (apply Z.div_pos; lia).
    rewrite Hrl.
    assert (Hcase : r mod 4 = 0 \/ r mod 4 = 1 \/ r mod 4 = 2 \/ r mod 4 = 3) by lia.
    destruct Hcase as [E | [E | [E | E]]]; rewrite E.
    + apply A0; lia.
    + apply A1; lia.
    + apply A2; lia.
    + apply A3; lia.
  - rewrite <- units_or_zero_total.
    replace (nrq m + 1) with ((nrq m - 1 + 1) + 1) by lia.
    apply near_step with (AB := f32_units (f32_add T0 T1) + f32_units (f32_add T2 T3)).
    + lia.
    + now apply nonneg_units.
    + apply near_add.
      * apply near_step with (AB := f32_units T0 + f32_units T1);
          [lia | now apply nonneg_units | | exact Herr01].
        replace (sumZ (fun g => units_or_zero (4 * g)) (Z.to_nat (nrq m)))
          with (sumZ (fun g => units_or_zero (4 * g + 0)) (Z.to_nat (nrq m)))
          by (apply sumZ_ext; intros; f_equal; lia).
        now apply near_add.
      * apply near_step with (AB := f32_units T2 + f32_units T3);
          [lia | now apply nonneg_units | | exact Herr23].
        now apply near_add.
    + exact Herr.
Qed.

End ColumnSum.

(** ** From the roundings to the sum of a normalised column *)

(** At most 161 roundings move a total by less than 9.6e-6 of itself. *)
Lemma near_161 (k T S : Z) :
  0 <= k <= 161 -> 0 <= T -> near k T S ->
  9999904 * T <= 10000000 * S <= 10000096 * T.
Proof.
  intros Hk HT Hn. apply (near_mono k 161 T S ltac:(lia) HT) in Hn.
  destruct Hn as [Hlo Hhi].
  assert (C1 : 9999904 * 16777216 ^ 161 <= 10000000 * 16777215 ^ 161)
    by (apply Z.leb_le; vm_compute; reflexivity).
  assert (C2 : 10000000 * 16777217 ^ 161 <= 10000096 * 16777216 ^ 161)
    by (apply Z.leb_le; vm_compute; reflexivity).
  assert (P : 0 < 16777216 ^ 161) by (apply Z.pow_pos_nonneg; lia).
  set (a := 16777215 ^ 161) in *. set (b := 16777216 ^ 161) in *.
  set (d := 16777217 ^ 161) in *. clearbody a b d.
  split.
  - apply (Z.mul_le_mono_pos_r _ _ b P).
    apply Z.le_trans with (10000000 * (T * a)); [nia | nia].
  - apply (Z.mul_le_mono_pos_r _ _ b P).
    apply Z.le_trans with (10000000 * (T * d)); [nia | nia].
Qed.

Lemma sumZ_scale (X : Z -> Z) (R : Z) (n : nat) :
  sumZ (fun r => X r * R) n = sumZ X n * R.
Proof. induction n as [|n IH]; cbn [sumZ]; [lia | rewrite IH; lia]. Qed.

Lemma sumZ_term_le (X : Z -> Z) (n : nat) (r : Z) :
  (forall i, 0 <= i < Z.of_nat n -> 0 <= X i) ->
  0 <= r < Z.of_nat n -> X r <= sumZ X n.
Proof.
  induction n as [|n IH]; intros Hpos Hr; [lia|]. cbn [sumZ].
  assert (0 <= sumZ X n) by (apply sumZ_nonneg; intros i Hi; apply Hpos; lia).
  assert (0 <= X (Z.of_nat n)) by (apply Hpos; lia).
  destruct (Z.eq_dec r (Z.of_nat n)) as [-> | Hne]; [lia|].
  assert (X r <= sumZ X n) by (apply IH; [intros i Hi; apply Hpos; lia | lia]). lia.
Qed.

Lemma sumZ_rounded (X Y : Z -> Z) (R : Z) (n : nat) :
  (forall r, 0 <= r < Z.of_nat n ->
     Z.abs (Y r * 2 ^ 149 - X r * R) <= 2 ^ 148 + Y r * 2 ^ 125) ->
  Z.abs (sumZ Y n * 2 ^ 149 - sumZ X n * R)
  <= Z.of_nat n * 2 ^ 148 + sumZ Y n * 2 ^ 125.
Proof.
  induction n as [|n IH]; intros H; cbn [sumZ]; [simpl; lia|].
  assert (H1 := IH ltac:(intros r Hr; apply H; lia)).
  assert (H2 := H (Z.of_nat n) ltac:(lia)).
  rewrite Nat2Z.inj_succ.
  set (p149 := 2 ^ 149) in *. set (p148 := 2 ^ 148) in *. set (p125 := 2 ^ 125) in *.
  clearbody p149 p148 p125. lia.
Qed.

Lemma reciprocal_times_total (R T : Z) :
  0 < T < 2 ^ 277 -> 0 <= R ->
  (2 * Z.abs (R * T - 2 ^ 298) <= T \/ 2 ^ 24 * Z.abs (R * T - 2 ^ 298) <= R * T) ->
  4194303 * 2 ^ 298 <= 4194304 * (R * T) <= 4194305 * 2 ^ 298.
Proof.
  intros HT HR H.
  set (P := R * T) in *. clearbody P.
  change (2 ^ 277) with (2 ^ 276 * 2) in HT.
  change (2 ^ 298) with (2 ^ 276 * 4194304) in *.
  change (2 ^ 24) with 16777216 in H.
  set (u := 2 ^ 276) in *. assert (0 < u) by (unfold u; apply Z.pow_pos_nonneg; lia).
  clearbody u. lia.
Qed.

Lemma normalised_sum_units (n : nat) (X Y : Z -> Z) (T R : Z) :
  (0 < n <= 640)%nat ->
  (forall r, 0 <= r < Z.of_nat n -> 0 < X r) ->
  9999904 * T <= 10000000 * sumZ X n <= 10000096 * T ->
  T < 2 ^ 277 -> 0 <= R ->
  (2 * Z.abs (R * T - 2 ^ 298) <= T \/ 2 ^ 24 * Z.abs (R * T - 2 ^ 298) <= R * T) ->
  (forall r, 0 <= r < Z.of_nat n ->
     0 <= Y r /\
     (2 * Z.abs (Y r * 2 ^ 149 - X r * R) <= 2 ^ 149 \/
      2 ^ 24 * Z.abs (Y r * 2 ^ 149 - X r * R) <= Y r * 2 ^ 149)) ->
  100000 * Z.abs (sumZ Y n - 2 ^ 149) <= 2 ^ 149.
Proof.
  intros Hn HX HS HT HR Hrec HY.
  assert (HSpos : 0 < sumZ X n).
  { assert (X 0 <= sumZ X n)
      by (apply sumZ_term_le; [intros i Hi; specialize (HX i Hi); lia | lia]).
    specialize (HX 0 ltac:(lia)). lia. }
  assert (HTpos : 0 < T) by lia.
  pose proof (reciprocal_times_total R T ltac:(lia) HR Hrec) as HP.
  assert (HW : 0 <= sumZ Y n) by (apply sumZ_nonneg; intros i Hi; apply HY; exact Hi).
  assert (Hsum : Z.abs (sumZ Y n * 2 ^ 149 - sumZ X n * R)
                 <= Z.of_nat n * 2 ^ 148 + sumZ Y n * 2 ^ 125).
  { apply sumZ_rounded. intros r Hr. destruct (HY r Hr) as [Hy [H | H]].
    - change (2 ^ 149) with (2 * 2 ^ 148) in H at 2. lia.
    - change (2 ^ 24) with 16777216 in H.
      change (2 ^ 149) with (16777216 * 2 ^ 125) in H at 2. lia. }
  assert (HQ : 9999904 * (R * T) <= 10000000 * (sumZ X n * R) <= 10000096 * (R * T)).
  { split; nia. }
  set (W := sumZ Y n) in *. set (Q := sumZ X n * R) in *. set (P := R * T) in *.
  assert (Hn' : 0 < Z.of_nat n <= 640) by lia.
  set (N := Z.of_nat n) in *.
  clearbody W Q P N. clear - HP HW Hsum HQ Hn'.
  change (2 ^ 298) with 509258994083621521567111422102344540262867098416484062659035112338595324940834176545849344 in *.
  change (2 ^ 149) with 713623846352979940529142984724747568191373312 in *.
  change (2 ^ 148) with 356811923176489970264571492362373784095686656 in *.
  change (2 ^ 125) with 42535295865117307932921825928971026432 in *.
  lia.
Qed.

(** ** Units and exact rational values *)

Lemma f32_to_Q_units (y : f32) :
  nonneg_float y = true ->
  Qeq (f32_to_Q y) (Qdiv (inject_Z (f32_units y)) (inject_Z (2 ^ 149))).
Proof.
  destruct y as [[]| | |[] my e]; cbn [nonneg_float]; try discriminate; intros H.
  - reflexivity.
  - apply bounded_facts in H. destruct H as (He & _).
    cbn [f32_to_Q f32_units].
    assert (HD : ~ Qeq (inject_Z (2 ^ 149)) (inject_Z 0)).
    { intros E. apply (proj1 (inject_Z_injective _ _)) in E. discriminate E. }
    destruct (Z.leb_spec 0 e) as [Hpos | Hneg].
    + rewrite Z.pow_add_r by lia. rewrite Z.mul_assoc.
      rewrite (inject_Z_mult (Zpos my * 2 ^ e) (2 ^ 149)).
      symmetry. apply Qdiv_mult_l. exact HD.
    + rewrite Qmake_Qdiv.
      assert (Hp : 0 < 2 ^ (- e)) by (apply Z.pow_pos_nonneg; lia).
      rewrite Z2Pos.id by exact Hp.
      assert (H149 : 2 ^ 149 = 2 ^ (e + 149) * 2 ^ (- e)).
      { rewrite <- Z.pow_add_r by lia. f_equal. lia. }
      rewrite H149, inject_Z_mult, inject_Z_mult.
      assert (Hq : ~ Qeq (inject_Z (2 ^ (- e))) 0).
      { intros E. apply (proj1 (inject_Z_injective _ _)) in E. lia. }
      assert (Hq2 : ~ Qeq (inject_Z (2 ^ (e + 149))) 0).
      { intros E. apply (proj1 (inject_Z_injective _ _)) in E.
        assert (0 < 2 ^ (e + 149)) by (apply Z.pow_pos_nonneg; lia). lia. }
      field. split; assumption.
Qed.

Lemma sumZ_shift (f : Z -> Z) (n : nat) :
  f 0 + sumZ (fun i => f (i + 1)) n = sumZ f (Datatypes.S n).
Proof.
  induction n as [|n IH]; cbn [sumZ] in *; [simpl; lia|].
  replace (Z.of_nat n + 1) with (Z.of_nat (Datatypes.S n)) by lia.
  lia.
Qed.

Lemma fold_units (y : Z -> f32) (n : nat) :
  forall lo,
    (forall i, lo <= i < lo + Z.of_nat n -> nonneg_float (y i) = true) ->
    Qeq (fold_right Qplus (inject_Z 0) (map f32_to_Q (map y (zseq lo n))))
        (Qdiv (inject_Z (sumZ (fun i => f32_units (y (lo + i))) n)) (inject_Z (2 ^ 149))).
Proof.
  induction n as [|n IH]; intros lo Hgood.
  - cbn [zseq map fold_right sumZ]. reflexivity.
  - cbn [zseq map fold_right]. rewrite IH by (intros i Hi; apply Hgood; lia).
    rewrite (f32_to_Q_units (y lo)) by (apply Hgood; lia).
    rewrite <- (sumZ_shift (fun i => f32_units (y (lo + i))) n).
    rewrite Z.add_0_r.
    rewrite (sumZ_ext (fun i => f32_units (y (lo + 1 + i)))
               (fun i => f32_units (y (lo + (i + 1)))))
      by (intros i Hi; do 2 f_equal; lia).
    rewrite inject_Z_plus. unfold Qdiv. ring.
Qed.

Lemma units_within_tolerance (W : Z) :
  100000 * Z.abs (W - 2 ^ 149) <= 2 ^ 149 ->
  Qle (Qabs (Qminus (Qdiv (inject_Z W) (inject_Z (2 ^ 149))) (inject_Z 1)))
      (Qmake 1 100000).
Proof.
  intros H. apply Qabs_Qle_condition.
  change (2 ^ 149) with 713623846352979940529142984724747568191373312 in *.
  split; unfold Qle, Qdiv, Qminus, Qplus, Qmult, Qopp, Qinv, inject_Z;
    cbn [Qnum Qden]; lia.
Qed.

(** ** Normalised columns that sum to one *)

Lemma positive_valid_input (v : f32) :
  valid_binary prec32 emax32 v = true -> f32_gt v fzero = true ->
  (v = S754_infinity false \/ nonneg_float v = true) /\
  (nonneg_float v = true -> 0 < f32_units v).
Proof.
  destruct v as [[]|[]| |[] mv ev]; cbn [valid_binary nonneg_float f32_units];
    intros Hv Hgt; try (cbv in Hgt; discriminate).
  - split; [left; reflexivity | discriminate].
  - split; [right; exact Hv|]. intros _.
    assert (0 < 2 ^ (ev + 149)).
    { apply Z.pow_pos_nonneg; [lia|]. apply bounded_facts in Hv. lia. }
    lia.
Qed.

Lemma nonneg_isfinite (x : f32) : nonneg_float x = true -> isfinite x = true.
Proof. destruct x as [[]| | |[] mx ex]; cbn; intros H; try discriminate; reflexivity. Qed.

Lemma nonneg_units_bound (x : f32) : nonneg_float x = true -> f32_units x < 2 ^ 277.
Proof.
  destruct x as [[]| | |[] mx ex]; cbn [nonneg_float f32_units]; try discriminate; intros H.
  - apply Z.pow_pos_nonneg; lia.
  - apply bounded_facts in H. destruct H as (He & _ & _ & Hm).
    assert (2 ^ (ex + 149) <= 2 ^ 253) by (apply Z.pow_le_mono_r; lia).
    assert (0 < 2 ^ (ex + 149)) by (apply Z.pow_pos_nonneg; lia).
    change (2 ^ 277) with (2 ^ 24 * 2 ^ 253). nia.
Qed.

Lemma column_total_logical (m : scrappie_mat) (c : Z) :
  masked_exactly m c -> column_total m c = logical_total m c.
Proof.
  intros Hmask. unfold column_total, logical_total. cbv zeta.
  assert (Hlane : forall l, 0 <= l < 4 ->
            f32_sub (lane_sum (data m) (nrq m) (4 * nrq m * c) l) (masked_padding m c l)
            = logical_lane_total m c l).
  { intros l Hl. unfold masked_padding.
    destruct (nr m <=? 4 * (nrq m - 1) + l) eqn:Hpad.
    - apply Hmask; [exact Hl | exact Hpad].
    - rewrite f32_sub_zero. unfold logical_lane_total, padding_lane. now rewrite Hpad. }
  now rewrite !Hlane by lia.
Qed.

Lemma in_column_values (m : scrappie_mat) (c r : Z) :
  0 <= r < nr m -> In (getf (data m) (4 * nrq m * c + r)) (column_values m c).
Proof.
  intros Hr. unfold column_values. apply in_map_iff. exists r.
  split; [reflexivity | apply in_zseq; lia].
Qed.

Lemma normalised_column_sums_to_one (m : scrappie_mat) (c : Z) (out : list f32) :
  wf_matrix m -> 0 <= c < nc m -> nrq m <= 160 ->
  forallb (valid_binary prec32 emax32) (column_values m c) = true ->
  positive_column m c -> masked_exactly m c ->
  isfinite (column_total m c) = true ->
  isfinite (f32_div fone (column_total m c)) = true ->
  (forall k, 0 <= k < 4 * nrq m ->
     getf out (4 * nrq m * c + k)
     = f32_mul (getf (data m) (4 * nrq m * c + k)) (f32_div fone (column_total m c))) ->
  sums_to_one (mkMat (nr m) (nrq m) (nc m) out) c.
Proof.
  intros Hwf Hc Hq160 Hvalid Hpos Hmask Hfin Hrfin Hout.
  destruct (shape_facts m Hwf) as (Hq & Hcq & Hnr).
  rewrite forallb_forall in Hvalid.
  assert (Hin : forall r, 0 <= r < nr m ->
            (getf (data m) (4 * nrq m * c + r) = S754_infinity false \/
             nonneg_float (getf (data m) (4 * nrq m * c + r)) = true) /\
            (nonneg_float (getf (data m) (4 * nrq m * c + r)) = true ->
             0 < f32_units (getf (data m) (4 * nrq m * c + r)))).
  { intros r Hr. apply positive_valid_input.
    - apply Hvalid. now apply in_column_values.
    - apply Hpos. now apply in_column_values. }
  rewrite (column_total_logical m c Hmask) in *.
  destruct (logical_total_near m c Hwf (fun r Hr => proj1 (Hin r Hr)) Hfin)
    as (HgT & Hgx & Hnear).
  set (T := logical_total m c) in *.
  set (x := fun r => getf (data m) (4 * nrq m * c + r)) in *.
  set (X := fun r => f32_units (x r)).
  set (n := Z.to_nat (nr m)) in *.
  assert (HXpos : forall r, 0 <= r < Z.of_nat n -> 0 < X r).
  { intros r Hr. unfold X, x. apply Hin; [lia | apply Hgx; lia]. }
  pose proof (nonneg_units T HgT) as HT0.
  pose proof (near_161 (nrq m + 1) (f32_units T)
                (sumZ (fun r => f32_units (getf (data m) (4 * nrq m * c + r))) n)
                ltac:(lia) HT0 Hnear) as HS.
  change (sumZ (fun r => f32_units (getf (data m) (4 * nrq m * c + r))) n)
    with (sumZ X n) in HS.
  assert (HSpos : 0 < sumZ X n).
  { assert (X 0 <= sumZ X n)
      by (apply sumZ_term_le; [intros i Hi; specialize (HXpos i Hi); lia | lia]).
    specialize (HXpos 0 ltac:(lia)). lia. }
  assert (HTpos : 0 < f32_units T) by lia.
  pose proof (nonneg_units_bound T HgT) as HTlt.
  destruct (SFdiv_one T HgT HTpos) as [Hinf | (HgR & Hrec)].
  { unfold f32_div in Hrfin. change prec32 with 24 in Hrfin. change emax32 with 128 in Hrfin.
    rewrite Hinf in Hrfin. discriminate. }
  change (SFdiv 24 128 fone T) with (f32_div fone T) in *.
  set (rr := f32_div fone T) in *.
  pose proof (nonneg_units rr HgR) as HR0.
  pose proof (reciprocal_times_total (f32_units rr) (f32_units T) ltac:(lia) HR0 Hrec) as HP.
  set (y := fun r => f32_mul (x r) rr).
  assert (Hy : forall r, 0 <= r < Z.of_nat n ->
            nonneg_float (y r) = true /\
            (2 * Z.abs (f32_units (y r) * 2 ^ 149 - X r * f32_units rr) <= 2 ^ 149 \/
             2 ^ 24 * Z.abs (f32_units (y r) * 2 ^ 149 - X r * f32_units rr)
               <= f32_units (y r) * 2 ^ 149)).
  { intros r Hr.
    destruct (SFmul_nonneg (x r) rr (Hgx r ltac:(lia)) HgR) as [[_ Hbig] | H]; [|exact H].
    exfalso.
    assert (HXr : X r <= sumZ X n)
      by (apply sumZ_term_le; [intros i Hi; specialize (HXpos i Hi); lia | lia]).
    fold (X r) in Hbig.
    assert (Hle : X r * f32_units rr <= sumZ X n * f32_units rr) by nia.
    assert (HSR : 10000000 * (sumZ X n * f32_units rr)
                  <= 10000096 * (f32_units rr * f32_units T)) by nia.
    set (P := f32_units rr * f32_units T) in *.
    set (Q := sumZ X n * f32_units rr) in *.
    set (V := X r * f32_units rr) in *.
    clearbody P Q V. clear - Hbig Hle HSR HP.
    change (2 ^ 425) with (2 ^ 298 * 2 ^ 127) in Hbig.
    set (p := 2 ^ 298) in *. assert (0 < p) by (unfold p; apply Z.pow_pos_nonneg; lia).
    clearbody p. change (2 ^ 127) with 170141183460469231731687303715884105728 in Hbig.
    lia. }
  unfold sums_to_one, column_values. cbn [nr nrq nc data]. fold n.
  assert (Hvals : map (fun r => getf out (4 * nrq m * c + r)) (zseq 0 n) = map y (zseq 0 n)).
  { apply map_ext_in. intros r Hr. apply in_zseq in Hr. unfold y, x.
    apply Hout. lia. }
  rewrite Hvals. split.
  - apply forallb_forall. intros v Hv. apply in_map_iff in Hv as (r & <- & Hr).
    apply in_zseq in Hr. apply nonneg_isfinite. apply Hy. lia.
  - rewrite (fold_units y n 0) by (intros i Hi; apply Hy; lia).
    apply units_within_tolerance.
    rewrite (sumZ_ext (fun i => f32_units (y (0 + i))) (fun i => f32_units (y i)))
      by (intros i Hi; reflexivity).
    apply (normalised_sum_units n X (fun r => f32_units (y r)) (f32_units T) (f32_units rr)).
    + unfold n. lia.
    + exact HXpos.
    + exact HS.
    + exact HTlt.
    + exact HR0.
    + exact Hrec.
    + intros r Hr. destruct (Hy r Hr) as [Hg Hb]. split; [now apply nonneg_units | exact Hb].
Qed.

(** ** When the padding is masked without loss *)

Lemma f32_add_sub_zero (s : f32) :
  s <> S754_zero true -> f32_sub (f32_add s fzero) fzero = s.
Proof. destruct s as [[]|[]| |[] ms es]; intros H; try reflexivity. now contradiction H. Qed.

Lemma shl_align_same (mx : positive) (ex : Z) : shl_align mx ex (Z.min ex ex) = (mx, ex).
Proof. unfold shl_align. rewrite Z.min_id, Z.sub_diag. reflexivity. Qed.

Lemma f32_sub_self_finite (x : f32) : isfinite x = true -> f32_sub x x = fzero.
Proof.
  destruct x as [[]|[]| |sx mx ex]; cbn [isfinite]; intros H; try discriminate;
    try reflexivity.
  unfold f32_sub. cbn [SFsub]. rewrite shl_align_same. cbn [fst].
  rewrite Z.sub_diag. reflexivity.
Qed.

Lemma masked_exactly_zero_padding (m : scrappie_mat) (c : Z) :
  wf_matrix m ->
  (forall r, nr m <= r < 4 * nrq m -> getf (data m) (4 * nrq m * c + r) = fzero) ->
  (forall l, 0 <= l < 4 -> logical_lane_total m c l <> S754_zero true) ->
  masked_exactly m c.
Proof.
  intros Hwf Hpad Hsign l Hl Hlane.
  destruct (shape_facts m Hwf) as (Hq & Hcq & Hnr).
  pose proof (Hsign l Hl) as Hs.
  unfold padding_lane in Hlane. apply Z.leb_le in Hlane.
  rewrite (Hpad (4 * (nrq m - 1) + l)) by lia.
  unfold logical_lane_total, padding_lane in *.
  replace (nr m <=? 4 * (nrq m - 1) + l) with true in * by (symmetry; apply Z.leb_le; lia).
  destruct (Z.eqb_spec (nrq m) 1) as [Hq1 | Hq1].
  - rewrite Hq1, lane_sum_one.
    replace (4 * 1 * c + l) with (4 * nrq m * c + (4 * (nrq m - 1) + l)) by lia.
    rewrite Hpad by lia. reflexivity.
  - replace (nrq m) with (nrq m - 1 + 1) at 1 by lia.
    rewrite lane_sum_succ by lia.
    replace (4 * nrq m * c + 4 * (nrq m - 1) + l)
      with (4 * nrq m * c + (4 * (nrq m - 1) + l)) by lia.
    rewrite Hpad by lia. now apply f32_add_sub_zero.
Qed.

Lemma masked_exactly_one_group (m : scrappie_mat) (c : Z) :
  nrq m = 1 ->
  (forall r, nr m <= r < 4 -> isfinite (getf (data m) (4 * nrq m * c + r)) = true) ->
  masked_exactly m c.
Proof.
  intros Hq1 Hfin l Hl Hlane.
  unfold logical_lane_total. rewrite Hlane.
  unfold padding_lane in Hlane. apply Z.leb_le in Hlane.
  rewrite Hq1 in *. cbn [Z.eqb Pos.eqb]. rewrite lane_sum_one.
  replace (4 * 1 * c + (4 * (1 - 1) + l)) with (4 * 1 * c + l) by lia.
  apply f32_sub_self_finite. apply Hfin. lia.
Qed.

(** Positive logical rows over zero padding: no lane total is the
    negative zero, so the padding is masked without loss. *)
Lemma masked_exactly_positive (m : scrappie_mat) (c : Z) :
  wf_matrix m ->
  (forall r, nr m <= r < 4 * nrq m -> getf (data m) (4 * nrq m * c + r) = fzero) ->
  forallb (valid_binary prec32 emax32) (column_values m c) = true ->
  positive_column m c ->
  masked_exactly m c.
Proof.
  intros Hwf Hpad Hvalid Hpos.
  rewrite forallb_forall in Hvalid.
  apply masked_exactly_zero_padding; [exact Hwf | exact Hpad |].
  intros l Hl Heq.
  assert (Hin : forall r, 0 <= r < nr m ->
            getf (data m) (4 * nrq m * c + r) = S754_infinity false \/
            nonneg_float (getf (data m) (4 * nrq m * c + r)) = true).
  { intros r Hr. apply positive_valid_input.
    - apply Hvalid. now apply in_column_values.
    - apply Hpos. now apply in_column_values. }
  destruct (posinf_of_lane m c Hwf Hin l Hl) as [H | H];
    rewrite Heq in H; discriminate H.
Qed.

Lemma wf_sevens_padded : wf_matrix sevens_padded.
Proof. unfold wf_matrix, INT_MAX. vm_compute. intuition congruence. Qed.

Lemma masked_sevens_padded : masked_exactly sevens_padded 0.
Proof.
  intros l Hl Hpad.
  assert (Hc : l = 0 \/ l = 1 \/ l = 2 \/ l = 3) by lia.
  destruct Hc as [-> | [-> | [-> | ->]]]; try (vm_compute in Hpad; discriminate).
  vm_compute. reflexivity.
Qed.

(** C6, amended statement.  [row_normalise_inplace] leaves a null handle
    alone.  On every well-formed matrix, whatever its padding lanes hold,
    it keeps the shape and multiplies every scalar of a column by the
    single precision reciprocal of the column total, the total being the
    four lane sums over all lane groups, each less the padding scalar of
    its lane in the last group, added pairwise.  The subtraction removes
    the padding without loss exactly when each lane sum less its padding
    scalar is the sum of the lane over the logical rows; the total is then
    the one of the logical rows alone, and this is so when the padding
    holds zero and no lane sum is the negative zero (as with positive
    logical values), and when the column has one lane group with finite
    padding.  It is the total of all lanes
    when the padding holds zero.  Where moreover the column has at most
    160 lane groups, its logical values are positive single precision
    numbers and neither the total nor its reciprocal overflows, the
    logical rows of the result sum to one within the tolerance. *)
Theorem row_normalise_inplace_spec (size_bits : Z) :
  32 <= size_bits ->
  row_normalise_inplace size_bits None = None /\
  forall m, wf_matrix m ->
    exists m',
      row_normalise_inplace size_bits (Some m) = Some m' /\
      nr m' = nr m /\ nrq m' = nrq m /\ nc m' = nc m /\
      len (data m') = len (data m) /\
      forall c, 0 <= c < nc m ->
        (forall k, 0 <= k < 4 * nrq m ->
           getf (data m') (4 * nrq m * c + k)
           = f32_mul (getf (data m) (4 * nrq m * c + k))
                     (f32_div fone (column_total m c))) /\
        (masked_exactly m c -> column_total m c = logical_total m c) /\
        ((forall r, nr m <= r < 4 * nrq m ->
            getf (data m) (4 * nrq m * c + r) = fzero) ->
         column_total m c = unmasked_total m c /\
         ((forall l, 0 <= l < 4 -> logical_lane_total m c l <> S754_zero true) ->
          masked_exactly m c) /\
         (forallb (valid_binary prec32 emax32) (column_values m c) = true ->
          positive_column m c -> masked_exactly m c)) /\
        (nrq m = 1 ->
         (forall r, nr m <= r < 4 ->
            isfinite (getf (data m) (4 * nrq m * c + r)) = true) ->
         masked_exactly m c) /\
        (nrq m <= 160 ->
         forallb (valid_binary prec32 emax32) (column_values m c) = true ->
         positive_column m c ->
         masked_exactly m c ->
         isfinite (column_total m c) = true ->
         isfinite (f32_div fone (column_total m c)) = true ->
         sums_to_one m' c).
Proof.
  intros Hbits. split; [reflexivity|].
  intros m Hwf.
  destruct (row_normalise_data size_bits m Hbits Hwf) as (out & Heq & Hlen & Hout).
  eexists. split; [exact Heq|].
  cbn [nr nrq nc data].
  repeat (split; [reflexivity|]). split; [exact Hlen|].
  intros c Hc.
  split; [intros k Hk; now apply Hout|].
  split; [now apply column_total_logical|].
  split.
  { intros Hpad. split; [|split].
    - now apply (column_total_zero_padding m Hwf c Hc).
    - intros Hsign. now apply masked_exactly_zero_padding.
    - intros Hvalid Hpos. now apply masked_exactly_positive. }
  split; [now apply masked_exactly_one_group|].
  intros Hq Hvalid Hpos Hmask Hfin Hrec.
  apply (normalised_column_sums_to_one m c out Hwf Hc Hq Hvalid Hpos Hmask Hfin Hrec).
  intros k Hk. now apply Hout.
Qed.

Lemma row_normalise_inplace_spec_witness :
  32 <= 64 /\ wf_matrix sevens_padded /\
  exists m',
    row_normalise_inplace 64 (Some sevens_padded) = Some m' /\
    getf (data m') 0
    = f32_mul (getf (data sevens_padded) 0)
              (f32_div fone (column_total sevens_padded 0)) /\
    column_total sevens_padded 0 = logical_total sevens_padded 0 /\
    sums_to_one m' 0.
Proof.
  assert (Hbits : 32 <= 64) by (vm_compute; discriminate).
  split; [exact Hbits|]. split; [exact wf_sevens_padded|].
  destruct (row_normalise_inplace_spec 64 Hbits) as [_ H].
  destruct (H sevens_padded wf_sevens_padded) as (m' & Heq & _ & _ & _ & _ & Hcol).
  assert (Hc : 0 <= 0 < nc sevens_padded) by (vm_compute; intuition congruence).
  destruct (Hcol 0 Hc) as (Hout & Htotal & _ & _ & Hsum).
  pose proof masked_sevens_padded as Hmask.
  exists m'. split; [exact Heq|]. split; [|split].
  - apply (Hout 0). vm_compute. intuition congruence.
  - exact (Htotal Hmask).
  - apply Hsum.
    + vm_compute. discriminate.
    + vm_compute. reflexivity.
    + intros v Hv. vm_compute in Hv.
      repeat (destruct Hv as [<- | Hv]; [reflexivity|]). destruct Hv.
    + exact Hmask.
    + vm_compute. reflexivity.
    + vm_compute. reflexivity.
Defined.

(** On seven ones with clean padding the logical rows do sum to one
    within the tolerance. *)
Lemma row_normalise_sevens_clean :
  exists m',
    row_normalise_inplace 64 (Some sevens_clean) = Some m' /\
    positive_column sevens_clean 0 /\ sums_to_one m' 0.
Proof.
  eexists. split; [vm_compute; reflexivity|]. split.
  - intros v Hv. vm_compute in Hv.
    repeat (destruct Hv as [<- | Hv]; [reflexivity|]). destruct Hv.
  - split; [reflexivity|]. vm_compute. discriminate.
Qed.

(** Positive columns that do not come out summing to one.  A stale
    value in the padding lane changes the result on the same positive
    logical rows, which then sum to 7/6; two logical rows holding
    [FLT_MAX] over clean padding are normalised to zero; the reciprocal of
    a total of 2^-149 overflows, which makes the result infinite; and in a
    column of 169 lane groups without padding, with finite total and
    reciprocal, the roundings of the lane sums add up to more than the
    tolerance. *)
Lemma row_normalise_not_sum_to_one :
  (wf_matrix sevens_stale /\
   positive_column sevens_stale 0 /\
   column_values sevens_stale 0 = column_values sevens_clean 0 /\
   exists stale clean,
     row_normalise_inplace 64 (Some sevens_stale) = Some stale /\
     row_normalise_inplace 64 (Some sevens_clean) = Some clean /\
     column_values stale 0 <> column_values clean 0 /\
     ~ sums_to_one stale 0) /\
  (wf_matrix column_overflow /\
   positive_column column_overflow 0 /\
   exists m',
     row_normalise_inplace 64 (Some column_overflow) = Some m' /\
     ~ sums_to_one m' 0) /\
  (wf_matrix column_tiny /\
   positive_column column_tiny 0 /\
   isfinite (column_total column_tiny 0) = true /\
   exists m',
     row_normalise_inplace 64 (Some column_tiny) = Some m' /\
     ~ sums_to_one m' 0) /\
  (wf_matrix column_long /\
   positive_column column_long 0 /\
   forallb (valid_binary prec32 emax32) (column_values column_long 0) = true /\
   masked_exactly column_long 0 /\
   isfinite (column_total column_long 0) = true /\
   isfinite (f32_div fone (column_total column_long 0)) = true /\
   exists m',
     row_normalise_inplace 64 (Some column_long) = Some m' /\
     forallb isfinite (column_values m' 0) = true /\
     ~ sums_to_one m' 0).
Proof.
  split; [|split; [|split]].
  - split; [exact wf_sevens_stale|]. split; [|split; [reflexivity|]].
    + intros v Hv. vm_compute in Hv.
      repeat (destruct Hv as [<- | Hv]; [reflexivity|]). destruct Hv.
    + do 2 eexists. split; [vm_compute; reflexivity|].
      split; [vm_compute; reflexivity|]. split.
      * vm_compute. discriminate.
      * intros [_ Hsum]. vm_compute in Hsum. apply Hsum. reflexivity.
  - split; [exact wf_column_overflow|]. split.
    + intros v Hv. vm_compute in Hv.
      repeat (destruct Hv as [<- | Hv]; [reflexivity|]). destruct Hv.
    + eexists. split; [vm_compute; reflexivity|].
      intros [_ Hsum]. vm_compute in Hsum. apply Hsum. reflexivity.
  - split; [unfold wf_matrix, INT_MAX; vm_compute; intuition congruence|].
    split; [|split; [reflexivity|]].
    + intros v Hv. vm_compute in Hv.
      repeat (destruct Hv as [<- | Hv]; [reflexivity|]). destruct Hv.
    + eexists. split; [vm_compute; reflexivity|].
      intros [Hfin _]. vm_compute in Hfin. discriminate Hfin.
  - split; [unfold wf_matrix, INT_MAX; vm_compute; intuition congruence|].
    split; [|split; [vm_compute; reflexivity|]].
    + assert (H : forallb (fun v => f32_gt v fzero) (column_values column_long 0) = true)
        by (vm_compute; reflexivity).
      rewrite forallb_forall in H. exact H.
    + split.
      { intros l Hl Hpad.
        assert (Hc : l = 0 \/ l = 1 \/ l = 2 \/ l = 3) by lia.
        destruct Hc as [-> | [-> | [-> | ->]]]; vm_compute in Hpad; discriminate Hpad. }
      split; [vm_compute; reflexivity|]. split; [vm_compute; reflexivity|].
      eexists. split; [vm_compute; reflexivity|].
      split; [vm_compute; reflexivity|].
      intros [_ Hsum]. apply Qle_bool_iff in Hsum. revert Hsum.
      vm_compute. discriminate.
Qed.

(** ** Further remarks *)

(** A NaN in first position stays the running maximum: no comparison
    with it succeeds. *)
Remark max_of_nan_first :
  max_scrappie_matrix 64 (Some example_nan_first) = NAN /\
  argmax_scrappie_matrix 64 (Some example_nan_first) = 0.
Proof. split; vm_compute; reflexivity. Qed.

(** A NaN element is within every tolerance of any value. *)
Remark equality_of_nan :
  equality_scrappie_matrix false (Some example_nan_1x1) (Some example_1x1) fzero
  = Ret true.
Proof. vm_compute. reflexivity. Qed.

(** The identity weights with a zero bias give the input back. *)
Remark affine_map_identity :
  affine_map false 64 true always_ok reference_sgemm
    (Some example_2x2) (Some identity_2x2) (Some zero_bias_2) None
  = Ret (Some example_2x2).
Proof. vm_compute. reflexivity. Qed.

(** In a release build the validators accept everything. *)
Remark validators_release (size_bits : Z) :
  (forall mat lower upper maskval only_finite,
     validate_scrappie_matrix true size_bits mat lower upper maskval only_finite = Ret true) /\
  (forall vec n lower upper, validate_vector true vec n lower upper = Ret true) /\
  (forall vec n lower upper, validate_ivector true vec n lower upper = Ret true).
Proof. repeat split. Qed.

(** The float constants are canonical binary32 numbers. *)
Remark constants_valid :
  valid_binary prec32 emax32 FLT_EPSILON = true /\
  valid_binary prec32 emax32 FLT_MAX = true /\
  valid_binary prec32 emax32 one_plus_epsilon = true /\
  valid_binary prec32 emax32 stale_value = true /\
  f32_add fone FLT_EPSILON = one_plus_epsilon /\
  f32_add FLT_MAX FLT_MAX = S754_infinity false.
Proof. repeat split; vm_compute; reflexivity. Qed.

(* ================================================================== *)
(** * Part III: the rest of the engine *)
(* ================================================================== *)

(** ** Block copies and fills *)

Lemma memcpy_f_spec (dst src : list f32) (doff soff n : Z) :
  0 <= doff -> 0 <= n -> doff + n <= len dst ->
  len (memcpy_f dst doff src soff n) = len dst /\
  forall p, getf (memcpy_f dst doff src soff n) p
            = if (doff <=? p) && (p <? doff + n)
              then getf src (soff + (p - doff)) else getf dst p.
Proof.
  intros Hd Hn Hfit. unfold memcpy_f, for_range.
  rewrite for_count_fold, Z.sub_0_r.
  assert (Hrange : forall k, In k (zseq 0 (Z.to_nat n)) -> 0 <= doff + k < len dst).
  { intros k Hk. apply in_zseq in Hk. lia. }
  split.
  - now destruct (fold_setf_get (fun k => doff + k) (fun k => getf src (soff + k))
                    (zseq 0 (Z.to_nat n)) dst 0 Hrange) as [Hlen _].
  - intros p.
    destruct (fold_setf_get (fun k => doff + k) (fun k => getf src (soff + k))
                (zseq 0 (Z.to_nat n)) dst p Hrange) as [_ [(k & Hk & Hf & Hg) | [Hnone Hg]]].
    + apply in_zseq in Hk. cbv zeta in Hg. rewrite Hg.
      destruct (Z.leb_spec doff p), (Z.ltb_spec p (doff + n)); try lia.
      cbn [andb]. f_equal. lia.
    + cbv zeta in Hg. rewrite Hg.
      destruct (Z.leb_spec doff p), (Z.ltb_spec p (doff + n)); try reflexivity.
      exfalso. apply (Hnone (p - doff)); [apply in_zseq; lia | lia].
Qed.

Lemma memset_zero_spec (buf : list f32) (n : Z) :
  0 <= n <= len buf ->
  len (memset_zero buf n) = len buf /\
  forall p, getf (memset_zero buf n) p
            = if (0 <=? p) && (p <? n) then fzero else getf buf p.
Proof.
  intros Hn. unfold memset_zero, for_range.
  rewrite for_count_fold, Z.sub_0_r.
  assert (Hrange : forall k, In k (zseq 0 (Z.to_nat n)) -> 0 <= k < len buf).
  { intros k Hk. apply in_zseq in Hk. lia. }
  split.
  - now destruct (fold_setf_get (fun k => k) (fun _ => fzero)
                    (zseq 0 (Z.to_nat n)) buf 0 Hrange) as [Hlen _].
  - intros p.
    destruct (fold_setf_get (fun k => k) (fun _ => fzero)
                (zseq 0 (Z.to_nat n)) buf p Hrange) as [_ [(k & Hk & Hf & Hg) | [Hnone Hg]]].
    + apply in_zseq in Hk. cbv zeta in Hg. rewrite Hg.
      destruct (Z.leb_spec 0 p), (Z.ltb_spec p n); try lia. reflexivity.
    + cbv zeta in Hg. rewrite Hg.
      destruct (Z.leb_spec 0 p), (Z.ltb_spec p n); try reflexivity.
      exfalso. apply (Hnone p); [apply in_zseq; lia | reflexivity].
Qed.

Lemma getf_out_of_range (buf : list f32) (p : Z) :
  p < 0 \/ len buf <= p -> getf buf p = fzero.
Proof.
  unfold getf, len. intros H. destruct (Z.leb_spec 0 p); [|reflexivity].
  apply nth_overflow. lia.
Qed.

Lemma all_zero_is_zeros (buf : list f32) :
  (forall p, 0 <= p < len buf -> getf buf p = fzero) -> buf = zeros (len buf).
Proof.
  intros H. apply getf_ext.
  - rewrite len_zeros by (unfold len; lia). reflexivity.
  - intros p Hp. rewrite getf_zeros. now apply H.
Qed.

(** ** Copy and zero *)

Section CopyZero.

Variable NDEBUG : bool.
Variable size_bits : Z.
Variable malloc_ok : bool.
Variable aligned_alloc_ok : Z -> bool.
Variable M : scrappie_mat.

Hypothesis size_bits_ge : 32 <= size_bits.
Hypothesis wf_M : wf_matrix M.
Hypothesis fits_size : 16 * nrq M * nc M < 2 ^ size_bits.

Lemma lane_bytes_exact : lane_bytes size_bits (nrq M) (nc M) = 16 * nrq M * nc M.
Proof.
  destruct wf_M as (Hr & Hc & Hq & Hl & Hb).
  pose proof (ceil_quarter_pos (nr M) Hr) as Hqp. rewrite <- Hq in Hqp.
  assert (nrq M <= nrq M * nc M) by nia.
  unfold lane_bytes.
  rewrite (to_size_small size_bits (nrq M)) by nia.
  rewrite (to_size_small size_bits (16 * nrq M)) by nia.
  rewrite (to_size_small size_bits (nc M)) by nia.
  apply to_size_small. nia.
Qed.

Lemma copy_scrappie_matrix_in_range :
  malloc_ok = true ->
  copy_scrappie_matrix NDEBUG size_bits malloc_ok aligned_alloc_ok (Some M)
  = if aligned_alloc_ok (16 * nrq M * nc M) then Ret (Some M) else Ret None.
Proof.
  intros Hm. pose proof wf_M as (Hr & Hc & Hq & Hl & Hb).
  pose proof (ceil_quarter_pos (nr M) Hr) as Hqp. rewrite <- Hq in Hqp.
  unfold copy_scrappie_matrix.
  rewrite (make_scrappie_matrix_in_range NDEBUG size_bits malloc_ok aligned_alloc_ok
             (nr M) (nc M) size_bits_ge Hr Hc) by (rewrite <- ?Hq; assumption).
  rewrite <- Hq.
  destruct (aligned_alloc_ok (16 * nrq M * nc M)); cbn [bind]; [|reflexivity].
  cbn [nr nrq nc data]. rewrite lane_bytes_exact.
  replace (16 * nrq M * nc M / 4) with (4 * nrq M * nc M)
    by (apply Z.div_unique_exact; lia).
  destruct (memcpy_f_spec (zeros (4 * nrq M * nc M)) (data M) 0 0 (4 * nrq M * nc M))
    as [Hlen Hget]; try (rewrite ?len_zeros; nia).
  assert (Hdata : memcpy_f (zeros (4 * nrq M * nc M)) 0 (data M) 0 (4 * nrq M * nc M)
                  = data M).
  { apply getf_ext.
    - rewrite Hlen, len_zeros by nia. now rewrite Hl.
    - intros p Hp. rewrite Hlen, len_zeros in Hp by nia. rewrite Hget.
      destruct (Z.leb_spec 0 p), (Z.ltb_spec p (0 + 4 * nrq M * nc M)); try lia.
      cbn [andb]. f_equal. lia. }
  rewrite Hdata. destruct M; reflexivity.
Qed.

Lemma zero_scrappie_matrix_in_range :
  zero_scrappie_matrix size_bits (Some M)
  = Some (mkMat (nr M) (nrq M) (nc M) (zeros (4 * nrq M * nc M))).
Proof.
  pose proof wf_M as (Hr & Hc & Hq & Hl & Hb).
  pose proof (ceil_quarter_pos (nr M) Hr) as Hqp. rewrite <- Hq in Hqp.
  assert (nrq M <= nrq M * nc M) by nia.
  unfold zero_scrappie_matrix, int_mul.
  rewrite (wrap32_id (nrq M * 4)) by (unfold INT_MAX in *; nia).
  rewrite wrap32_id by (unfold INT_MAX in *; nia).
  rewrite (to_size_small size_bits (nrq M * 4 * nc M)) by nia.
  rewrite (to_size_small size_bits (nrq M * 4 * nc M * 4)) by nia.
  replace (nrq M * 4 * nc M * 4 / 4) with (4 * nrq M * nc M)
    by (apply Z.div_unique_exact; lia).
  do 2 f_equal.
  destruct (memset_zero_spec (data M) (4 * nrq M * nc M)) as [Hlen Hget]; [lia|].
  rewrite <- Hl at 2. rewrite <- Hlen.
  apply all_zero_is_zeros. intros p Hp. rewrite Hlen, Hl in Hp.
  rewrite Hget.
  destruct (Z.leb_spec 0 p), (Z.ltb_spec p (4 * nrq M * nc M)); try lia. reflexivity.
Qed.

End CopyZero.

(** ** Equality: reflexivity and symmetry *)


Lemma fabsf_binary_round_aux (s1 s2 : bool) (mx ex : Z) (l : location) :
  fabsf (binary_round_aux prec32 emax32 s1 mx ex l)
  = fabsf (binary_round_aux prec32 emax32 s2 mx ex l).
Proof.
  unfold binary_round_aux.
  destruct (shr_fexp prec32 emax32 mx ex l) as [mrs' e'].
  destruct (shr_fexp prec32 emax32 _ e' loc_Exact) as [mrs'' e''].
  destruct (shr_m mrs''); try reflexivity.
  destruct (e'' <=? emax32 - prec32); reflexivity.
Qed.

Lemma fabsf_binary_normalize_opp (z e : Z) :
  fabsf (binary_normalize prec32 emax32 (- z) e false)
  = fabsf (binary_normalize prec32 emax32 z e false).
Proof.
  destruct z as [|p|p]; simpl; try reflexivity;
    unfold binary_round;
    destruct (shl_align p e _) as [mz ez]; apply fabsf_binary_round_aux.
Qed.

Lemma fabsf_sub_comm (a b : f32) : fabsf (f32_sub a b) = fabsf (f32_sub b a).
Proof.
  destruct a as [[] | [] | | sa ma ea], b as [[] | [] | | sb mb eb]; try reflexivity.
  unfold f32_sub, SFsub. rewrite (Z.min_comm eb ea).
  rewrite <- fabsf_binary_normalize_opp. f_equal. f_equal. lia.
Qed.

Lemma for_count_ret_ext {R : Type} (body1 body2 : Z -> option R) (n : nat) :
  (forall i, body1 i = body2 i) ->
  forall lo, for_count_ret n lo body1 = for_count_ret n lo body2.
Proof.
  intros H. induction n as [|n IH]; intros lo; simpl; [reflexivity|].
  rewrite H. destruct (body2 lo); [reflexivity | apply IH].
Qed.




(** X2.  [equality_scrappie_matrix] does not depend on the order of
    its two matrices, in a debug build always and in a release build when
    the lane group counts of two present matrices agree. *)
Theorem equality_scrappie_matrix_sym (NDEBUG : bool) (A B : scrappie_matrix) (tol : f32) :
  (NDEBUG = false \/
   forall a b, A = Some a -> B = Some b -> nrq a = nrq b) ->
  equality_scrappie_matrix NDEBUG A B tol = equality_scrappie_matrix NDEBUG B A tol.
Proof.
  intros Hq. destruct A as [a|], B as [b|]; try reflexivity.
  unfold equality_scrappie_matrix.
  rewrite (Z.eqb_sym (nc b) (nc a)), (Z.eqb_sym (nr b) (nr a)), (Z.eqb_sym (nrq b) (nrq a)).
  destruct (Z.eqb_spec (nc a) (nc b)) as [Ec|Ec]; [|reflexivity].
  destruct (Z.eqb_spec (nr a) (nr b)) as [Er|Er]; [|reflexivity].
  cbn [negb orb].
  destruct (Z.eqb_spec (nrq a) (nrq b)) as [Eq|Eq].
  - rewrite assert_true. cbn [bind]. rewrite Ec, Er, Eq. do 2 f_equal.
    unfold for_range_ret. apply for_count_ret_ext. intros c.
    apply for_count_ret_ext. intros r. now rewrite fabsf_sub_comm.
  - destruct Hq as [-> | Hq]; [reflexivity|].
    exfalso. apply Eq. now apply Hq.
Qed.

Lemma equality_scrappie_matrix_sym_witness :
  equality_scrappie_matrix false (Some example_1x1) (Some example_nan_1x1) fzero
  = equality_scrappie_matrix false (Some example_nan_1x1) (Some example_1x1) fzero.
Proof. apply equality_scrappie_matrix_sym. left. reflexivity. Defined.

(** ** The matrix validator in full *)

Lemma padded_index_exact (size_bits : Z) (x : scrappie_mat) (c r : Z) :
  32 <= size_bits -> wf_matrix x -> 0 <= c < nc x -> 0 <= r < 4 * nrq x ->
  size_add size_bits (to_size size_bits (int_mul c (int_mul (nrq x) 4))) r
  = 4 * nrq x * c + r.
Proof.
  intros Hbits (Hr0 & Hc0 & Hq & Hl & Hb) Hc Hr.
  pose proof (ceil_quarter_pos (nr x) Hr0) as Hqp. rewrite <- Hq in Hqp.
  assert (0 <= nrq x * c <= nrq x * (nc x - 1)) by nia.
  assert (nrq x <= nrq x * nc x) by nia.
  unfold size_add, int_mul.
  rewrite (wrap32_id (nrq x * 4)) by (unfold INT_MAX in *; nia).
  rewrite wrap32_id by (unfold INT_MAX in *; nia).
  rewrite (to_size_id size_bits (c * (nrq x * 4))) by (unfold INT_MAX in *; nia).
  rewrite to_size_id by (unfold INT_MAX in *; nia).
  lia.
Qed.

(** A scan of rows [rlo, rhi) of every column fails exactly when it
    meets a bad element. *)
Lemma scan_matrix_fails (size_bits : Z) (m : scrappie_mat) (rlo rhi : Z) (bad : f32 -> bool) :
  32 <= size_bits -> wf_matrix m -> 0 <= rlo -> rhi <= 4 * nrq m ->
  passes (scan_matrix size_bits m (int_mul (nrq m) 4) rlo rhi bad) = false <->
  exists c r, 0 <= c < nc m /\ rlo <= r < rhi /\ bad (getf (data m) (4 * nrq m * c + r)) = true.
Proof.
  intros Hbits Hwf Hlo Hhi.
  pose proof (nested_scan_fails
    (fun c r => bad (getf (data m)
       (size_add size_bits (to_size size_bits (int_mul c (int_mul (nrq m) 4))) r)))
    (nc m) rlo rhi) as H.
  cbv beta in H. unfold scan_matrix. cbv zeta. rewrite H.
  split; intros (c & r & Hc & Hr & Hbad); exists c, r; (split; [exact Hc|]);
    (split; [exact Hr|]).
  - rewrite padded_index_exact in Hbad by (try assumption; lia). exact Hbad.
  - rewrite padded_index_exact by (try assumption; lia). exact Hbad.
Qed.

Lemma f32_lt_nan_r (a : f32) : f32_lt a NAN = false.
Proof. unfold f32_lt, SFltb, SFcompare. now destruct a. Qed.

Lemma validate_scrappie_matrix_full (size_bits : Z) (m : scrappie_mat)
    (lower upper maskval : f32) (only_finite : bool) :
  32 <= size_bits -> wf_matrix m ->
  exists b,
    validate_scrappie_matrix false size_bits (Some m) lower upper maskval only_finite
    = Ret b /\
    (b = false <->
     (isnan maskval = false /\
      exists c r, 0 <= c < nc m /\ nr m <= r < 4 * nrq m /\
        f32_ne maskval (getf (data m) (4 * nrq m * c + r)) = true) \/
     (only_finite = true /\
      exists c r, 0 <= c < nc m /\ 0 <= r < nr m /\
        isfinite (getf (data m) (4 * nrq m * c + r)) = false) \/
     (exists c r, 0 <= c < nc m /\ 0 <= r < nr m /\
        f32_lt (f32_add (getf (data m) (4 * nrq m * c + r)) FLT_EPSILON) lower = true) \/
     (exists c r, 0 <= c < nc m /\ 0 <= r < nr m /\
        f32_gt (getf (data m) (4 * nrq m * c + r)) (f32_add upper FLT_EPSILON) = true)).
Proof.
  intros Hbits Hwf.
  pose proof Hwf as (Hr0 & Hc0 & Hq & Hl & Hb).
  pose proof (ceil_quarter_bounds (nr m)) as Hcq. rewrite <- Hq in Hcq.
  assert (Hqn : nrq m <= nrq m * nc m) by nia.
  assert (Hld : int_mul (nrq m) 4 = 4 * nrq m).
  { unfold int_mul. rewrite wrap32_id by (unfold INT_MAX in *; nia). lia. }
  assert (H1 : forall rhi, rhi = 4 * nrq m ->
            passes (scan_matrix size_bits m (int_mul (nrq m) 4) (nr m) rhi
                      (fun v => f32_ne maskval v)) = false <->
            exists c r, 0 <= c < nc m /\ nr m <= r < 4 * nrq m /\
              f32_ne maskval (getf (data m) (4 * nrq m * c + r)) = true).
  { intros rhi ->. apply scan_matrix_fails; try assumption; lia. }
  specialize (H1 (int_mul (nrq m) 4) Hld).
  pose proof (scan_matrix_fails size_bits m 0 (nr m)
                (fun v => negb (isfinite v)) Hbits Hwf ltac:(lia) ltac:(lia)) as H2.
  pose proof (scan_matrix_fails size_bits m 0 (nr m)
                (fun v => f32_lt (f32_add v FLT_EPSILON) lower)
                Hbits Hwf ltac:(lia) ltac:(lia)) as H3.
  pose proof (scan_matrix_fails size_bits m 0 (nr m)
                (fun v => f32_gt v (f32_add upper FLT_EPSILON))
                Hbits Hwf ltac:(lia) ltac:(lia)) as H4.
  unfold validate_scrappie_matrix.
  replace (0 <? nc m) with true by (symmetry; apply Z.ltb_lt; lia).
  replace (0 <? nr m) with true by (symmetry; apply Z.ltb_lt; lia).
  replace ((0 <? nrq m) && (nr m <=? int_mul 4 (nrq m))) with true.
  2:{ symmetry. apply andb_true_iff. split; [apply Z.ltb_lt; lia|].
      apply Z.leb_le. unfold int_mul.
      rewrite wrap32_id by (unfold INT_MAX in *; nia). lia. }
  unfold assert. cbn [bind]. cbv zeta.
  set (p1 := passes (scan_matrix size_bits m (int_mul (nrq m) 4) (nr m)
                       (int_mul (nrq m) 4) (fun v => f32_ne maskval v))) in *.
  set (p2 := passes (scan_matrix size_bits m (int_mul (nrq m) 4) 0 (nr m)
                       (fun v => negb (isfinite v)))) in *.
  set (p3 := passes (scan_matrix size_bits m (int_mul (nrq m) 4) 0 (nr m)
                       (fun v => f32_lt (f32_add v FLT_EPSILON) lower))) in *.
  set (p4 := passes (scan_matrix size_bits m (int_mul (nrq m) 4) 0 (nr m)
                       (fun v => f32_gt v (f32_add upper FLT_EPSILON)))) in *.
  assert (Hn3 : p3 = false -> isnan lower = false).
  { intros Hp. apply H3 in Hp as (c & r & _ & _ & Hbad).
    destruct lower; try reflexivity. rewrite f32_lt_nan_r in Hbad. discriminate. }
  assert (Hn4 : p4 = false -> isnan upper = false).
  { intros Hp. apply H4 in Hp as (c & r & _ & _ & Hbad).
    destruct upper; try reflexivity. discriminate. }
  assert (H2' : p2 = false <->
                exists c r, 0 <= c < nc m /\ 0 <= r < nr m /\
                  isfinite (getf (data m) (4 * nrq m * c + r)) = false).
  { rewrite H2. split; intros (c & r & Hc & Hr & Hbad); exists c, r;
      (split; [exact Hc|]); (split; [exact Hr|]).
    - now apply negb_true_iff. - now apply negb_true_iff. }
  clearbody p1 p2 p3 p4. clear H2.
  exists (negb (negb (isnan maskval) && negb p1) && negb (only_finite && negb p2)
          && negb (negb (isnan lower) && negb p3) && negb (negb (isnan upper) && negb p4)).
  split.
  { destruct (isnan maskval), p1, only_finite, p2, (isnan lower), p3, (isnan upper), p4;
      reflexivity. }
  rewrite <- H1, <- H2', <- H3, <- H4.
  split.
  - intros Hres.
    destruct p1; [|destruct (isnan maskval) eqn:E1; [|now left]].
    all: destruct p2; [|destruct only_finite eqn:E2; [right; left; now split|]].
    all: destruct p3; [|right; right; left; reflexivity].
    all: destruct p4; [|right; right; right; reflexivity].
    all: exfalso; revert Hres;
      destruct (isnan maskval), only_finite, (isnan lower), (isnan upper); discriminate.
  - intros [[E1 Hp] | [[E2 Hp] | [Hp | Hp]]].
    + rewrite E1, Hp. reflexivity.
    + rewrite E2, Hp. cbn [negb andb]. now rewrite andb_false_r.
    + rewrite Hp, (Hn3 Hp). cbn [negb andb]. now rewrite andb_false_r.
    + rewrite Hp, (Hn4 Hp). cbn [negb andb]. now rewrite andb_false_r.
Qed.

Lemma validate_all_zero (size_bits : Z) (m : scrappie_mat) :
  32 <= size_bits -> wf_matrix m ->
  (forall p, getf (data m) p = fzero) ->
  validate_scrappie_matrix false size_bits (Some m) fzero fzero fzero true = Ret true.
Proof.
  intros Hbits Hwf Hz.
  destruct (validate_scrappie_matrix_full size_bits m fzero fzero fzero true Hbits Hwf)
    as (b & Heq & Hb).
  rewrite Heq. f_equal. destruct b; [reflexivity|].
  exfalso. destruct (proj1 Hb eq_refl)
    as [[_ (c & r & _ & _ & H)] | [[_ (c & r & _ & _ & H)] | [(c & r & _ & _ & H) | (c & r & _ & _ & H)]]];
    rewrite Hz in H; vm_compute in H; discriminate.
Qed.

(** X3.  [copy_scrappie_matrix] propagates a null handle; for a
    well-formed matrix whose padded size fits [size_t] it returns a matrix
    equal to the source in shape and in every scalar, padding included, when
    the buffer can be allocated, and the null handle when it cannot. *)
Theorem copy_scrappie_matrix_spec
    (NDEBUG : bool) (size_bits : Z) (malloc_ok : bool) (aligned_alloc_ok : Z -> bool) :
  copy_scrappie_matrix NDEBUG size_bits malloc_ok aligned_alloc_ok None = Ret None /\
  forall M, 32 <= size_bits -> wf_matrix M -> 16 * nrq M * nc M < 2 ^ size_bits ->
    malloc_ok = true ->
    copy_scrappie_matrix NDEBUG size_bits malloc_ok aligned_alloc_ok (Some M)
    = if aligned_alloc_ok (16 * nrq M * nc M) then Ret (Some M) else Ret None.
Proof.
  split; [reflexivity|]. intros M Hbits Hwf Hfit Hm.
  now apply copy_scrappie_matrix_in_range.
Qed.

Lemma copy_scrappie_matrix_spec_witness :
  copy_scrappie_matrix false 64 true always_ok (Some sevens_stale) = Ret (Some sevens_stale).
Proof.
  assert (H1 : 32 <= 64) by (vm_compute; discriminate).
  assert (H2 : 16 * nrq sevens_stale * nc sevens_stale < 2 ^ 64) by (vm_compute; reflexivity).
  destruct (copy_scrappie_matrix_spec false 64 true always_ok) as [_ H].
  exact (H sevens_stale H1 wf_sevens_stale H2 eq_refl).
Defined.

(** X4.  [zero_scrappie_matrix] leaves a null handle alone; on a
    well-formed matrix it keeps the shape and clears every scalar, padding
    included, and the cleared matrix passes the debug validator with all
    bounds and the mask value at zero and the finiteness check on. *)
Theorem zero_scrappie_matrix_spec (size_bits : Z) :
  zero_scrappie_matrix size_bits None = None /\
  forall M, 32 <= size_bits -> wf_matrix M -> 16 * nrq M * nc M < 2 ^ size_bits ->
    zero_scrappie_matrix size_bits (Some M)
    = Some (mkMat (nr M) (nrq M) (nc M) (zeros (4 * nrq M * nc M))) /\
    validate_scrappie_matrix false size_bits (zero_scrappie_matrix size_bits (Some M))
      fzero fzero fzero true = Ret true.
Proof.
  split; [reflexivity|]. intros M Hbits Hwf Hfit.
  rewrite (zero_scrappie_matrix_in_range size_bits M Hbits Hwf Hfit).
  split; [reflexivity|].
  destruct Hwf as (Hr & Hc & Hq & Hl & Hb).
  pose proof (ceil_quarter_pos (nr M) Hr) as Hqp. rewrite <- Hq in Hqp.
  apply validate_all_zero; [exact Hbits | |].
  - unfold wf_matrix. cbn [nr nrq nc data]. rewrite len_zeros by nia. auto.
  - intros p. apply getf_zeros.
Qed.

Lemma zero_scrappie_matrix_spec_witness :
  zero_scrappie_matrix 64 (Some sevens_stale)
  = Some (mkMat 7 2 1 (zeros 8)).
Proof.
  assert (H1 : 32 <= 64) by (vm_compute; discriminate).
  assert (H2 : 16 * nrq sevens_stale * nc sevens_stale < 2 ^ 64) by (vm_compute; reflexivity).
  destruct (zero_scrappie_matrix_spec 64) as [_ H].
  destruct (H sevens_stale H1 wf_sevens_stale H2) as [Heq _]. exact Heq.
Defined.

(** X5.  In a debug build [validate_scrappie_matrix] rejects a
    well-formed matrix exactly when one of its four checks finds an
    offender: a padding element different from a mask value that is not NaN;
    with [only_finite], a logical element that is not finite; a logical
    element more than [FLT_EPSILON] below [lower]; or one more than
    [FLT_EPSILON] above [upper].  NaN bounds switch their check off. *)
Theorem validate_scrappie_matrix_checks (size_bits : Z) (m : scrappie_mat)
    (lower upper maskval : f32) (only_finite : bool) :
  32 <= size_bits -> wf_matrix m ->
  exists b,
    validate_scrappie_matrix false size_bits (Some m) lower upper maskval only_finite
    = Ret b /\
    (b = false <->
     (isnan maskval = false /\
      exists c r, 0 <= c < nc m /\ nr m <= r < 4 * nrq m /\
        f32_ne maskval (getf (data m) (4 * nrq m * c + r)) = true) \/
     (only_finite = true /\
      exists c r, 0 <= c < nc m /\ 0 <= r < nr m /\
        isfinite (getf (data m) (4 * nrq m * c + r)) = false) \/
     (exists c r, 0 <= c < nc m /\ 0 <= r < nr m /\
        f32_lt (f32_add (getf (data m) (4 * nrq m * c + r)) FLT_EPSILON) lower = true) \/
     (exists c r, 0 <= c < nc m /\ 0 <= r < nr m /\
        f32_gt (getf (data m) (4 * nrq m * c + r)) (f32_add upper FLT_EPSILON) = true)).
Proof. exact (validate_scrappie_matrix_full size_bits m lower upper maskval only_finite). Qed.

Lemma validate_scrappie_matrix_checks_witness :
  validate_scrappie_matrix false 64 (Some sevens_stale) NAN NAN fzero false = Ret false.
Proof.
  assert (H1 : 32 <= 64) by (vm_compute; discriminate).
  destruct (validate_scrappie_matrix_checks 64 sevens_stale NAN NAN fzero false
              H1 wf_sevens_stale) as (b & Heq & Hb).
  rewrite Heq. f_equal. apply Hb. left. split; [reflexivity|].
  exists 0, 7. repeat split; try (vm_compute; congruence).
Defined.

(** ** Export to a flat array, and back *)

Lemma array_from_scrappie_matrix_logical
    (size_bits : Z) (calloc_ok : Z -> bool) (m : scrappie_mat) :
  32 <= size_bits -> wf_matrix m -> calloc_ok (nr m * nc m) = true ->
  exists out,
    array_from_scrappie_matrix size_bits calloc_ok (Some m) = Some out /\
    len out = nr m * nc m /\
    forall c r, 0 <= c < nc m -> 0 <= r < nr m ->
      getf out (c * nr m + r) = getf (data m) (4 * nrq m * c + r).
Proof.
  intros Hbits (Hr0 & Hc0 & Hq & Hl & Hb) Hcalloc.
  pose proof (ceil_quarter_bounds (nr m)) as Hcq. rewrite <- Hq in Hcq.
  assert (Hqn : nrq m <= nrq m * nc m) by nia.
  assert (Hnn : 0 < nr m * nc m <= 4 * nrq m * nc m) by nia.
  assert (Hs : forall z, 0 <= z <= INT_MAX -> to_size size_bits z = z)
    by (intros z Hz; now apply to_size_id).
  unfold array_from_scrappie_matrix, int_mul.
  rewrite wrap32_id by (unfold INT_MAX in *; nia).
  rewrite (Hs (nr m * nc m)) by (unfold INT_MAX in *; nia).
  rewrite Hcalloc. cbn [negb].
  rewrite (Hs (nr m)) by (unfold INT_MAX in *; nia).
  rewrite (Hs (nc m)) by (unfold INT_MAX in *; nia).
  eexists. split; [reflexivity|].
  set (f := fun p : Z * Z => fst p * nr m + snd p).
  set (g := fun p : Z * Z => getf (data m) (4 * nrq m * fst p + snd p)).
  rewrite (nested_pairs_fold (nc m) (nr m) _ (fun d p => setf d (f p) (g p))).
  2:{ intros c r d Hc Hr. unfold f, g, size_mul. cbn [fst snd].
      assert (0 <= c * nrq m <= (nc m - 1) * nrq m) by nia.
      assert (0 <= c * nr m <= (nc m - 1) * nr m) by nia.
      rewrite (Hs (c * nr m)) by (unfold INT_MAX in *; nia).
      rewrite (Hs (c * nr m + r)) by (unfold INT_MAX in *; nia).
      rewrite (Hs (c * nrq m)) by (unfold INT_MAX in *; nia).
      rewrite (Hs (c * nrq m * 4)) by (unfold INT_MAX in *; nia).
      rewrite (Hs (c * nrq m * 4 + r)) by (unfold INT_MAX in *; nia).
      do 2 f_equal; lia. }
  assert (Hrange : forall p, In p (index_pairs (nc m) (nr m)) ->
                     0 <= f p < len (zeros (nr m * nc m))).
  { intros [c r] Hp. apply in_index_pairs in Hp. unfold f. cbn [fst snd].
    rewrite len_zeros by nia.
    assert (0 <= c * nr m <= (nc m - 1) * nr m) by nia. lia. }
  split.
  - destruct (fold_setf_get f g (index_pairs (nc m) (nr m)) _ 0 Hrange) as [Hlen _].
    etransitivity; [exact Hlen | apply len_zeros; lia].
  - intros c r Hc Hr.
    destruct (fold_setf_get f g (index_pairs (nc m) (nr m)) _ (c * nr m + r) Hrange)
      as [_ [([c' r'] & Hin & Hf & Hg) | [Hnone _]]].
    + apply in_index_pairs in Hin. unfold f in Hf. cbn [fst snd] in Hf.
      assert (c' = c /\ r' = r) as [-> ->].
      { destruct (pitch_injective (nr m) c' r' c r); try lia. }
      exact Hg.
    + exfalso. apply (Hnone (c, r)); [apply in_index_pairs; lia | reflexivity].
Qed.

(** X6.  [array_from_scrappie_matrix] propagates a null handle and a
    failed [calloc]; otherwise, for a well-formed matrix, it returns the
    [nr * nc] logical elements column by column, the padding lanes left
    out. *)
Theorem array_from_scrappie_matrix_spec (size_bits : Z) (calloc_ok : Z -> bool) :
  array_from_scrappie_matrix size_bits calloc_ok None = None /\
  forall m, 32 <= size_bits -> wf_matrix m ->
    (calloc_ok (nr m * nc m) = false ->
     array_from_scrappie_matrix size_bits calloc_ok (Some m) = None) /\
    (calloc_ok (nr m * nc m) = true ->
     exists out,
       array_from_scrappie_matrix size_bits calloc_ok (Some m) = Some out /\
       len out = nr m * nc m /\
       forall c r, 0 <= c < nc m -> 0 <= r < nr m ->
         getf out (c * nr m + r) = getf (data m) (4 * nrq m * c + r)).
Proof.
  split; [reflexivity|]. intros m Hbits Hwf. split.
  - intros Hfail. destruct Hwf as (Hr0 & Hc0 & Hq & Hl & Hb).
    pose proof (ceil_quarter_bounds (nr m)) as Hcq. rewrite <- Hq in Hcq.
    assert (0 < nr m * nc m <= 4 * nrq m * nc m) by nia.
    unfold array_from_scrappie_matrix, int_mul.
    rewrite wrap32_id by (unfold INT_MAX in *; nia).
    rewrite to_size_id by (try assumption; unfold INT_MAX in *; nia).
    now rewrite Hfail.
  - intros Hok. now apply array_from_scrappie_matrix_logical.
Qed.

Lemma array_from_scrappie_matrix_spec_witness :
  exists out,
    array_from_scrappie_matrix 64 always_ok (Some sevens_stale) = Some out /\
    len out = 7.
Proof.
  assert (H1 : 32 <= 64) by (vm_compute; discriminate).
  destruct (array_from_scrappie_matrix_spec 64 always_ok) as [_ H].
  destruct (H sevens_stale H1 wf_sevens_stale) as [_ Hok].
  destruct (Hok eq_refl) as (out & Heq & Hlen & _).
  exists out. split; [exact Heq | exact Hlen].
Defined.

(** X7.  Exporting a well-formed matrix to a flat array and importing
    the array again gives a matrix of the same shape with the same logical
    elements and zero in every padding lane; it is the original matrix when
    the original's padding lanes hold zero. *)
Theorem padded_matrix_round_trip
    (NDEBUG : bool) (size_bits : Z) (malloc_ok : bool)
    (aligned_alloc_ok calloc_ok : Z -> bool) (m : scrappie_mat) :
  32 <= size_bits -> wf_matrix m -> 16 * nrq m * nc m < 2 ^ size_bits ->
  malloc_ok = true -> aligned_alloc_ok (16 * nrq m * nc m) = true ->
  calloc_ok (nr m * nc m) = true ->
  exists out m',
    array_from_scrappie_matrix size_bits calloc_ok (Some m) = Some out /\
    mat_from_array NDEBUG size_bits malloc_ok aligned_alloc_ok out (nr m) (nc m)
    = Ret (Some m') /\
    nr m' = nr m /\ nrq m' = nrq m /\ nc m' = nc m /\
    (forall c r, 0 <= c < nc m -> 0 <= r < nr m ->
       getf (data m') (4 * nrq m * c + r) = getf (data m) (4 * nrq m * c + r)) /\
    (forall c r, 0 <= c < nc m -> nr m <= r < 4 * nrq m ->
       getf (data m') (4 * nrq m * c + r) = fzero) /\
    ((forall c r, 0 <= c < nc m -> nr m <= r < 4 * nrq m ->
        getf (data m) (4 * nrq m * c + r) = fzero) -> m' = m).
Proof.
  intros Hbits Hwf Hfit Hm Ha Hc.
  destruct (array_from_scrappie_matrix_logical size_bits calloc_ok m Hbits Hwf Hc)
    as (out & Hout & Hlen & Hlog).
  pose proof Hwf as (Hr0 & Hc0 & Hq & Hl & Hb).
  pose proof (ceil_quarter_bounds (nr m)) as Hcq. rewrite <- Hq in Hcq.
  rewrite Hq in Hfit, Hb, Ha.
  destruct (copied_columns_spec size_bits (nr m) (nc m) out Hbits Hr0 Hc0 Hb Hfit)
    as (Hl' & Hlog' & Hpad').
  rewrite <- Hq in Hl', Hlog', Hpad'.
  exists out. eexists. split; [exact Hout|]. split.
  { unfold mat_from_array.
    rewrite (make_scrappie_matrix_in_range NDEBUG size_bits malloc_ok aligned_alloc_ok
               (nr m) (nc m) Hbits Hr0 Hc0 Hb Hfit Hm), Ha.
    cbn [bind nr nrq nc data]. rewrite <- Hq. reflexivity. }
  cbn [nr nrq nc data].
  split; [reflexivity|]. split; [reflexivity|]. split; [reflexivity|].
  split; [|split].
  - intros c r Hc' Hr'. rewrite Hlog' by assumption. now apply Hlog.
  - exact Hpad'.
  - intros Hzero.
    assert (Hdata : copy_columns size_bits out (nr m) (nc m) (nrq m)
                      (zeros (4 * nrq m * nc m)) = data m).
    { apply getf_ext; [now rewrite Hl', Hl|].
      intros p Hp. rewrite Hl' in Hp.
      assert (Hpitch : 0 < 4 * nrq m) by lia.
      pose proof (Z.div_mod p (4 * nrq m) ltac:(lia)) as Hdm.
      pose proof (Z.mod_pos_bound p (4 * nrq m) Hpitch) as Hmod.
      assert (Hcol : 0 <= p / (4 * nrq m) < nc m).
      { split; [apply Z.div_pos; lia | apply Z.div_lt_upper_bound; nia]. }
      rewrite Hdm.
      destruct (Z.lt_ge_cases (p mod (4 * nrq m)) (nr m)) as [Hlt | Hge].
      - rewrite Hlog' by lia. now apply Hlog; lia.
      - rewrite Hpad' by lia. symmetry. apply Hzero; lia. }
    rewrite Hdata. destruct m; reflexivity.
Qed.

Lemma padded_matrix_round_trip_witness :
  exists out m',
    array_from_scrappie_matrix 64 always_ok (Some sevens_clean) = Some out /\
    mat_from_array false 64 true always_ok out 7 1 = Ret (Some m') /\
    m' = sevens_clean.
Proof.
  assert (H1 : 32 <= 64) by (vm_compute; discriminate).
  assert (H2 : 16 * nrq sevens_clean * nc sevens_clean < 2 ^ 64) by (vm_compute; reflexivity).
  destruct (padded_matrix_round_trip false 64 true always_ok always_ok sevens_clean
              H1 wf_sevens_clean H2 eq_refl eq_refl eq_refl)
    as (out & m' & Hout & Hin & _ & _ & _ & _ & _ & Hsame).
  exists out, m'. split; [exact Hout|]. split; [exact Hin|].
  apply Hsame. intros c r Hc Hr. cbn [nr nrq nc sevens_clean] in Hc, Hr.
  assert (Hcr : c = 0 /\ r = 7) by lia. destruct Hcr as [-> ->]. reflexivity.
Defined.

(** ** Row normalisation for any padding *)

Lemma column_total_local (m1 m2 : scrappie_mat) (c : Z) :
  nr m1 = nr m2 -> nrq m1 = nrq m2 -> 0 < nrq m1 ->
  (forall k, 0 <= k < 4 * nrq m1 ->
     getf (data m1) (4 * nrq m1 * c + k) = getf (data m2) (4 * nrq m1 * c + k)) ->
  column_total m1 c = column_total m2 c.
Proof.
  intros Hnr Hq Hpos Hcol.
  assert (Hlane : forall l, 0 <= l < 4 ->
            lane_sum (data m1) (nrq m1) (4 * nrq m1 * c) l
            = lane_sum (data m2) (nrq m2) (4 * nrq m2 * c) l).
  { intros l Hl. rewrite <- Hq. unfold lane_sum.
    rewrite (Hcol l) by lia.
    apply for_range_ext. intros g s Hg. f_equal.
    replace (4 * nrq m1 * c + 4 * g + l) with (4 * nrq m1 * c + (4 * g + l)) by lia.
    apply Hcol. lia. }
  assert (Hmask : forall l, 0 <= l < 4 -> masked_padding m1 c l = masked_padding m2 c l).
  { intros l Hl. unfold masked_padding. rewrite <- Hq, <- Hnr.
    destruct (nr m1 <=? 4 * (nrq m1 - 1) + l); [apply Hcol; lia | reflexivity]. }
  unfold column_total.
  rewrite !Hlane, !Hmask by lia. reflexivity.
Qed.

(** X8.  On every well-formed matrix, whatever its padding lanes
    hold, [row_normalise_inplace] keeps the shape and multiplies each scalar
    of a column, padding included, by the reciprocal of that column's total:
    per lane the sum over all lane groups with the padding elements of the
    last group subtracted again, the four lanes then added pairwise. *)
Theorem row_normalise_inplace_any_padding (size_bits : Z) (m : scrappie_mat) :
  32 <= size_bits -> wf_matrix m ->
  exists m',
    row_normalise_inplace size_bits (Some m) = Some m' /\
    wf_matrix m' /\ nr m' = nr m /\ nc m' = nc m /\
    forall c k, 0 <= c < nc m -> 0 <= k < 4 * nrq m ->
      getf (data m') (4 * nrq m * c + k)
      = f32_mul (getf (data m) (4 * nrq m * c + k)) (f32_div fone (column_total m c)).
Proof.
  intros Hbits Hwf.
  destruct (row_normalise_data size_bits m Hbits Hwf) as (out & Heq & Hlen & Hout).
  eexists. split; [exact Heq|].
  destruct Hwf as (Hr & Hc & Hq & Hl & Hb).
  split; [|split; [reflexivity|split; [reflexivity|exact Hout]]].
  unfold wf_matrix. cbn [nr nrq nc data]. rewrite Hlen. auto.
Qed.

Lemma row_normalise_inplace_any_padding_witness :
  exists m',
    row_normalise_inplace 64 (Some sevens_stale) = Some m' /\
    getf (data m') 7
    = f32_mul stale_value (f32_div fone (column_total sevens_stale 0)).
Proof.
  assert (H1 : 32 <= 64) by (vm_compute; discriminate).
  destruct (row_normalise_inplace_any_padding 64 sevens_stale H1 wf_sevens_stale)
    as (m' & Heq & _ & _ & _ & Hout).
  exists m'. split; [exact Heq|].
  apply (Hout 0 7); vm_compute; intuition congruence.
Defined.

(** X9.  Columns are normalised independently: when two well-formed
    matrices of the same shape agree on every scalar of column [c], their
    normalised columns [c] agree as well, whatever the other columns
    hold. *)
Theorem row_normalise_inplace_column_local (size_bits : Z) (m1 m2 : scrappie_mat) (c : Z) :
  32 <= size_bits -> wf_matrix m1 -> wf_matrix m2 ->
  nr m1 = nr m2 -> nc m1 = nc m2 -> 0 <= c < nc m1 ->
  (forall k, 0 <= k < 4 * nrq m1 ->
     getf (data m1) (4 * nrq m1 * c + k) = getf (data m2) (4 * nrq m1 * c + k)) ->
  exists n1 n2,
    row_normalise_inplace size_bits (Some m1) = Some n1 /\
    row_normalise_inplace size_bits (Some m2) = Some n2 /\
    forall k, 0 <= k < 4 * nrq m1 ->
      getf (data n1) (4 * nrq m1 * c + k) = getf (data n2) (4 * nrq m1 * c + k).
Proof.
  intros Hbits Hwf1 Hwf2 Hnr Hnc Hc Hcol.
  assert (Hq : nrq m1 = nrq m2).
  { destruct Hwf1 as (_ & _ & -> & _), Hwf2 as (_ & _ & -> & _). now rewrite Hnr. }
  assert (Hpos : 0 < nrq m1).
  { destruct Hwf1 as (Hr & _ & -> & _). now apply ceil_quarter_pos. }
  destruct (row_normalise_data size_bits m1 Hbits Hwf1) as (o1 & Heq1 & _ & Hout1).
  destruct (row_normalise_data size_bits m2 Hbits Hwf2) as (o2 & Heq2 & _ & Hout2).
  do 2 eexists. split; [exact Heq1|]. split; [exact Heq2|].
  cbn [data]. intros k Hk.
  rewrite Hout1 by assumption.
  rewrite Hq at 2. rewrite Hout2 by (rewrite <- ?Hq, <- ?Hnc; assumption).
  rewrite <- Hq, Hcol by assumption.
  now rewrite (column_total_local m1 m2 c Hnr Hq Hpos Hcol).
Qed.

Lemma row_normalise_inplace_column_local_witness :
  exists n1 n2,
    row_normalise_inplace 64 (Some example_2x2) = Some n1 /\
    row_normalise_inplace 64 (Some example_2x2_alt) = Some n2 /\
    forall k, 0 <= k < 4 * nrq example_2x2 ->
      getf (data n1) (4 * nrq example_2x2 * 1 + k)
      = getf (data n2) (4 * nrq example_2x2 * 1 + k).
Proof.
  assert (H1 : 32 <= 64) by (vm_compute; discriminate).
  assert (H2 : 0 <= 1 < nc example_2x2) by (vm_compute; intuition congruence).
  assert (Hwf : wf_matrix example_2x2_alt)
    by (unfold wf_matrix, INT_MAX; vm_compute; intuition congruence).
  assert (Hcol : forall k, 0 <= k < 4 * nrq example_2x2 ->
            getf (data example_2x2) (4 * nrq example_2x2 * 1 + k)
            = getf (data example_2x2_alt) (4 * nrq example_2x2 * 1 + k)).
  { intros k Hk. change (4 * nrq example_2x2) with 4 in *.
    assert (Hc : k = 0 \/ k = 1 \/ k = 2 \/ k = 3) by lia.
    destruct Hc as [-> | [-> | [-> | ->]]]; reflexivity. }
  exact (row_normalise_inplace_column_local 64 example_2x2 example_2x2_alt 1
           H1 wf_example_2x2 Hwf eq_refl eq_refl H2 Hcol).
Defined.

(** ** The affine map on present inputs *)

Lemma columns_determine_buffer (d1 d2 : list f32) (q n : Z) :
  0 < q -> 0 <= n -> len d1 = 4 * q * n -> len d2 = 4 * q * n ->
  (forall c k, 0 <= c < n -> 0 <= k < 4 * q ->
     getf d1 (4 * q * c + k) = getf d2 (4 * q * c + k)) ->
  d1 = d2.
Proof.
  intros Hq Hn H1 H2 Hcol. apply getf_ext; [congruence|].
  intros p Hp. rewrite H1 in Hp.
  assert (Hpitch : 0 < 4 * q) by lia.
  pose proof (Z.div_mod p (4 * q) ltac:(lia)) as Hdm.
  pose proof (Z.mod_pos_bound p (4 * q) Hpitch) as Hmod.
  rewrite Hdm. apply Hcol; [|lia].
  split; [apply Z.div_pos; lia | apply Z.div_lt_upper_bound; nia].
Qed.

(** The bias broadcast fills every lane group of every column of [C]
    with the leading lane groups of [b]. *)
Lemma copy_bias_spec (size_bits : Z) (b C : scrappie_mat) :
  32 <= size_bits -> 0 < nrq C -> 0 < nc C ->
  len (data C) = 4 * nrq C * nc C -> 4 * nrq C * nc C <= INT_MAX ->
  16 * nrq C * nc C < 2 ^ size_bits ->
  exists d,
    copy_bias size_bits (Some b) C = Ret d /\
    len d = 4 * nrq C * nc C /\
    forall c k, 0 <= c < nc C -> 0 <= k < 4 * nrq C ->
      getf d (4 * nrq C * c + k) = getf (data b) k.
Proof.
  intros Hbits Hq Hnc Hl Hb Hfit.
  assert (Hqn : nrq C <= nrq C * nc C) by nia.
  unfold copy_bias, memcpy_f. eexists. split; [reflexivity|].
  rewrite (to_size_small size_bits (nrq C)) by nia.
  rewrite (to_size_small size_bits (nrq C * 16)) by nia.
  replace (nrq C * 16 / 4) with (4 * nrq C) by (apply Z.div_unique_exact; lia).
  set (f := fun p : Z * Z => 4 * nrq C * fst p + snd p).
  set (g := fun p : Z * Z => getf (data b) (snd p)).
  rewrite (nested_pairs_fold (nc C) (4 * nrq C) _ (fun d p => setf d (f p) (g p))).
  2:{ intros c k d Hc Hk. unfold f, g, int_mul. cbn [fst snd].
      assert (0 <= c * nrq C <= (nc C - 1) * nrq C) by nia.
      rewrite wrap32_id by (unfold INT_MAX in *; nia).
      f_equal; lia. }
  assert (Hrange : forall p, In p (index_pairs (nc C) (4 * nrq C)) ->
                     0 <= f p < len (data C)).
  { intros [c k] Hp. apply in_index_pairs in Hp. unfold f. cbn [fst snd].
    assert (0 <= nrq C * c <= nrq C * (nc C - 1)) by nia. lia. }
  split.
  - destruct (fold_setf_get f g (index_pairs (nc C) (4 * nrq C)) _ 0 Hrange) as [Hlen _].
    etransitivity; [exact Hlen | exact Hl].
  - intros c k Hc Hk.
    destruct (fold_setf_get f g (index_pairs (nc C) (4 * nrq C)) _ (4 * nrq C * c + k) Hrange)
      as [_ [([c' k'] & Hin & Hf & Hg) | [Hnone _]]].
    + apply in_index_pairs in Hin. unfold f in Hf. cbn [fst snd] in Hf.
      destruct (pitch_injective (4 * nrq C) c' k' c k) as [-> ->]; try lia.
      exact Hg.
    + exfalso. apply (Hnone (c, k)); [apply in_index_pairs; lia | reflexivity].
Qed.

Section AffineMap.

Variable NDEBUG : bool.
Variable size_bits : Z.
Variable malloc_ok : bool.
Variable aligned_alloc_ok : Z -> bool.
Variable cblas_sgemm :
  Z -> Z -> Z -> list f32 -> Z -> list f32 -> Z -> list f32 -> Z -> list f32.
Variables X W b : scrappie_mat.

Hypothesis size_bits_ge : 32 <= size_bits.
Hypothesis rows_agree : nr W = nr X.
Hypothesis out_rows : 0 < nc W.
Hypothesis out_cols : 0 < nc X.
Hypothesis fits_int : 4 * ceil_quarter (nc W) * nc X <= INT_MAX.
Hypothesis fits_size : 16 * ceil_quarter (nc W) * nc X < 2 ^ size_bits.

(** The output of the multiply on a buffer [d] holding the bias. *)
Let product (d : list f32) : scrappie_mat :=
  mkMat (nc W) (ceil_quarter (nc W)) (nc X)
    (cblas_sgemm (nc W) (nc X) (nr W) (data W) (int_mul (nrq W) 4)
       (data X) (int_mul (nrq X) 4) d (int_mul (ceil_quarter (nc W)) 4)).

Let broadcast (d : list f32) : Prop :=
  len d = 4 * ceil_quarter (nc W) * nc X /\
  forall c k, 0 <= c < nc X -> 0 <= k < 4 * ceil_quarter (nc W) ->
    getf d (4 * ceil_quarter (nc W) * c + k) = getf (data b) k.

Lemma affine_map_fresh :
  malloc_ok = true -> aligned_alloc_ok (16 * ceil_quarter (nc W) * nc X) = true ->
  exists d,
    affine_map NDEBUG size_bits malloc_ok aligned_alloc_ok cblas_sgemm
      (Some X) (Some W) (Some b) None = Ret (Some (product d)) /\
    broadcast d.
Proof.
  intros Hm Ha.
  pose proof (ceil_quarter_pos (nc W) out_rows) as Hq.
  unfold affine_map. cbn [is_some]. rewrite !assert_true. cbn [bind].
  rewrite rows_agree, Z.eqb_refl, assert_true. cbn [bind].
  unfold remake_scrappie_matrix. cbn [shape_differs free_scrappie_matrix].
  rewrite (make_scrappie_matrix_in_range NDEBUG size_bits malloc_ok aligned_alloc_ok
             (nc W) (nc X) size_bits_ge out_rows out_cols fits_int fits_size Hm), Ha.
  cbn [bind fst].
  destruct (copy_bias_spec size_bits b
              (mkMat (nc W) (ceil_quarter (nc W)) (nc X)
                     (zeros (4 * ceil_quarter (nc W) * nc X))))
    as (d & Hd & Hlen & Hget); cbn [nr nrq nc data]; try assumption; try lia.
  { apply len_zeros. nia. }
  cbn [nr nrq nc data] in Hd, Hlen, Hget.
  rewrite Hd. cbn [bind nr nrq nc]. rewrite <- rows_agree.
  exists d. split; [reflexivity | split; assumption].
Qed.

Lemma affine_map_reuse (C : scrappie_mat) :
  wf_matrix C -> nr C = nc W -> nc C = nc X ->
  exists d,
    affine_map NDEBUG size_bits malloc_ok aligned_alloc_ok cblas_sgemm
      (Some X) (Some W) (Some b) (Some C) = Ret (Some (product d)) /\
    broadcast d.
Proof.
  intros (Hr & Hc & Hqc & Hl & Hb) HnrC HncC.
  pose proof (ceil_quarter_pos (nc W) out_rows) as Hq.
  rewrite HnrC in Hqc.
  unfold affine_map. cbn [is_some]. rewrite !assert_true. cbn [bind].
  rewrite rows_agree, Z.eqb_refl, assert_true. cbn [bind].
  unfold remake_scrappie_matrix, shape_differs.
  rewrite HnrC, HncC, !Z.eqb_refl. cbn [negb orb bind fst].
  destruct (copy_bias_spec size_bits b C) as (d & Hd & Hlen & Hget);
    try (rewrite ?Hqc, ?HncC; assumption); try lia.
  rewrite Hqc, HncC in Hlen, Hget.
  rewrite Hd. cbn [bind]. rewrite HnrC, HncC, Hqc, <- rows_agree.
  exists d. split; [reflexivity | split; assumption].
Qed.

End AffineMap.

(** X10.  With [X], [W] and [b] present, [W] and [X] of equal row
    count and an output shape in range, [affine_map] returns a matrix of
    [W]'s column count by [X]'s column count: the external multiply applied
    to a buffer in which every column, padding included, holds the leading
    lane groups of [b].  A well-formed output matrix of that shape passed in
    for reuse is used as it is, whatever the allocator would do, and gives
    the same result as a freshly allocated one, whatever it held before.
    When an output matrix has to be allocated (none was passed in, or one of
    another shape, which is released) and the allocation fails, the result
    is the null handle. *)
Theorem affine_map_present
    (NDEBUG : bool) (size_bits : Z) (malloc_ok : bool) (aligned_alloc_ok : Z -> bool)
    (cblas_sgemm : Z -> Z -> Z -> list f32 -> Z -> list f32 -> Z -> list f32 -> Z -> list f32)
    (X W b : scrappie_mat) :
  32 <= size_bits -> nr W = nr X -> 0 < nc W -> 0 < nc X ->
  4 * ceil_quarter (nc W) <= len (data b) ->
  4 * ceil_quarter (nc W) * nc X <= INT_MAX ->
  16 * ceil_quarter (nc W) * nc X < 2 ^ size_bits ->
  (malloc_ok && aligned_alloc_ok (16 * ceil_quarter (nc W) * nc X) = true ->
   (exists d,
      affine_map NDEBUG size_bits malloc_ok aligned_alloc_ok cblas_sgemm
        (Some X) (Some W) (Some b) None
      = Ret (Some (mkMat (nc W) (ceil_quarter (nc W)) (nc X)
               (cblas_sgemm (nc W) (nc X) (nr W) (data W) (int_mul (nrq W) 4)
                  (data X) (int_mul (nrq X) 4) d (int_mul (ceil_quarter (nc W)) 4)))) /\
      len d = 4 * ceil_quarter (nc W) * nc X /\
      forall c k, 0 <= c < nc X -> 0 <= k < 4 * ceil_quarter (nc W) ->
        getf d (4 * ceil_quarter (nc W) * c + k) = getf (data b) k) /\
   (forall C, wf_matrix C -> nr C = nc W -> nc C = nc X ->
      affine_map NDEBUG size_bits malloc_ok aligned_alloc_ok cblas_sgemm
        (Some X) (Some W) (Some b) (Some C)
      = affine_map NDEBUG size_bits malloc_ok aligned_alloc_ok cblas_sgemm
          (Some X) (Some W) (Some b) None)) /\
  (forall C, wf_matrix C -> nr C = nc W -> nc C = nc X ->
     exists d,
       affine_map NDEBUG size_bits malloc_ok aligned_alloc_ok cblas_sgemm
         (Some X) (Some W) (Some b) (Some C)
       = Ret (Some (mkMat (nc W) (ceil_quarter (nc W)) (nc X)
                (cblas_sgemm (nc W) (nc X) (nr W) (data W) (int_mul (nrq W) 4)
                   (data X) (int_mul (nrq X) 4) d (int_mul (ceil_quarter (nc W)) 4)))) /\
       len d = 4 * ceil_quarter (nc W) * nc X /\
       forall c k, 0 <= c < nc X -> 0 <= k < 4 * ceil_quarter (nc W) ->
         getf d (4 * ceil_quarter (nc W) * c + k) = getf (data b) k) /\
  (malloc_ok && aligned_alloc_ok (16 * ceil_quarter (nc W) * nc X) = false ->
   forall C,
     (C = None \/ exists c, C = Some c /\ (nr c <> nc W \/ nc c <> nc X)) ->
     affine_map NDEBUG size_bits malloc_ok aligned_alloc_ok cblas_sgemm
       (Some X) (Some W) (Some b) C
     = Ret None).
Proof.
  intros Hbits Hrows Hor Hoc Hbias Hint Hsize.
  split; [|split].
  - intros Halloc. apply andb_prop in Halloc as [Hm Ha].
    destruct (affine_map_fresh NDEBUG size_bits malloc_ok aligned_alloc_ok cblas_sgemm
                X W b Hbits Hrows Hor Hoc Hint Hsize Hm Ha) as (d & Hfresh & Hlen & Hget).
    split.
    + exists d. split; [exact Hfresh | split; assumption].
    + intros C HwfC HnrC HncC.
      destruct (affine_map_reuse NDEBUG size_bits malloc_ok aligned_alloc_ok cblas_sgemm
                  X W b Hbits Hrows Hor Hoc Hint Hsize C HwfC HnrC HncC)
        as (d' & Hreuse & Hlen' & Hget').
      rewrite Hfresh, Hreuse.
      pose proof (ceil_quarter_pos (nc W) Hor) as Hq.
      assert (Hd : d' = d).
      { apply (columns_determine_buffer d' d (ceil_quarter (nc W)) (nc X));
          try assumption; try lia.
        intros c k Hc Hk. now rewrite Hget', Hget. }
      now rewrite Hd.
  - intros C HwfC HnrC HncC.
    destruct (affine_map_reuse NDEBUG size_bits malloc_ok aligned_alloc_ok cblas_sgemm
                X W b Hbits Hrows Hor Hoc Hint Hsize C HwfC HnrC HncC)
      as (d & Hreuse & Hlen & Hget).
    exists d. split; [exact Hreuse | split; assumption].
  - intros Hfail C HC.
    assert (Hd : shape_differs C (nc W) (nc X) = true).
    { destruct HC as [-> | (c & -> & Hne)]; [reflexivity|]. simpl.
      destruct (Z.eqb_spec (nr c) (nc W)), (Z.eqb_spec (nc c) (nc X)); simpl; auto. tauto. }
    assert (Hmake : make_scrappie_matrix NDEBUG size_bits malloc_ok aligned_alloc_ok
                      (nc W) (nc X) = Ret None).
    { destruct malloc_ok eqn:Hm; cbn [andb] in Hfail.
      - rewrite (make_scrappie_matrix_in_range NDEBUG size_bits true aligned_alloc_ok
                   (nc W) (nc X) Hbits Hor Hoc Hint Hsize eq_refl), Hfail. reflexivity.
      - unfold make_scrappie_matrix.
        replace (0 <? nc W) with true by (symmetry; apply Z.ltb_lt; lia).
        replace (0 <? nc X) with true by (symmetry; apply Z.ltb_lt; lia).
        rewrite !assert_true. reflexivity. }
    unfold affine_map. cbn [is_some]. rewrite !assert_true. cbn [bind].
    rewrite Hrows, Z.eqb_refl, assert_true. cbn [bind].
    unfold remake_scrappie_matrix. rewrite Hd.
    destruct (free_scrappie_matrix C) as [freed released].
    rewrite Hmake. reflexivity.
Qed.

Lemma affine_map_present_witness :
  affine_map false 64 true always_ok reference_sgemm
    (Some example_2x2) (Some identity_2x2) (Some zero_bias_2) (Some stale_output_2x2)
  = affine_map false 64 true always_ok reference_sgemm
      (Some example_2x2) (Some identity_2x2) (Some zero_bias_2) None.
Proof.
  assert (H1 : 32 <= 64) by (vm_compute; discriminate).
  assert (H2 : 0 < 2) by reflexivity.
  assert (H3 : 4 * ceil_quarter (nc identity_2x2) * nc example_2x2 <= INT_MAX)
    by (vm_compute; discriminate).
  assert (H4 : 16 * ceil_quarter (nc identity_2x2) * nc example_2x2 < 2 ^ 64)
    by (vm_compute; reflexivity).
  assert (H5 : 4 * ceil_quarter (nc identity_2x2) <= len (data zero_bias_2))
    by (vm_compute; discriminate).
  destruct (affine_map_present false 64 true always_ok reference_sgemm
              example_2x2 identity_2x2 zero_bias_2 H1 eq_refl H2 H2 H5 H3 H4)
    as [Hok _].
  destruct (Hok eq_refl) as [_ Hreuse].
  apply Hreuse; [|reflexivity|reflexivity].
  unfold wf_matrix, INT_MAX. vm_compute. intuition congruence.
Defined.

(** X11.  With all five inputs present and the shapes the assertions
    ask for, [affine_map2] is [affine_map] on the forward inputs followed by
    one more accumulating multiply of the backward inputs into the same
    output; it is null or fails exactly when that forward [affine_map]
    does. *)
Theorem affine_map2_is_affine_map_then_multiply
    (NDEBUG : bool) (size_bits : Z) (malloc_ok : bool) (aligned_alloc_ok : Z -> bool)
    (cblas_sgemm : Z -> Z -> Z -> list f32 -> Z -> list f32 -> Z -> list f32 -> Z -> list f32)
    (Xf Xb Wf Wb b : scrappie_mat) (C : scrappie_matrix) :
  nr Wb = nr Xb -> nc Xf = nc Xb -> nc Wf = nc Wb ->
  affine_map2 NDEBUG size_bits malloc_ok aligned_alloc_ok cblas_sgemm
    (Some Xf) (Some Xb) (Some Wf) (Some Wb) (Some b) C
  = (C1 <- affine_map NDEBUG size_bits malloc_ok aligned_alloc_ok cblas_sgemm
             (Some Xf) (Some Wf) (Some b) C ;;
     match C1 with
     | None => Ret None
     | Some c1 =>
         Ret (Some (mkMat (nr c1) (nrq c1) (nc c1)
                (cblas_sgemm (nc Wb) (nc Xb) (nr Wb) (data Wb) (int_mul (nrq Wb) 4)
                   (data Xb) (int_mul (nrq Xb) 4) (data c1) (int_mul (nrq c1) 4))))
     end).
Proof.
  intros H1 H2 H3. unfold affine_map2, affine_map. cbn [is_some].
  rewrite !assert_true. cbn [bind].
  rewrite H1, H2, H3, !Z.eqb_refl, !assert_true. cbn [bind].
  destruct (assert NDEBUG (nr Wf =? nr Xf)) as [[]| |]; cbn [bind]; try reflexivity.
  destruct (remake_scrappie_matrix NDEBUG size_bits malloc_ok aligned_alloc_ok C
              (nc Wb) (nc Xb)) as [[[c1|] released]| |]; cbn [bind fst]; reflexivity.
Qed.

Lemma affine_map2_is_affine_map_then_multiply_witness :
  affine_map2 false 64 true always_ok reference_sgemm
    (Some example_2x2) (Some example_2x2_alt) (Some identity_2x2) (Some identity_2x2)
    (Some zero_bias_2) None
  = (C1 <- affine_map false 64 true always_ok reference_sgemm
             (Some example_2x2) (Some identity_2x2) (Some zero_bias_2) None ;;
     match C1 with
     | None => Ret None
     | Some c1 =>
         Ret (Some (mkMat (nr c1) (nrq c1) (nc c1)
                (reference_sgemm (nc identity_2x2) (nc example_2x2_alt) (nr identity_2x2)
                   (data identity_2x2) (int_mul (nrq identity_2x2) 4)
                   (data example_2x2_alt) (int_mul (nrq example_2x2_alt) 4)
                   (data c1) (int_mul (nrq c1) 4))))
     end).
Proof.
  apply affine_map2_is_affine_map_then_multiply; reflexivity.
Defined.

(** ** The diagnostic dump *)

Lemma for_count_append {A : Type} (F : Z -> A) (n : nat) :
  forall lo init,
    for_count n lo (fun i out => out ++ [F i]) init = init ++ map F (zseq lo n).
Proof.
  induction n as [|n IH]; intros lo init; simpl.
  - now rewrite app_nil_r.
  - rewrite IH, <- app_assoc. reflexivity.
Qed.

Lemma map_ext_zseq {A : Type} (F G : Z -> A) (n : nat) (lo : Z) :
  (forall i, lo <= i < lo + Z.of_nat n -> F i = G i) ->
  map F (zseq lo n) = map G (zseq lo n).
Proof.
  intros H. apply map_ext_in. intros i Hi. apply in_zseq in Hi. now apply H.
Qed.

Lemma clamp_limit_range (asked limit : Z) :
  0 < limit ->
  0 < clamp_limit asked limit <= limit /\
  (0 < asked <= limit -> clamp_limit asked limit = asked).
Proof.
  intros Hl. unfold clamp_limit.
  destruct (Z.leb_spec asked 0), (Z.ltb_spec limit asked); cbn [orb]; lia.
Qed.

(** X12.  On a well-formed matrix [fprint_scrappie_matrix] writes the
    header (when one is given) and then one line per column for the first
    [nc'] columns, each holding the first [nr'] scalars of that column in
    row order, where a request that is not positive or exceeds what is there
    is replaced by all of it: the logical rows, or with [include_padding]
    all [4 * nrq] rows, and all columns.  When the header cannot be written
    nothing else is written. *)
Theorem fprint_scrappie_matrix_lines
    (NDEBUG : bool) (size_bits : Z) (fputs_ok : bool) (header : option string)
    (m : scrappie_mat) (nr_ nc_ : Z) (include_padding : bool) :
  32 <= size_bits -> wf_matrix m ->
  let rows := clamp_limit nr_ (if include_padding then 4 * nrq m else nr m) in
  let cols := clamp_limit nc_ (nc m) in
  let body :=
    map (fun c => ColumnLine c
           (map (fun r => getf (data m) (4 * nrq m * c + r)) (zseq 0 (Z.to_nat rows))))
        (zseq 0 (Z.to_nat cols)) in
  fprint_scrappie_matrix NDEBUG size_bits fputs_ok true header (Some m)
    nr_ nc_ include_padding
  = Ret (match header with
         | Some text => if fputs_ok then HeaderLine text :: body else []
         | None => body
         end) /\
  0 < rows <= (if include_padding then 4 * nrq m else nr m) /\
  0 < cols <= nc m.
Proof.
  intros Hbits Hwf rows cols body.
  pose proof Hwf as (Hr0 & Hc0 & Hq & Hl & Hb).
  pose proof (ceil_quarter_bounds (nr m)) as Hcq. rewrite <- Hq in Hcq.
  assert (Hqn : nrq m <= nrq m * nc m) by nia.
  assert (Hrl : 0 < (if include_padding then 4 * nrq m else nr m) <= 4 * nrq m)
    by (destruct include_padding; lia).
  destruct (clamp_limit_range nr_ _ (proj1 Hrl)) as [Hrows _].
  destruct (clamp_limit_range nc_ (nc m) Hc0) as [Hcols _].
  fold rows in Hrows. fold cols in Hcols.
  split; [|split; assumption].
  unfold fprint_scrappie_matrix. cbn [is_some]. rewrite !assert_true. cbn [bind negb].
  assert (H4 : int_mul 4 (nrq m) = 4 * nrq m).
  { unfold int_mul. apply wrap32_id. unfold INT_MAX in *. nia. }
  rewrite H4.
  change (if (nr_ <=? 0) || ((if include_padding then 4 * nrq m else nr m) <? nr_)
          then if include_padding then 4 * nrq m else nr m else nr_) with rows.
  change (if (nc_ <=? 0) || (nc m <? nc_) then nc m else nc_) with cols.
  assert (Hbody : forall init,
    for_range 0 cols (fun c out =>
      out ++ [ColumnLine c
                (for_range 1 rows (fun r values =>
                   values ++ [getf (data m)
                     (size_add size_bits (size_col_offset size_bits c (nrq m)) r)])
                   [getf (data m) (size_col_offset size_bits c (nrq m))])]) init
    = init ++ body).
  { intros init. unfold for_range at 1. rewrite for_count_append, Z.sub_0_r.
    f_equal. unfold body. apply map_ext_zseq. intros c Hc. f_equal.
    unfold for_range. rewrite for_count_append.
    assert (Hoff : size_col_offset size_bits c (nrq m) = 4 * nrq m * c).
    { assert (0 <= c * nrq m <= (nc m - 1) * nrq m) by nia.
      unfold size_col_offset, col_offset, int_mul.
      rewrite (wrap32_id (c * nrq m)) by (unfold INT_MAX in *; nia).
      rewrite wrap32_id by (unfold INT_MAX in *; nia).
      rewrite to_size_id by (try assumption; unfold INT_MAX in *; nia). lia. }
    rewrite Hoff.
    replace (Z.to_nat rows) with (S (Z.to_nat (rows - 1))) by lia.
    cbn [zseq map app]. rewrite Z.add_0_r. f_equal.
    apply map_ext_zseq. intros r Hr. f_equal.
    assert (0 <= nrq m * c <= nrq m * (nc m - 1)) by nia.
    unfold size_add. apply to_size_id; [assumption | unfold INT_MAX in *; nia]. }
  destruct header as [text|].
  - destruct fputs_ok; [|reflexivity]. now rewrite Hbody.
  - now rewrite Hbody.
Qed.

Lemma fprint_scrappie_matrix_lines_witness :
  fprint_scrappie_matrix false 64 true true (Some "X"%string) (Some example_2x2) 0 1 false
  = Ret [HeaderLine "X"; ColumnLine 0 [f32_of_Z 1; f32_of_Z 3]].
Proof.
  assert (H1 : 32 <= 64) by (vm_compute; discriminate).
  destruct (fprint_scrappie_matrix_lines false 64 true (Some "X"%string) example_2x2 0 1 false
              H1 wf_example_2x2) as [Heq _].
  exact Heq.
Defined.

(** ** The integer matrix *)

Lemma len_seti (d : list Z) (i v : Z) : len (IMatrix.seti d i v) = len d.
Proof.
  unfold IMatrix.seti, len. destruct (0 <=? i); [now rewrite length_set_nth | reflexivity].
Qed.

Lemma geti_seti (d : list Z) (i q v : Z) :
  0 <= i < len d ->
  IMatrix.geti (IMatrix.seti d i v) q = if q =? i then v else IMatrix.geti d q.
Proof.
  unfold IMatrix.geti, IMatrix.seti, len. intros Hi.
  destruct (0 <=? i) eqn:Hi0; [|lia].
  destruct (0 <=? q) eqn:Hq0.
  - rewrite nth_set_nth by lia.
    destruct (Z.eqb_spec q i) as [-> | Hne].
    + now rewrite Nat.eqb_refl.
    + destruct (Nat.eqb_spec (Z.to_nat q) (Z.to_nat i)); [lia | reflexivity].
  - destruct (Z.eqb_spec q i); [lia | reflexivity].
Qed.

Lemma len_izeros (n : Z) : 0 <= n -> len (IMatrix.izeros n) = n.
Proof. unfold len, IMatrix.izeros. rewrite repeat_length. lia. Qed.

Lemma geti_izeros (n q : Z) : IMatrix.geti (IMatrix.izeros n) q = 0.
Proof.
  unfold IMatrix.geti, IMatrix.izeros.
  destruct (0 <=? q); [apply nth_repeat | reflexivity].
Qed.

Lemma geti_ext (a b : list Z) :
  len a = len b -> (forall q, 0 <= q < len a -> IMatrix.geti a q = IMatrix.geti b q) -> a = b.
Proof.
  unfold len, IMatrix.geti. intros Hlen H.
  apply (nth_ext a b 0 0); [lia|].
  intros n Hn. specialize (H (Z.of_nat n) ltac:(lia)).
  destruct (0 <=? Z.of_nat n) eqn:E; [|lia].
  now rewrite Nat2Z.id in H.
Qed.

(** A run of [int] stores at the offsets [off + k], [k < n]. *)
Lemma store_run_geti (g : Z -> Z) (n : nat) :
  forall d off q,
    0 <= off -> off + Z.of_nat n <= len d ->
    let d' := fold_left (fun d k => IMatrix.seti d k (g k)) (zseq off n) d in
    len d' = len d /\
    IMatrix.geti d' q = if (off <=? q) && (q <? off + Z.of_nat n) then g q
                        else IMatrix.geti d q.
Proof.
  induction n as [|n IH]; intros d off q Hoff Hfit; cbn [zseq fold_left].
  - split; [reflexivity|].
    destruct (Z.leb_spec off q), (Z.ltb_spec q (off + Z.of_nat 0)); try reflexivity. lia.
  - destruct (IH (IMatrix.seti d off (g off)) (off + 1) q) as [Hlen Hget];
      [lia | rewrite len_seti; lia |].
    rewrite len_seti in Hlen. split; [exact Hlen|].
    rewrite Hget, geti_seti by lia.
    destruct (Z.leb_spec (off + 1) q), (Z.ltb_spec q (off + 1 + Z.of_nat n)),
             (Z.leb_spec off q), (Z.ltb_spec q (off + Z.of_nat (Datatypes.S n))),
             (Z.eqb_spec q off); cbn [andb]; try lia; try reflexivity.
    subst. reflexivity.
Qed.

Lemma shifted_store_run (h : Z -> Z) (doff : Z) (n : nat) :
  forall lo d,
    fold_left (fun d k => IMatrix.seti d (doff + k) (h k)) (zseq lo n) d
    = fold_left (fun d j => IMatrix.seti d j (h (j - doff))) (zseq (doff + lo) n) d.
Proof.
  induction n as [|n IH]; intros lo d; cbn [zseq fold_left]; [reflexivity|].
  replace (doff + lo - doff) with lo by lia.
  rewrite IH. now replace (doff + (lo + 1)) with (doff + lo + 1) by lia.
Qed.

Lemma memcpy_i_spec (dst src : list Z) (doff soff n : Z) :
  0 <= doff -> 0 <= n -> doff + n <= len dst ->
  len (IMatrix.memcpy_i dst doff src soff n) = len dst /\
  forall p, IMatrix.geti (IMatrix.memcpy_i dst doff src soff n) p
            = if (doff <=? p) && (p <? doff + n)
              then IMatrix.geti src (soff + (p - doff)) else IMatrix.geti dst p.
Proof.
  intros Hd Hn Hfit. unfold IMatrix.memcpy_i, for_range.
  rewrite for_count_fold, Z.sub_0_r.
  rewrite (shifted_store_run (fun k => IMatrix.geti src (soff + k)) doff).
  rewrite Z.add_0_r.
  split.
  - now destruct (store_run_geti (fun j => IMatrix.geti src (soff + (j - doff)))
                    (Z.to_nat n) dst doff 0 Hd ltac:(lia)) as [Hlen _].
  - intros p.
    destruct (store_run_geti (fun j => IMatrix.geti src (soff + (j - doff)))
                (Z.to_nat n) dst doff p Hd ltac:(lia)) as [_ Hget].
    cbv zeta in Hget. rewrite Hget. now rewrite Z2Nat.id by lia.
Qed.

Lemma memset_izero_spec (buf : list Z) (n : Z) :
  0 <= n <= len buf ->
  len (IMatrix.memset_izero buf n) = len buf /\
  forall p, IMatrix.geti (IMatrix.memset_izero buf n) p
            = if (0 <=? p) && (p <? n) then 0 else IMatrix.geti buf p.
Proof.
  intros Hn. unfold IMatrix.memset_izero, for_range.
  rewrite for_count_fold, Z.sub_0_r.
  split.
  - now destruct (store_run_geti (fun _ => 0) (Z.to_nat n) buf 0 0 ltac:(lia) ltac:(lia))
      as [Hlen _].
  - intros p.
    destruct (store_run_geti (fun _ => 0) (Z.to_nat n) buf 0 p ltac:(lia) ltac:(lia))
      as [_ Hget].
    cbv zeta in Hget. rewrite Hget. now rewrite Z2Nat.id, Z.add_0_l by lia.
Qed.

Section IntegerInRange.

Variable NDEBUG : bool.
Variable size_bits : Z.
Variable malloc_ok : bool.
Variable aligned_alloc_ok : Z -> bool.
Variables nr_ nc_ : Z.

Hypothesis size_bits_ge : 32 <= size_bits.
Hypothesis nr_pos : 0 < nr_.
Hypothesis nc_pos : 0 < nc_.
Hypothesis fits_int : 4 * ceil_quarter nr_ * nc_ <= INT_MAX.
Hypothesis fits_size : 16 * ceil_quarter nr_ * nc_ < 2 ^ size_bits.

Lemma make_scrappie_imatrix_in_range :
  malloc_ok = true ->
  IMatrix.make_scrappie_imatrix NDEBUG size_bits malloc_ok aligned_alloc_ok nr_ nc_
  = if aligned_alloc_ok (16 * ceil_quarter nr_ * nc_)
    then Ret (Some (IMatrix.mkIMat nr_ (ceil_quarter nr_) nc_
                      (IMatrix.izeros (4 * ceil_quarter nr_ * nc_))))
    else Ret None.
Proof using size_bits_ge nr_pos nc_pos fits_int fits_size.
  intros Hm. unfold IMatrix.make_scrappie_imatrix.
  pose proof (ceil_quarter_pos nr_ nr_pos) as Hq.
  set (q := ceil_quarter nr_) in *.
  assert (Hqn : q <= q * nc_) by nia.
  replace (0 <? nr_) with true by (symmetry; apply Z.ltb_lt; lia).
  replace (0 <? nc_) with true by (symmetry; apply Z.ltb_lt; lia).
  rewrite !assert_true. unfold bind. rewrite Hm. cbv zeta. cbn [negb].
  unfold int_mul. rewrite wrap32_id by (unfold INT_MAX in *; nia).
  rewrite (to_size_small size_bits (q * nc_)) by nia.
  rewrite (to_size_small size_bits (q * nc_ * 16)) by nia.
  replace (q * nc_ * 16) with (16 * q * nc_) by lia.
  replace (16 * q * nc_ / 4) with (4 * q * nc_)
    by (apply Z.div_unique_exact; lia).
  destruct (aligned_alloc_ok (16 * q * nc_)); reflexivity.
Qed.

End IntegerInRange.

Lemma wf_fresh_imatrix (nr_ nc_ : Z) :
  0 < nr_ -> 0 < nc_ -> 4 * ceil_quarter nr_ * nc_ <= INT_MAX ->
  IMatrix.wf_imatrix (IMatrix.mkIMat nr_ (ceil_quarter nr_) nc_
                        (IMatrix.izeros (4 * ceil_quarter nr_ * nc_))).
Proof.
  intros Hr Hc Hb. pose proof (ceil_quarter_pos nr_ Hr) as Hq.
  unfold IMatrix.wf_imatrix. cbn [IMatrix.nr IMatrix.nrq IMatrix.nc IMatrix.data].
  rewrite len_izeros by nia. auto.
Qed.

Lemma wf_iexample_2x2 : IMatrix.wf_imatrix iexample_2x2.
Proof. unfold IMatrix.wf_imatrix. vm_compute. repeat split; congruence. Qed.

Lemma lane_bytes_small (size_bits q n : Z) :
  0 < q -> 0 < n -> 16 * q * n < 2 ^ size_bits ->
  lane_bytes size_bits q n = 16 * q * n.
Proof.
  intros Hq Hn Hfit. assert (q <= q * n) by nia. unfold lane_bytes.
  rewrite (to_size_small size_bits q) by nia.
  rewrite (to_size_small size_bits (16 * q)) by nia.
  rewrite (to_size_small size_bits n) by nia.
  apply to_size_small. nia.
Qed.

Lemma copy_scrappie_imatrix_in_range
    (NDEBUG : bool) (size_bits : Z) (malloc_ok : bool) (aligned_alloc_ok : Z -> bool)
    (M : IMatrix.scrappie_imat) :
  32 <= size_bits -> IMatrix.wf_imatrix M ->
  16 * IMatrix.nrq M * IMatrix.nc M < 2 ^ size_bits -> malloc_ok = true ->
  IMatrix.copy_scrappie_imatrix NDEBUG size_bits malloc_ok aligned_alloc_ok (Some M)
  = if aligned_alloc_ok (16 * IMatrix.nrq M * IMatrix.nc M) then Ret (Some M) else Ret None.
Proof.
  intros Hbits (Hr & Hc & Hq & Hl & Hb) Hfit Hm.
  pose proof (ceil_quarter_pos (IMatrix.nr M) Hr) as Hqp. rewrite <- Hq in Hqp.
  unfold IMatrix.copy_scrappie_imatrix.
  rewrite (make_scrappie_imatrix_in_range NDEBUG size_bits malloc_ok aligned_alloc_ok
             (IMatrix.nr M) (IMatrix.nc M) Hbits Hr Hc) by (rewrite <- ?Hq; assumption).
  rewrite <- Hq.
  destruct (aligned_alloc_ok (16 * IMatrix.nrq M * IMatrix.nc M)); cbn [bind]; [|reflexivity].
  cbn [IMatrix.nr IMatrix.nrq IMatrix.nc IMatrix.data].
  rewrite lane_bytes_small by assumption.
  replace (16 * IMatrix.nrq M * IMatrix.nc M / 4) with (4 * IMatrix.nrq M * IMatrix.nc M)
    by (apply Z.div_unique_exact; lia).
  set (n := 4 * IMatrix.nrq M * IMatrix.nc M) in *.
  assert (Hn : 0 <= n) by (unfold n; nia).
  destruct (memcpy_i_spec (IMatrix.izeros n) (IMatrix.data M) 0 0 n)
    as [Hlen Hget]; try (rewrite ?len_izeros; lia).
  assert (Hdata : IMatrix.memcpy_i (IMatrix.izeros n) 0 (IMatrix.data M) 0 n = IMatrix.data M).
  { apply geti_ext.
    - rewrite Hlen, len_izeros by lia. now rewrite Hl.
    - intros p Hp. rewrite Hlen, len_izeros in Hp by lia. rewrite Hget.
      destruct (Z.leb_spec 0 p), (Z.ltb_spec p (0 + n)); try lia.
      cbn [andb]. f_equal. lia. }
  rewrite Hdata. destruct M; reflexivity.
Qed.

Lemma zero_scrappie_imatrix_in_range (size_bits : Z) (M : IMatrix.scrappie_imat) :
  32 <= size_bits -> IMatrix.wf_imatrix M ->
  16 * IMatrix.nrq M * IMatrix.nc M < 2 ^ size_bits ->
  IMatrix.zero_scrappie_imatrix size_bits (Some M)
  = Some (IMatrix.mkIMat (IMatrix.nr M) (IMatrix.nrq M) (IMatrix.nc M)
            (IMatrix.izeros (4 * IMatrix.nrq M * IMatrix.nc M))).
Proof.
  intros Hbits (Hr & Hc & Hq & Hl & Hb) Hfit.
  pose proof (ceil_quarter_pos (IMatrix.nr M) Hr) as Hqp. rewrite <- Hq in Hqp.
  assert (IMatrix.nrq M <= IMatrix.nrq M * IMatrix.nc M) by nia.
  unfold IMatrix.zero_scrappie_imatrix, int_mul.
  rewrite (wrap32_id (IMatrix.nrq M * 4)) by (unfold INT_MAX in *; nia).
  rewrite wrap32_id by (unfold INT_MAX in *; nia).
  rewrite (to_size_small size_bits (IMatrix.nrq M * 4 * IMatrix.nc M)) by nia.
  rewrite (to_size_small size_bits (IMatrix.nrq M * 4 * IMatrix.nc M * 4)) by nia.
  replace (IMatrix.nrq M * 4 * IMatrix.nc M * 4 / 4) with (4 * IMatrix.nrq M * IMatrix.nc M)
    by (apply Z.div_unique_exact; lia).
  do 2 f_equal.
  set (n := 4 * IMatrix.nrq M * IMatrix.nc M) in *.
  destruct (memset_izero_spec (IMatrix.data M) n) as [Hlen Hget]; [unfold n; nia|].
  apply geti_ext.
  - rewrite Hlen, len_izeros by (unfold n; nia). exact Hl.
  - intros p Hp. rewrite Hlen, Hl in Hp. rewrite Hget, geti_izeros.
    destruct (Z.leb_spec 0 p), (Z.ltb_spec p n); try lia. reflexivity.
Qed.

(** X13.  For a shape in the representable range
    [make_scrappie_imatrix] returns the null handle when either allocation
    fails, and otherwise a well-formed integer matrix of the requested shape
    whose lane buffer, padding included, is zero. *)
Theorem make_scrappie_imatrix_spec
    (NDEBUG : bool) (size_bits : Z) (malloc_ok : bool) (aligned_alloc_ok : Z -> bool)
    (nr_ nc_ : Z) :
  32 <= size_bits -> 0 < nr_ -> 0 < nc_ ->
  4 * ceil_quarter nr_ * nc_ <= INT_MAX ->
  16 * ceil_quarter nr_ * nc_ < 2 ^ size_bits ->
  (malloc_ok && aligned_alloc_ok (16 * ceil_quarter nr_ * nc_) = false ->
   IMatrix.make_scrappie_imatrix NDEBUG size_bits malloc_ok aligned_alloc_ok nr_ nc_
   = Ret None) /\
  (malloc_ok && aligned_alloc_ok (16 * ceil_quarter nr_ * nc_) = true ->
   exists m,
     IMatrix.make_scrappie_imatrix NDEBUG size_bits malloc_ok aligned_alloc_ok nr_ nc_
     = Ret (Some m) /\
     IMatrix.wf_imatrix m /\ IMatrix.nr m = nr_ /\ IMatrix.nc m = nc_ /\
     forall p, IMatrix.geti (IMatrix.data m) p = 0).
Proof.
  intros Hbits Hnr Hnc Hint Hsize.
  destruct malloc_ok eqn:Hm; cbn [andb].
  - rewrite (make_scrappie_imatrix_in_range NDEBUG size_bits true aligned_alloc_ok
               nr_ nc_ Hbits Hnr Hnc Hint Hsize eq_refl).
    split; intros Ha; rewrite Ha; [reflexivity|].
    eexists. split; [reflexivity|].
    split; [now apply wf_fresh_imatrix|].
    split; [reflexivity|]. split; [reflexivity|].
    intros p. apply geti_izeros.
  - split; [intros _ | discriminate].
    unfold IMatrix.make_scrappie_imatrix.
    replace (0 <? nr_) with true by (symmetry; apply Z.ltb_lt; lia).
    replace (0 <? nc_) with true by (symmetry; apply Z.ltb_lt; lia).
    rewrite !assert_true. reflexivity.
Qed.

Lemma make_scrappie_imatrix_spec_witness :
  exists m,
    IMatrix.make_scrappie_imatrix false 64 true always_ok 3 2 = Ret (Some m) /\
    IMatrix.wf_imatrix m /\ IMatrix.nr m = 3 /\ IMatrix.nc m = 2 /\
    forall p, IMatrix.geti (IMatrix.data m) p = 0.
Proof.
  assert (H1 : 32 <= 64) by (vm_compute; discriminate).
  assert (H2 : 0 < 3) by reflexivity.
  assert (H3 : 0 < 2) by reflexivity.
  assert (H4 : 4 * ceil_quarter 3 * 2 <= INT_MAX) by (vm_compute; discriminate).
  assert (H5 : 16 * ceil_quarter 3 * 2 < 2 ^ 64) by (vm_compute; reflexivity).
  destruct (make_scrappie_imatrix_spec false 64 true always_ok 3 2 H1 H2 H3 H4 H5)
    as [_ H].
  apply H. reflexivity.
Defined.

(** X14.  Nothing guards the byte size in [make_scrappie_imatrix].  For a
    shape whose lane count [nrq * nc] fits [int] and whose column size
    [16 * nrq] fits [size_t] but whose byte size [16 * nrq * nc] does not,
    the float constructor returns the
    null handle, while the integer constructor asks for the wrapped size and
    returns a matrix recorded with the full shape over a buffer that is
    shorter than [4 * nrq * nc] scalars. *)
Theorem make_scrappie_imatrix_unguarded
    (NDEBUG : bool) (size_bits : Z) (aligned_alloc_ok : Z -> bool) (nr_ nc_ : Z) :
  32 <= size_bits -> 0 < nr_ -> 0 < nc_ ->
  ceil_quarter nr_ * nc_ <= INT_MAX ->
  16 * ceil_quarter nr_ < 2 ^ size_bits ->
  2 ^ size_bits <= 16 * ceil_quarter nr_ * nc_ ->
  aligned_alloc_ok ((16 * ceil_quarter nr_ * nc_) mod 2 ^ size_bits) = true ->
  make_scrappie_matrix NDEBUG size_bits true aligned_alloc_ok nr_ nc_ = Ret None /\
  exists m,
    IMatrix.make_scrappie_imatrix NDEBUG size_bits true aligned_alloc_ok nr_ nc_
    = Ret (Some m) /\
    IMatrix.nr m = nr_ /\ IMatrix.nrq m = ceil_quarter nr_ /\ IMatrix.nc m = nc_ /\
    len (IMatrix.data m) < 4 * IMatrix.nrq m * IMatrix.nc m.
Proof.
  intros Hbits Hnr Hnc Hint Hlane Hover Ha.
  pose proof (ceil_quarter_pos nr_ Hnr) as Hq.
  set (q := ceil_quarter nr_) in *.
  assert (Hpow : 2 ^ 32 <= 2 ^ size_bits) by (apply Z.pow_le_mono_r; lia).
  change (2 ^ 32) with 4294967296 in Hpow.
  assert (Hqn : q <= q * nc_ /\ nc_ <= q * nc_) by nia.
  split.
  - apply make_scrappie_matrix_guard; fold q; unfold INT_MAX in *; lia.
  - unfold IMatrix.make_scrappie_imatrix. fold q.
    replace (0 <? nr_) with true by (symmetry; apply Z.ltb_lt; lia).
    replace (0 <? nc_) with true by (symmetry; apply Z.ltb_lt; lia).
    rewrite !assert_true. unfold bind. cbv zeta. cbn [negb].
    unfold int_mul. rewrite wrap32_id by (unfold INT_MAX in *; nia).
    rewrite (to_size_small size_bits (q * nc_)) by (unfold INT_MAX in *; lia).
    unfold to_size. replace (q * nc_ * 16) with (16 * q * nc_) by lia.
    rewrite Ha. cbn [negb]. eexists. split; [reflexivity|].
    cbn [IMatrix.nr IMatrix.nrq IMatrix.nc IMatrix.data].
    repeat (split; [reflexivity|]).
    pose proof (Z.mod_pos_bound (16 * q * nc_) (2 ^ size_bits) ltac:(lia)) as Hmod.
    rewrite len_izeros by (apply Z.div_pos; lia).
    apply Z.div_lt_upper_bound; lia.
Qed.

Lemma make_scrappie_imatrix_unguarded_witness :
  make_scrappie_matrix false 32 true always_ok 4 268435456 = Ret None /\
  exists m,
    IMatrix.make_scrappie_imatrix false 32 true always_ok 4 268435456 = Ret (Some m) /\
    IMatrix.nr m = 4 /\ IMatrix.nrq m = ceil_quarter 4 /\ IMatrix.nc m = 268435456 /\
    len (IMatrix.data m) < 4 * IMatrix.nrq m * IMatrix.nc m.
Proof.
  assert (H1 : 32 <= 32) by (vm_compute; discriminate).
  assert (H2 : 0 < 4) by reflexivity.
  assert (H3 : 0 < 268435456) by reflexivity.
  assert (H4 : ceil_quarter 4 * 268435456 <= INT_MAX) by (vm_compute; discriminate).
  assert (H5 : 16 * ceil_quarter 4 < 2 ^ 32) by (vm_compute; reflexivity).
  assert (H6 : 2 ^ 32 <= 16 * ceil_quarter 4 * 268435456) by (vm_compute; discriminate).
  exact (make_scrappie_imatrix_unguarded false 32 always_ok 4 268435456
           H1 H2 H3 H4 H5 H6 eq_refl).
Defined.

(** X15.  [remake_scrappie_imatrix] returns a present matrix of the
    requested shape as it is and releases nothing.  A null handle or a
    matrix of another shape is released and replaced by the result of
    [make_scrappie_imatrix]: for a shape in the representable range, the null
    handle when an allocation fails and a zero matrix of the new shape
    otherwise. *)
Theorem remake_scrappie_imatrix_spec
    (NDEBUG : bool) (size_bits : Z) (malloc_ok : bool) (aligned_alloc_ok : Z -> bool) :
  (forall m nr_ nc_, IMatrix.nr m = nr_ -> IMatrix.nc m = nc_ ->
     IMatrix.remake_scrappie_imatrix NDEBUG size_bits malloc_ok aligned_alloc_ok
       (Some m) nr_ nc_
     = Ret (Some m, [])) /\
  (forall M nr_ nc_,
     (M = None \/ exists m, M = Some m /\ (IMatrix.nr m <> nr_ \/ IMatrix.nc m <> nc_)) ->
     32 <= size_bits -> 0 < nr_ -> 0 < nc_ ->
     4 * ceil_quarter nr_ * nc_ <= INT_MAX ->
     16 * ceil_quarter nr_ * nc_ < 2 ^ size_bits ->
     IMatrix.remake_scrappie_imatrix NDEBUG size_bits malloc_ok aligned_alloc_ok M nr_ nc_
     = Ret (if malloc_ok && aligned_alloc_ok (16 * ceil_quarter nr_ * nc_)
            then Some (IMatrix.mkIMat nr_ (ceil_quarter nr_) nc_
                         (IMatrix.izeros (4 * ceil_quarter nr_ * nc_)))
            else None,
            match M with Some m => [m] | None => [] end)).
Proof.
  split.
  - intros m nr_ nc_ <- <-. unfold IMatrix.remake_scrappie_imatrix.
    now rewrite !Z.eqb_refl.
  - intros M nr_ nc_ HM Hbits Hnr Hnc Hint Hsize.
    unfold IMatrix.remake_scrappie_imatrix.
    assert (Hd : match M with
                 | None => true
                 | Some m => negb (IMatrix.nr m =? nr_) || negb (IMatrix.nc m =? nc_)
                 end = true).
    { destruct HM as [-> | (m & -> & Hne)]; [reflexivity|].
      destruct (Z.eqb_spec (IMatrix.nr m) nr_), (Z.eqb_spec (IMatrix.nc m) nc_);
        simpl; auto. tauto. }
    rewrite Hd.
    destruct malloc_ok eqn:Hm; cbn [andb].
    + rewrite (make_scrappie_imatrix_in_range NDEBUG size_bits true aligned_alloc_ok
                 nr_ nc_ Hbits Hnr Hnc Hint Hsize eq_refl).
      destruct (aligned_alloc_ok (16 * ceil_quarter nr_ * nc_)); destruct M; reflexivity.
    + unfold IMatrix.make_scrappie_imatrix.
      replace (0 <? nr_) with true by (symmetry; apply Z.ltb_lt; lia).
      replace (0 <? nc_) with true by (symmetry; apply Z.ltb_lt; lia).
      rewrite !assert_true. destruct M; reflexivity.
Qed.

Lemma remake_scrappie_imatrix_spec_witness :
  IMatrix.remake_scrappie_imatrix false 64 true always_ok (Some iexample_2x2) 5 1
  = Ret (Some (IMatrix.mkIMat 5 2 1 (IMatrix.izeros 8)), [iexample_2x2]).
Proof.
  assert (H1 : 32 <= 64) by (vm_compute; discriminate).
  assert (H2 : 0 < 5) by reflexivity.
  assert (H3 : 0 < 1) by reflexivity.
  assert (H4 : 4 * ceil_quarter 5 * 1 <= INT_MAX) by (vm_compute; discriminate).
  assert (H5 : 16 * ceil_quarter 5 * 1 < 2 ^ 64) by (vm_compute; reflexivity).
  assert (H0 : Some iexample_2x2 = None \/
               exists m, Some iexample_2x2 = Some m /\
                         (IMatrix.nr m <> 5 \/ IMatrix.nc m <> 1)).
  { right. exists iexample_2x2. split; [reflexivity|]. left. vm_compute. discriminate. }
  destruct (remake_scrappie_imatrix_spec false 64 true always_ok) as [_ H].
  exact (H (Some iexample_2x2) 5 1 H0 H1 H2 H3 H4 H5).
Defined.

(** X16.  [copy_scrappie_imatrix] propagates a null handle; for a
    well-formed integer matrix whose byte size fits [size_t] it returns a
    matrix equal to the source in shape and in every scalar, padding
    included, when the buffer can be allocated, and the null handle when it
    cannot. *)
Theorem copy_scrappie_imatrix_spec
    (NDEBUG : bool) (size_bits : Z) (malloc_ok : bool) (aligned_alloc_ok : Z -> bool) :
  IMatrix.copy_scrappie_imatrix NDEBUG size_bits malloc_ok aligned_alloc_ok None
  = Ret None /\
  forall M, 32 <= size_bits -> IMatrix.wf_imatrix M ->
    16 * IMatrix.nrq M * IMatrix.nc M < 2 ^ size_bits ->
    IMatrix.copy_scrappie_imatrix NDEBUG size_bits malloc_ok aligned_alloc_ok (Some M)
    = if malloc_ok && aligned_alloc_ok (16 * IMatrix.nrq M * IMatrix.nc M)
      then Ret (Some M) else Ret None.
Proof.
  split; [reflexivity|]. intros M Hbits Hwf Hfit.
  destruct malloc_ok eqn:Hm; cbn [andb].
  - now apply copy_scrappie_imatrix_in_range.
  - destruct Hwf as (Hr & Hc & _).
    unfold IMatrix.copy_scrappie_imatrix, IMatrix.make_scrappie_imatrix.
    replace (0 <? IMatrix.nr M) with true by (symmetry; apply Z.ltb_lt; lia).
    replace (0 <? IMatrix.nc M) with true by (symmetry; apply Z.ltb_lt; lia).
    rewrite !assert_true. reflexivity.
Qed.

Lemma copy_scrappie_imatrix_spec_witness :
  IMatrix.copy_scrappie_imatrix false 64 true always_ok (Some iexample_2x2)
  = Ret (Some iexample_2x2).
Proof.
  assert (H1 : 32 <= 64) by (vm_compute; discriminate).
  assert (H2 : 16 * IMatrix.nrq iexample_2x2 * IMatrix.nc iexample_2x2 < 2 ^ 64)
    by (vm_compute; reflexivity).
  destruct (copy_scrappie_imatrix_spec false 64 true always_ok) as [_ H].
  exact (H iexample_2x2 H1 wf_iexample_2x2 H2).
Defined.

(** X17.  [zero_scrappie_imatrix] leaves a null handle alone; on a
    well-formed integer matrix it keeps the shape and clears every scalar,
    padding included, so that zeroing twice is zeroing once. *)
Theorem zero_scrappie_imatrix_spec (size_bits : Z) :
  IMatrix.zero_scrappie_imatrix size_bits None = None /\
  forall M, 32 <= size_bits -> IMatrix.wf_imatrix M ->
    16 * IMatrix.nrq M * IMatrix.nc M < 2 ^ size_bits ->
    IMatrix.zero_scrappie_imatrix size_bits (Some M)
    = Some (IMatrix.mkIMat (IMatrix.nr M) (IMatrix.nrq M) (IMatrix.nc M)
              (IMatrix.izeros (4 * IMatrix.nrq M * IMatrix.nc M))) /\
    IMatrix.zero_scrappie_imatrix size_bits
      (IMatrix.zero_scrappie_imatrix size_bits (Some M))
    = IMatrix.zero_scrappie_imatrix size_bits (Some M).
Proof.
  split; [reflexivity|]. intros M Hbits Hwf Hfit.
  rewrite (zero_scrappie_imatrix_in_range size_bits M Hbits Hwf Hfit).
  split; [reflexivity|].
  destruct Hwf as (Hr & Hc & Hq & Hl & Hb).
  pose proof (ceil_quarter_pos (IMatrix.nr M) Hr) as Hqp. rewrite <- Hq in Hqp.
  rewrite zero_scrappie_imatrix_in_range; [reflexivity | exact Hbits | | exact Hfit].
  unfold IMatrix.wf_imatrix. cbn [IMatrix.nr IMatrix.nrq IMatrix.nc IMatrix.data].
  rewrite len_izeros by nia. auto.
Qed.

Lemma zero_scrappie_imatrix_spec_witness :
  IMatrix.zero_scrappie_imatrix 64 (Some iexample_2x2)
  = Some (IMatrix.mkIMat 2 1 2 (IMatrix.izeros 8)).
Proof.
  assert (H1 : 32 <= 64) by (vm_compute; discriminate).
  assert (H2 : 16 * IMatrix.nrq iexample_2x2 * IMatrix.nc iexample_2x2 < 2 ^ 64)
    by (vm_compute; reflexivity).
  destruct (zero_scrappie_imatrix_spec 64) as [_ H].
  destruct (H iexample_2x2 H1 wf_iexample_2x2 H2) as [Heq _]. exact Heq.
Defined.

(** ** Letter case and the codes handed to the network *)

Lemma base_to_int_toupper (c : ascii) :
  base_to_int (toupper c) true = base_to_int c true.
Proof. destruct c as [[] [] [] [] [] [] [] []]; vm_compute; reflexivity. Qed.

Lemma base_to_int_strict (c : ascii) :
  base_to_int c false
  = if existsb (Ascii.eqb c) ["a"; "c"; "g"; "t"]%char then -1 else base_to_int c true.
Proof. destruct c as [[] [] [] [] [] [] [] []]; vm_compute; reflexivity. Qed.

Lemma encode_loop_toupper (k : nat) :
  forall i seq iseq,
    encode_loop k i (map toupper seq) iseq = encode_loop k i seq iseq.
Proof.
  induction k as [|k IH]; intros i seq iseq; cbn [encode_loop]; [reflexivity|].
  rewrite nth_error_map.
  destruct (nth_error seq (Z.to_nat i)) as [c|]; cbn [option_map]; [|reflexivity].
  rewrite base_to_int_toupper.
  destruct (-1 =? base_to_int c true); [reflexivity | apply IH].
Qed.

(** The loop cannot complete when it is asked for more characters than
    the buffer holds. *)
Lemma encode_loop_overrun (k : nat) :
  forall i seq iseq codes,
    0 <= i <= len seq -> len seq < i + Z.of_nat k ->
    encode_loop k i seq iseq <> Ret (Some codes).
Proof.
  induction k as [|k IH]; intros i seq iseq codes Hi Hover; [lia|].
  cbn [encode_loop].
  destruct (nth_error seq (Z.to_nat i)) as [c|] eqn:E; [|discriminate].
  assert (Hlt : (Z.to_nat i < List.length seq)%nat)
    by (apply nth_error_Some; congruence).
  destruct (-1 =? base_to_int c true); [discriminate|].
  apply IH; unfold len in *; lia.
Qed.

(** A completed encoding holds [n] codes, each between 0 and 3. *)
Lemma encode_bases_to_integers_codes
    (calloc_int_ok : Z -> bool) (seq : list ascii) (n : Z) (codes : list Z) :
  0 <= n ->
  encode_bases_to_integers calloc_int_ok seq n = Ret (Some codes) ->
  len codes = n /\ Forall (fun z => 0 <= z <= 3) codes.
Proof.
  intros Hn Henc.
  destruct (calloc_int_ok n) eqn:Hc.
  - destruct (Z_le_gt_dec n (len seq)) as [Hle | Hgt].
    + rewrite encode_bases_to_integers_spec in Henc by (auto; lia).
      destruct (forallb is_base (firstn (Z.to_nat n) seq)) eqn:Hall; [|discriminate].
      injection Henc as <-. split.
      * unfold len in *. rewrite length_map, length_firstn. lia.
      * apply Forall_map, Forall_forall. intros c Hin.
        rewrite forallb_forall in Hall. specialize (Hall c Hin).
        destruct (base_to_int_table c) as [Hcode [Hbad | Hok]]; [|exact Hok].
        rewrite Hbad, Hall in Hcode. discriminate.
    + exfalso. unfold encode_bases_to_integers in Henc. rewrite Hc in Henc.
      revert Henc. apply encode_loop_overrun; [unfold len; lia | lia].
  - unfold encode_bases_to_integers in Henc. rewrite Hc in Henc.
    destruct (0 <? n); discriminate.
Qed.

(** X18.  The encoding ignores letter case: converting the sequence to
    upper case first changes neither the result of
    [encode_bases_to_integers] nor that of [sequence_to_squiggle], whatever
    the length and the allocator.  Without [allow_lower], [base_to_int]
    differs only in rejecting the lower-case bases. *)
Theorem encode_bases_to_integers_case_insensitive
    (calloc_int_ok : Z -> bool)
    (dna_squiggle : list Z -> Z -> bool -> outcome scrappie_matrix)
    (seq : list ascii) (n : Z) (rescale : bool) :
  encode_bases_to_integers calloc_int_ok (map toupper seq) n
  = encode_bases_to_integers calloc_int_ok seq n /\
  sequence_to_squiggle calloc_int_ok dna_squiggle (Some (map toupper seq)) n rescale
  = sequence_to_squiggle calloc_int_ok dna_squiggle (Some seq) n rescale /\
  forall c, base_to_int c false
            = if existsb (Ascii.eqb c) ["a"; "c"; "g"; "t"]%char
              then -1 else base_to_int c true.
Proof.
  assert (Henc : encode_bases_to_integers calloc_int_ok (map toupper seq) n
                 = encode_bases_to_integers calloc_int_ok seq n).
  { unfold encode_bases_to_integers.
    destruct (calloc_int_ok n); [apply encode_loop_toupper | reflexivity]. }
  split; [exact Henc|]. split; [|exact base_to_int_strict].
  unfold sequence_to_squiggle. now rewrite Henc.
Qed.

(** X19.  [sequence_to_squiggle] hands [dna_squiggle] nothing but [n]
    codes between 0 and 3: two networks that agree on such inputs give the
    same result for every sequence. *)
Theorem sequence_to_squiggle_valid_codes
    (calloc_int_ok : Z -> bool)
    (net1 net2 : list Z -> Z -> bool -> outcome scrappie_matrix)
    (base_seq : option (list ascii)) (n : Z) (rescale : bool) :
  (forall codes, len codes = n -> Forall (fun z => 0 <= z <= 3) codes ->
     net1 codes n rescale = net2 codes n rescale) ->
  0 <= n ->
  sequence_to_squiggle calloc_int_ok net1 base_seq n rescale
  = sequence_to_squiggle calloc_int_ok net2 base_seq n rescale.
Proof.
  intros Hagree Hn. destruct base_seq as [seq|]; [|reflexivity].
  unfold sequence_to_squiggle.
  destruct (encode_bases_to_integers calloc_int_ok seq n) as [[codes|] | |] eqn:Henc;
    cbn [bind]; try reflexivity.
  destruct (encode_bases_to_integers_codes calloc_int_ok seq n codes Hn Henc)
    as [Hlen Hall].
  now apply Hagree.
Qed.

Lemma sequence_to_squiggle_valid_codes_witness :
  sequence_to_squiggle always_ok shape_only_squiggle (Some seq_ACGT) 4 true
  = sequence_to_squiggle always_ok checked_squiggle (Some seq_ACGT) 4 true.
Proof.
  assert (H1 : forall codes, len codes = 4 -> Forall (fun z => 0 <= z <= 3) codes ->
                 shape_only_squiggle codes 4 true = checked_squiggle codes 4 true).
  { intros codes Hlen Hall. unfold checked_squiggle.
    rewrite Hlen, Z.eqb_refl. cbn [andb].
    replace (forallb (fun z => (0 <=? z) && (z <=? 3)) codes) with true; [reflexivity|].
    symmetry. apply forallb_forall. intros z Hz.
    rewrite Forall_forall in Hall. specialize (Hall z Hz).
    apply andb_true_intro. split; apply Z.leb_le; lia. }
  assert (H2 : 0 <= 4) by (vm_compute; discriminate).
  exact (sequence_to_squiggle_valid_codes always_ok shape_only_squiggle checked_squiggle
           (Some seq_ACGT) 4 true H1 H2).
Defined.

(** X20.  [encode_bases_to_integers] does not test what [calloc]
    returns.  When the allocation fails for a positive length the first
    code is stored through the null pointer, and [sequence_to_squiggle] has
    no defined result; for length zero the null pointer is returned and
    [sequence_to_squiggle] returns the null handle without calling the
    network. *)
Theorem encode_bases_to_integers_unchecked_allocation
    (calloc_int_ok : Z -> bool)
    (dna_squiggle : list Z -> Z -> bool -> outcome scrappie_matrix)
    (seq : list ascii) (n : Z) (rescale : bool) :
  calloc_int_ok n = false -> 0 <= n ->
  encode_bases_to_integers calloc_int_ok seq n = (if 0 <? n then Undef else Ret None) /\
  sequence_to_squiggle calloc_int_ok dna_squiggle (Some seq) n rescale
  = (if 0 <? n then Undef else Ret None).
Proof.
  intros Hc Hn.
  assert (Henc : encode_bases_to_integers calloc_int_ok seq n
                 = if 0 <? n then Undef else Ret None).
  { unfold encode_bases_to_integers. now rewrite Hc. }
  split; [exact Henc|].
  unfold sequence_to_squiggle. rewrite Henc.
  destruct (0 <? n); reflexivity.
Qed.

Lemma encode_bases_to_integers_unchecked_allocation_witness :
  encode_bases_to_integers never_ok seq_ACGT 4 = Undef /\
  sequence_to_squiggle never_ok shape_only_squiggle (Some seq_ACGT) 4 true = Undef.
Proof.
  assert (H1 : never_ok 4 = false) by reflexivity.
  assert (H2 : 0 <= 4) by (vm_compute; discriminate).
  exact (encode_bases_to_integers_unchecked_allocation never_ok shape_only_squiggle
           seq_ACGT 4 true H1 H2).
Defined.

(** ** The squiggle driver *)

Section DriverLoops.

Variable size_bits : Z.
Variable calloc_int_ok : Z -> bool.
Variable dna_squiggle : list Z -> Z -> bool -> outcome scrappie_matrix.
Variable reads_limit : Z.
Variable rescale_ : bool.

Hypothesis limit_is_int : reads_limit <= INT_MAX.

Let run_reads := squiggle_reads size_bits calloc_int_ok dna_squiggle rescale_.

(** The records a loop entered with [reads_started] still gets to. *)
Let budget (reads_started : Z) (records : list kseq_t) : list kseq_t :=
  if 0 <? reads_limit then firstn (Z.to_nat (reads_limit - reads_started)) records
  else records.

(** The counter stays in range while a limit is set. *)
Let counted (reads_started : Z) : Prop :=
  0 < reads_limit -> 0 <= reads_started <= reads_limit.

Lemma squiggle_reads_app (a b : list kseq_t) :
  run_reads (a ++ b)
  = (la <- run_reads a ;; lb <- run_reads b ;; Ret (la ++ lb)).
Proof.
  unfold run_reads. induction a as [|seq a IH]; cbn [app squiggle_reads].
  - destruct (squiggle_reads _ _ _ _ b); reflexivity.
  - destruct (squiggle_read _ _ _ _ seq) as [lines| |]; cbn [bind]; try reflexivity.
    rewrite IH.
    destruct (squiggle_reads _ _ _ _ a) as [la| |]; cbn [bind]; try reflexivity.
    destruct (squiggle_reads _ _ _ _ b) as [lb| |]; cbn [bind]; try reflexivity.
    now rewrite app_assoc.
Qed.

Lemma budget_nil (reads_started : Z) : budget reads_started [] = [].
Proof. unfold budget. destruct (0 <? reads_limit); [apply firstn_nil | reflexivity]. Qed.

Lemma budget_spent (records : list kseq_t) : 0 < reads_limit -> budget reads_limit records = [].
Proof.
  intros HL. unfold budget. replace (0 <? reads_limit) with true
    by (symmetry; apply Z.ltb_lt; lia).
  now rewrite Z.sub_diag.
Qed.

Lemma budget_cons (reads_started : Z) (seq : kseq_t) (records : list kseq_t) :
  limit_reached reads_limit reads_started = false ->
  budget reads_started (seq :: records) = seq :: budget (reads_started + 1) records.
Proof.
  unfold limit_reached, budget. intros Hlim.
  destruct (Z.ltb_spec 0 reads_limit); [|reflexivity].
  cbn [andb] in Hlim. apply Z.leb_gt in Hlim.
  replace (Z.to_nat (reads_limit - reads_started))
    with (Datatypes.S (Z.to_nat (reads_limit - (reads_started + 1)))) by lia.
  reflexivity.
Qed.

Lemma budget_app (reads_started : Z) (a b : list kseq_t) :
  counted reads_started ->
  budget reads_started (a ++ b)
  = budget reads_started a ++ budget (reads_started + len (budget reads_started a)) b.
Proof.
  unfold counted, budget, len. intros Hc.
  destruct (Z.ltb_spec 0 reads_limit) as [HL|]; [|reflexivity].
  specialize (Hc HL). rewrite firstn_app. f_equal. f_equal.
  rewrite length_firstn. lia.
Qed.

Lemma budget_counted (reads_started : Z) (records : list kseq_t) :
  counted reads_started -> counted (reads_started + len (budget reads_started records)).
Proof.
  unfold counted, budget, len. intros Hc HL. specialize (Hc HL).
  replace (0 <? reads_limit) with true by (symmetry; apply Z.ltb_lt; lia).
  rewrite length_firstn. lia.
Qed.

Lemma read_loop_spec (records : list kseq_t) :
  forall reads_started out,
    counted reads_started ->
    exists reads_started',
      counted reads_started' /\
      (0 < reads_limit ->
       reads_started' = reads_started + len (budget reads_started records)) /\
      read_loop size_bits calloc_int_ok dna_squiggle reads_limit rescale_
        records reads_started out
      = (lines <- run_reads (budget reads_started records) ;;
         Ret (reads_started', out ++ lines)).
Proof.
  induction records as [|seq records IH]; intros s out Hc.
  - exists s. rewrite budget_nil. cbn. rewrite app_nil_r.
    split; [exact Hc|]. split; [unfold len; simpl; lia | reflexivity].
  - cbn [read_loop].
    destruct (limit_reached reads_limit s) eqn:Hlim.
    + unfold limit_reached in Hlim. apply andb_prop in Hlim as [HL Hs].
      apply Z.ltb_lt in HL. apply Z.leb_le in Hs.
      assert (s = reads_limit) by (specialize (Hc HL); lia). subst s.
      exists reads_limit. rewrite budget_spent by exact HL. cbn. rewrite app_nil_r.
      split; [exact Hc|]. split; [unfold len; simpl; lia | reflexivity].
    + rewrite budget_cons by exact Hlim.
      assert (Hnext : wrap32 (s + 1) = s + 1 \/ ~ 0 < reads_limit).
      { destruct (Z.ltb_spec 0 reads_limit) as [HL|]; [left | right; lia].
        unfold limit_reached in Hlim.
        replace (0 <? reads_limit) with true in Hlim by (symmetry; apply Z.ltb_lt; lia).
        cbn [andb] in Hlim. apply Z.leb_gt in Hlim. specialize (Hc HL).
        apply wrap32_id. unfold INT_MAX in *. lia. }
      assert (Hc' : counted (wrap32 (s + 1))).
      { intros HL. destruct Hnext as [-> | Hno]; [|contradiction].
        unfold limit_reached in Hlim.
        replace (0 <? reads_limit) with true in Hlim by (symmetry; apply Z.ltb_lt; lia).
        cbn [andb] in Hlim. apply Z.leb_gt in Hlim. specialize (Hc HL). lia. }
      assert (Hb : budget (wrap32 (s + 1)) records = budget (s + 1) records).
      { destruct Hnext as [-> | Hno]; [reflexivity|].
        unfold budget. destruct (Z.ltb_spec 0 reads_limit); [contradiction | reflexivity]. }
      unfold run_reads. cbn [squiggle_reads]. fold run_reads.
      destruct (squiggle_read size_bits calloc_int_ok dna_squiggle rescale_ seq)
        as [lines| |]; cbn [bind].
      * destruct (IH (wrap32 (s + 1)) (out ++ lines) Hc') as (s' & Hcs & Hs' & Heq).
        exists s'. split; [exact Hcs|]. split.
        -- intros HL. rewrite (Hs' HL), Hb.
           destruct Hnext as [-> | Hno]; [|contradiction].
           unfold len. cbn [List.length]. lia.
        -- rewrite Heq, Hb.
           destruct (run_reads (budget (s + 1) records)) as [more| |]; cbn [bind];
             try reflexivity.
           now rewrite app_assoc.
      * exists (s + len (seq :: budget (s + 1) records)).
        rewrite <- budget_cons by exact Hlim.
        split; [now apply budget_counted|]. split; [reflexivity | reflexivity].
      * exists (s + len (seq :: budget (s + 1) records)).
        rewrite <- budget_cons by exact Hlim.
        split; [now apply budget_counted|]. split; [reflexivity | reflexivity].
Qed.

Lemma file_loop_spec (files_ : list (option (list kseq_t))) :
  forall reads_started out,
    counted reads_started ->
    exists reads_started',
      counted reads_started' /\
      (0 < reads_limit ->
       reads_started' = reads_started + len (budget reads_started (opened_reads files_))) /\
      file_loop size_bits calloc_int_ok dna_squiggle reads_limit rescale_
        files_ reads_started out
      = (lines <- run_reads (budget reads_started (opened_reads files_)) ;;
         Ret (reads_started', out ++ lines)).
Proof.
  induction files_ as [|fh files_ IH]; intros s out Hc.
  - exists s. cbn [opened_reads flat_map]. rewrite budget_nil. cbn. rewrite app_nil_r.
    split; [exact Hc|]. split; [unfold len; simpl; lia | reflexivity].
  - cbn [file_loop].
    destruct (limit_reached reads_limit s) eqn:Hlim.
    + unfold limit_reached in Hlim. apply andb_prop in Hlim as [HL Hs].
      apply Z.ltb_lt in HL. apply Z.leb_le in Hs.
      assert (s = reads_limit) by (specialize (Hc HL); lia). subst s.
      exists reads_limit. rewrite budget_spent by exact HL. cbn. rewrite app_nil_r.
      split; [exact Hc|]. split; [unfold len; simpl; lia | reflexivity].
    + destruct fh as [records|].
      * change (opened_reads (Some records :: files_))
          with (records ++ opened_reads files_).
        rewrite budget_app by exact Hc. rewrite squiggle_reads_app.
        destruct (read_loop_spec records s out Hc) as (s1 & Hc1 & Hs1 & Heq1).
        rewrite Heq1.
        destruct (run_reads (budget s records)) as [la| |] eqn:Hla; cbn [bind fst snd].
        -- destruct (IH s1 (out ++ la) Hc1) as (s2 & Hc2 & Hs2 & Heq2).
           assert (Hb : budget s1 (opened_reads files_)
                        = budget (s + len (budget s records)) (opened_reads files_)).
           { destruct (Z.ltb_spec 0 reads_limit) as [HL|].
             - now rewrite (Hs1 HL).
             - unfold budget. destruct (Z.ltb_spec 0 reads_limit); [lia | reflexivity]. }
           exists s2. split; [exact Hc2|]. split.
           ++ intros HL. rewrite (Hs2 HL), (Hs1 HL).
              unfold len. rewrite length_app. unfold len in *. lia.
           ++ rewrite Heq2, Hb.
              destruct (run_reads (budget (s + len (budget s records)) (opened_reads files_)))
                as [lb| |]; cbn [bind]; try reflexivity.
              now rewrite app_assoc.
        -- exists (s + len (budget s records
                            ++ budget (s + len (budget s records)) (opened_reads files_))).
           split; [rewrite <- budget_app by exact Hc; now apply budget_counted|].
           split; reflexivity.
        -- exists (s + len (budget s records
                            ++ budget (s + len (budget s records)) (opened_reads files_))).
           split; [rewrite <- budget_app by exact Hc; now apply budget_counted|].
           split; reflexivity.
      * change (opened_reads (None :: files_)) with (opened_reads files_).
        apply IH. exact Hc.
Qed.

End DriverLoops.

Lemma argp_parse_app (NDEBUG : bool) (pre post : list argp_call) :
  forall args,
    argp_parse NDEBUG (pre ++ post) args
    = (r <- argp_parse NDEBUG pre args ;;
       match r with
       | inl args' => argp_parse NDEBUG post args'
       | inr stop => Ret (inr stop)
       end).
Proof.
  induction pre as [|call pre IH]; intros args; cbn [app argp_parse bind].
  - reflexivity.
  - destruct (parse_arg NDEBUG call args) as [[args'|stop]| |]; cbn [bind];
      [apply IH | reflexivity..].
Qed.

(** In a debug build the limit that argument parsing leaves is the
    initial zero or a positive number. *)
Lemma argp_parse_limit (calls : list argp_call) :
  forall args args',
    0 <= limit args ->
    argp_parse false calls args = Ret (inl args') -> 0 <= limit args'.
Proof.
  induction calls as [|call calls IH]; intros args args' Hl Hp; cbn [argp_parse] in Hp.
  - injection Hp as <-. exact Hl.
  - destruct call; cbn [parse_arg bind] in Hp; try discriminate;
      try (eapply IH; [|exact Hp]; cbn [limit]; exact Hl).
    + unfold assert in Hp. destruct (Z.ltb_spec 0 value); cbn [bind] in Hp;
        [|discriminate].
      eapply IH; [|exact Hp]. cbn [limit]. lia.
    + destruct opened; cbn [bind] in Hp; [|discriminate].
      eapply IH; [|exact Hp]. exact Hl.
Qed.

(** X21.  [main_squiggle] first lets [argp_parse] call [parse_arg].
    When that leaves the program running with a file list, the records of
    the files that can be opened are squiggled in command-line order, all of
    them when [limit] is not positive and the first [limit] of them
    otherwise; files that cannot be opened are passed over, a read whose
    squiggle is null still counts towards the limit, and the exit status is
    [EXIT_SUCCESS] whenever the run completes.  When the calls that precede
    it leave the program running, a call with [ARGP_KEY_NO_ARGS] ends the
    program with the usage status and nothing written, and in a debug build
    a limit option whose value is not positive aborts; so in a debug build
    the limit after parsing is never negative. *)
Theorem main_squiggle_reads_processed
    (NDEBUG : bool) (size_bits : Z) (calloc_int_ok : Z -> bool)
    (dna_squiggle : list Z -> Z -> bool -> outcome scrappie_matrix) :
  (forall calls args files_,
     argp_parse NDEBUG calls initial_args = Ret (inl args) ->
     files args = Some files_ -> limit args <= INT_MAX ->
     main_squiggle NDEBUG size_bits calloc_int_ok dna_squiggle calls
     = (lines <- squiggle_reads size_bits calloc_int_ok dna_squiggle (rescale args)
                   (reads_processed (limit args) files_) ;;
        Ret (RunEnd EXIT_SUCCESS false lines)) /\
     (0 < limit args -> len (reads_processed (limit args) files_) <= limit args)) /\
  (forall pre post args,
     argp_parse NDEBUG pre initial_args = Ret (inl args) ->
     main_squiggle NDEBUG size_bits calloc_int_ok dna_squiggle
       (pre ++ ARGP_KEY_NO_ARGS :: post)
     = Ret (RunEnd argp_err_exit_status false [])) /\
  (forall pre post args value,
     NDEBUG = false ->
     argp_parse NDEBUG pre initial_args = Ret (inl args) -> value <= 0 ->
     main_squiggle NDEBUG size_bits calloc_int_ok dna_squiggle
       (pre ++ key_limit value :: post)
     = Abort) /\
  (forall calls args,
     NDEBUG = false ->
     argp_parse NDEBUG calls initial_args = Ret (inl args) -> 0 <= limit args).
Proof.
  split; [|split; [|split]].
  - intros calls args files_ Hparse Hfiles Hint. split.
    + unfold main_squiggle. rewrite Hparse. cbn [bind]. rewrite Hfiles.
      destruct (file_loop_spec size_bits calloc_int_ok dna_squiggle (limit args)
                  (rescale args) Hint files_ 0 [])
        as (s' & _ & _ & Heq); [intros HL; lia|].
      rewrite Heq, Z.sub_0_r. unfold reads_processed.
      destruct (squiggle_reads size_bits calloc_int_ok dna_squiggle (rescale args)
                  (if 0 <? limit args
                   then firstn (Z.to_nat (limit args)) (opened_reads files_)
                   else opened_reads files_)); reflexivity.
    + intros HL. unfold reads_processed, len.
      replace (0 <? limit args) with true by (symmetry; apply Z.ltb_lt; lia).
      rewrite length_firstn. lia.
  - intros pre post args Hpre. unfold main_squiggle.
    rewrite argp_parse_app, Hpre. reflexivity.
  - intros pre post args value Hdebug Hpre Hvalue. subst NDEBUG. unfold main_squiggle.
    rewrite argp_parse_app, Hpre. cbn [bind argp_parse parse_arg]. unfold assert.
    destruct (Z.ltb_spec 0 value); [lia | reflexivity].
  - intros calls args Hdebug Hparse. subst NDEBUG.
    apply (argp_parse_limit calls initial_args args); [cbn; lia | exact Hparse].
Qed.

Lemma main_squiggle_reads_processed_witness :
  main_squiggle false 64 always_ok shape_only_squiggle example_calls
  = Ret (RunEnd EXIT_SUCCESS false
           (NameLine "r1"
            :: map (fun i => SampleLine i (nth (Z.to_nat i) seq_ACGT "000"%char)
                               fzero fzero fzero)
                   (zseq 0 4))) /\
  main_squiggle false 64 always_ok shape_only_squiggle [key_limit 2; ARGP_KEY_NO_ARGS]
  = Ret (RunEnd argp_err_exit_status false []) /\
  main_squiggle false 64 always_ok shape_only_squiggle [key_limit 0; ARGP_KEY_ARG []]
  = Abort.
Proof.
  destruct (main_squiggle_reads_processed false 64 always_ok shape_only_squiggle)
    as (Hrun & Husage & Hlimit & _).
  split; [|split].
  - assert (Hparse : argp_parse false example_calls initial_args
                     = Ret (inl (mkArgs 2 EmptyString true
                              (Some [Some [mkSeq "r1" seq_ACGT; mkSeq "r2" seq_ACGX];
                                     None;
                                     Some [mkSeq "r3" seq_ACGT]]))))
      by reflexivity.
    assert (Hint : limit (mkArgs 2 EmptyString true
                            (Some [Some [mkSeq "r1" seq_ACGT; mkSeq "r2" seq_ACGX];
                                   None;
                                   Some [mkSeq "r3" seq_ACGT]])) <= INT_MAX)
      by (vm_compute; discriminate).
    destruct (Hrun example_calls _ _ Hparse eq_refl Hint) as [Heq _].
    etransitivity; [exact Heq|]. vm_compute. reflexivity.
  - assert (Hpre : argp_parse false [key_limit 2] initial_args
                   = Ret (inl (mkArgs 2 EmptyString true None))) by reflexivity.
    exact (Husage [key_limit 2] [] _ Hpre).
  - assert (Hpre : argp_parse false [] initial_args = Ret (inl initial_args))
      by reflexivity.
    assert (Hv : 0 <= 0) by (vm_compute; discriminate).
    exact (Hlimit [] [ARGP_KEY_ARG []] initial_args 0 eq_refl Hpre Hv).
Defined.

(** The columns of one squiggle, printed from column [i] on. *)
Lemma print_columns_spec (size_bits : Z) (seq : kseq_t) (m : scrappie_mat) (k : nat) :
  32 <= size_bits -> wf_matrix m ->
  forall i, 0 <= i -> i + Z.of_nat k <= nc m -> nc m <= len (seq_s seq) ->
    print_columns size_bits k i seq m
    = Ret (map (fun i => SampleLine i (nth (Z.to_nat i) (seq_s seq) "000"%char)
                           (getf (data m) (4 * nrq m * i))
                           (getf (data m) (4 * nrq m * i + 1))
                           (getf (data m) (4 * nrq m * i + 2)))
               (zseq i k)).
Proof.
  intros Hbits (Hr & Hc & Hq & Hl & Hb).
  pose proof (ceil_quarter_pos (nr m) Hr) as Hqp. rewrite <- Hq in Hqp.
  assert (Hpow : 2 ^ 32 <= 2 ^ size_bits) by (apply Z.pow_le_mono_r; lia).
  change (2 ^ 32) with 4294967296 in Hpow.
  induction k as [|k IH]; intros i Hi Hfit Hseq; [reflexivity|].
  cbn [print_columns zseq map].
  rewrite (nth_error_nth' (seq_s seq) "000"%char) by (unfold len in Hseq; lia).
  rewrite IH by lia. cbn [bind].
  assert (Hin : 0 <= i * nrq m /\ i * nrq m * 4 + 4 <= 4 * nrq m * nc m) by nia.
  unfold size_mul, size_add.
  rewrite (to_size_small size_bits (i * nrq m)) by (unfold INT_MAX in *; lia).
  rewrite (to_size_small size_bits (i * nrq m * 4)) by (unfold INT_MAX in *; lia).
  rewrite !to_size_small by (unfold INT_MAX in *; lia).
  replace (i * nrq m * 4 + 0) with (4 * nrq m * i) by lia.
  replace (i * nrq m * 4 + 1) with (4 * nrq m * i + 1) by lia.
  replace (i * nrq m * 4 + 2) with (4 * nrq m * i + 2) by lia.
  reflexivity.
Qed.

(** X22.  For one read whose characters are all bases and whose
    squiggle is a well-formed matrix with no more columns than the read has
    characters, the driver writes the name line and then, per column, the
    column index, the base at that position and the first three scalars of
    the column.  A read with an unrecognised character writes nothing. *)
Theorem squiggle_read_lines
    (size_bits : Z) (calloc_int_ok : Z -> bool)
    (dna_squiggle : list Z -> Z -> bool -> outcome scrappie_matrix)
    (rescale_ : bool) (seq : kseq_t) :
  32 <= size_bits -> calloc_int_ok (len (seq_s seq)) = true ->
  (forallb is_base (seq_s seq) = false ->
   squiggle_read size_bits calloc_int_ok dna_squiggle rescale_ seq = Ret []) /\
  (forall m,
     forallb is_base (seq_s seq) = true ->
     dna_squiggle (map (fun c => base_to_int c true) (seq_s seq)) (len (seq_s seq)) rescale_
     = Ret (Some m) ->
     wf_matrix m -> nc m <= len (seq_s seq) ->
     squiggle_read size_bits calloc_int_ok dna_squiggle rescale_ seq
     = Ret (NameLine (name_s seq)
            :: map (fun i => SampleLine i (nth (Z.to_nat i) (seq_s seq) "000"%char)
                               (getf (data m) (4 * nrq m * i))
                               (getf (data m) (4 * nrq m * i + 1))
                               (getf (data m) (4 * nrq m * i + 2)))
                   (zseq 0 (Z.to_nat (nc m))))).
Proof.
  intros Hbits Hcalloc.
  assert (Henc : encode_bases_to_integers calloc_int_ok (seq_s seq) (len (seq_s seq))
                 = if forallb is_base (seq_s seq)
                   then Ret (Some (map (fun c => base_to_int c true) (seq_s seq)))
                   else Ret None).
  { rewrite encode_bases_to_integers_spec by (auto; unfold len; lia).
    unfold len. now rewrite Nat2Z.id, firstn_all. }
  split.
  - intros Hbad. unfold squiggle_read, sequence_to_squiggle.
    rewrite Henc, Hbad. reflexivity.
  - intros m Hok Hnet Hwf Hcols. unfold squiggle_read, sequence_to_squiggle.
    rewrite Henc, Hok. cbn [bind]. rewrite Hnet. cbn [bind].
    pose proof Hwf as (Hr & Hc & Hq & Hl & Hb).
    pose proof (ceil_quarter_pos (nr m) Hr) as Hqp. rewrite <- Hq in Hqp.
    assert (Hpow : 2 ^ 32 <= 2 ^ size_bits) by (apply Z.pow_le_mono_r; lia).
    change (2 ^ 32) with 4294967296 in Hpow.
    rewrite (to_size_small size_bits (nc m)) by (unfold INT_MAX in *; nia).
    rewrite (print_columns_spec size_bits seq m (Z.to_nat (nc m)) Hbits Hwf 0)
      by lia.
    reflexivity.
Qed.

Lemma squiggle_read_lines_witness :
  squiggle_read 64 always_ok shape_only_squiggle true (mkSeq "r2" seq_ACGX) = Ret [] /\
  squiggle_read 64 always_ok shape_only_squiggle true (mkSeq "r1" seq_ACGT)
  = Ret (NameLine "r1"
         :: map (fun i => SampleLine i (nth (Z.to_nat i) seq_ACGT "000"%char)
                            fzero fzero fzero)
                (zseq 0 4)).
Proof.
  assert (H1 : 32 <= 64) by (vm_compute; discriminate).
  split.
  - destruct (squiggle_read_lines 64 always_ok shape_only_squiggle true
                (mkSeq "r2" seq_ACGX) H1 eq_refl) as [Hbad _].
    apply Hbad. vm_compute. reflexivity.
  - destruct (squiggle_read_lines 64 always_ok shape_only_squiggle true
                (mkSeq "r1" seq_ACGT) H1 eq_refl) as [_ Hok].
    assert (Hwf : wf_matrix (mkMat 3 1 4 (zeros 16))).
    { unfold wf_matrix. vm_compute. repeat split; congruence. }
    assert (Hcols : nc (mkMat 3 1 4 (zeros 16)) <= len (seq_s (mkSeq "r1" seq_ACGT)))
      by (vm_compute; discriminate).
    exact (Hok (mkMat 3 1 4 (zeros 16)) eq_refl eq_refl Hwf Hcols).
Defined.

(** ** The extremum scans: padding and a leading NaN *)

Lemma f32_lt_of_nan (a b : f32) : isnan a = true -> f32_lt a b = false.
Proof. destruct a; try discriminate. intros _. now destruct b. Qed.

Lemma scan_from_nan (d : list f32) (l : list Z) (a : f32) (i : Z) :
  isnan a = true -> fold_left (arg_step d) l (a, i) = (a, i).
Proof.
  intros Hnan. induction l as [|j l IH]; [reflexivity|].
  cbn [fold_left arg_step]. now rewrite (f32_lt_of_nan a (getf d j) Hnan).
Qed.

Lemma scan_same_logical (d1 d2 : list f32) (l : list Z) :
  (forall j, In j l -> getf d1 j = getf d2 j) ->
  forall st, fold_left (arg_step d1) l st = fold_left (arg_step d2) l st.
Proof.
  intros Hsame st. apply fold_left_ext_in.
  intros [a i] j Hj. unfold arg_step. now rewrite (Hsame j Hj).
Qed.

(** X23.  The extremum scans read logical elements only: two
    well-formed matrices of one shape that agree on every logical element
    have the same [max_scrappie_matrix] and [argmax_scrappie_matrix],
    whatever their padding holds. *)
Theorem extrema_ignore_padding (size_bits : Z) (x y : scrappie_mat) :
  32 <= size_bits -> wf_matrix x -> wf_matrix y ->
  nr x = nr y -> nc x = nc y ->
  (forall j, In j (logical_offsets x) -> getf (data x) j = getf (data y) j) ->
  max_scrappie_matrix size_bits (Some x) = max_scrappie_matrix size_bits (Some y) /\
  argmax_scrappie_matrix size_bits (Some x) = argmax_scrappie_matrix size_bits (Some y).
Proof.
  intros Hbits Hx Hy Hnr Hnc Hsame.
  assert (Hq : nrq x = nrq y).
  { destruct Hx as (_ & _ & -> & _), Hy as (_ & _ & -> & _). now rewrite Hnr. }
  assert (Hoff : logical_offsets y = logical_offsets x).
  { unfold logical_offsets. now rewrite Hnr, Hnc, Hq. }
  destruct (logical_offsets_head x Hx) as [tl Htl].
  assert (H0 : getf (data x) 0 = getf (data y) 0).
  { apply Hsame. rewrite Htl. now left. }
  assert (Hscan : fold_left (arg_step (data x)) (logical_offsets x) (getf (data x) 0, 0)
                  = fold_left (arg_step (data y)) (logical_offsets y) (getf (data y) 0, 0)).
  { rewrite Hoff, <- H0. now apply scan_same_logical. }
  split.
  - rewrite (max_as_fold size_bits Hbits x Hx), (max_as_fold size_bits Hbits y Hy).
    rewrite <- (scan_value (data x) (logical_offsets x) (getf (data x) 0) 0).
    rewrite <- (scan_value (data y) (logical_offsets y) (getf (data y) 0) 0).
    now rewrite Hscan.
  - rewrite (argmax_as_fold size_bits Hbits x Hx), (argmax_as_fold size_bits Hbits y Hy).
    now rewrite Hscan.
Qed.

Lemma extrema_ignore_padding_witness :
  max_scrappie_matrix 64 (Some sevens_clean) = max_scrappie_matrix 64 (Some sevens_stale) /\
  argmax_scrappie_matrix 64 (Some sevens_clean)
  = argmax_scrappie_matrix 64 (Some sevens_stale).
Proof.
  assert (H1 : 32 <= 64) by (vm_compute; discriminate).
  assert (H2 : forall j, In j (logical_offsets sevens_clean) ->
                 getf (data sevens_clean) j = getf (data sevens_stale) j).
  { intros j Hj. vm_compute in Hj.
    repeat (destruct Hj as [<- | Hj]; [vm_compute; reflexivity|]). destruct Hj. }
  exact (extrema_ignore_padding 64 sevens_clean sevens_stale H1
           wf_sevens_clean wf_sevens_stale eq_refl eq_refl H2).
Defined.

(** X24.  A NaN in the first logical element is never replaced: on a
    well-formed matrix whose element at offset 0 is a NaN,
    [max_scrappie_matrix] and [min_scrappie_matrix] return NaN and
    [argmax_scrappie_matrix] and [argmin_scrappie_matrix] return 0, whatever
    the other elements are. *)
Theorem extrema_nan_first (size_bits : Z) (x : scrappie_mat) :
  32 <= size_bits -> wf_matrix x -> isnan (getf (data x) 0) = true ->
  max_scrappie_matrix size_bits (Some x) = NAN /\
  min_scrappie_matrix size_bits (Some x) = NAN /\
  argmax_scrappie_matrix size_bits (Some x) = 0 /\
  argmin_scrappie_matrix size_bits (Some x) = 0.
Proof.
  intros Hbits Hx Hnan.
  assert (Hscan : fold_left (arg_step (data x)) (logical_offsets x) (getf (data x) 0, 0)
                  = (getf (data x) 0, 0)) by now apply scan_from_nan.
  assert (Hmax : max_scrappie_matrix size_bits (Some x) = NAN).
  { rewrite (max_as_fold size_bits Hbits x Hx).
    rewrite <- (scan_value (data x) (logical_offsets x) (getf (data x) 0) 0), Hscan.
    cbn [fst]. destruct (getf (data x) 0); try discriminate. reflexivity. }
  assert (Harg : argmax_scrappie_matrix size_bits (Some x) = 0).
  { rewrite (argmax_as_fold size_bits Hbits x Hx), Hscan. reflexivity. }
  repeat split; assumption.
Qed.

Lemma extrema_nan_first_witness :
  max_scrappie_matrix 64 (Some example_nan_first) = NAN /\
  min_scrappie_matrix 64 (Some example_nan_first) = NAN /\
  argmax_scrappie_matrix 64 (Some example_nan_first) = 0 /\
  argmin_scrappie_matrix 64 (Some example_nan_first) = 0.
Proof.
  assert (H1 : 32 <= 64) by (vm_compute; discriminate).
  assert (H2 : wf_matrix example_nan_first).
  { unfold wf_matrix. vm_compute. repeat split; congruence. }
  exact (extrema_nan_first 64 example_nan_first H1 H2 eq_refl).
Defined.
